(** * Settings & Secrets Management: a shallow embedding of
      [routes/settings.js] and [utils/encryption.js]

    The development follows the JavaScript sources function by function.

    - JavaScript strings are sequences of UTF-16 code units ([jsstring]).
    - JavaScript values received in request bodies and read from rows are
      values of [JsVal]; objects keep their properties in insertion order.
    - The database is a record of tables, each a list of row objects; a
      request runs in a small state-and-exception monad over the pool and
      the current transaction, and any database call may reject. *)

From Stdlib Require Import ZArith NArith String Ascii Bool Lia Decimal List.
Import ListNotations.

Set Implicit Arguments.
#[local] Set Warnings "-register-all".

Local Open Scope Z_scope.

(* ===================================================================== *)
(** * JavaScript strings *)
(* ===================================================================== *)

Module Js.

(** A string is its list of UTF-16 code units. *)
Definition jsstring := list Z.

(** [u "abc"] is the JavaScript string literal ['abc'] (ASCII only). *)
Definition u (s : string) : jsstring :=
  map (fun a => Z.of_N (N_of_ascii a)) (list_ascii_of_string s).

Fixpoint str_eqb (a b : jsstring) : bool :=
  match a, b with
  | [], [] => true
  | x :: a', y :: b' => (x =? y) && str_eqb a' b'
  | _, _ => false
  end.

(** [s.includes(c)] for a one-unit needle. *)
Definition includes (c : Z) (s : jsstring) : bool :=
  existsb (fun x => x =? c) s.

(** [s.split(sep)] for a one-unit separator: never the empty array. *)
Fixpoint split (sep : Z) (s : jsstring) : list jsstring :=
  match s with
  | [] => [[]]
  | c :: r =>
      if c =? sep then [] :: split sep r
      else match split sep r with
           | p :: ps => (c :: p) :: ps
           | [] => [[c]]
           end
  end.

(** [parts.join(sep)]. *)
Fixpoint join (sep : jsstring) (parts : list jsstring) : jsstring :=
  match parts with
  | [] => []
  | [p] => p
  | p :: ps => p ++ sep ++ join sep ps
  end.

(** [s.substring(i)] and [s.substring(0, n)] with indices already clamped
    at zero (a negative argument of [substring] counts as zero, which is
    what truncated subtraction on [nat] gives). *)
Definition substring_from (i : nat) (s : jsstring) : jsstring := skipn i s.
Definition substring_to (n : nat) (s : jsstring) : jsstring := firstn n s.

(** [s.padEnd(n, c)] for a one-unit filler. *)
Definition padEnd (n : nat) (c : Z) (s : jsstring) : jsstring :=
  s ++ repeat c (n - length s).

(** [s.charAt(i)]: the empty string when [i] is out of range. *)
Definition charAt (i : nat) (s : jsstring) : jsstring :=
  match nth_error s i with
  | Some c => [c]
  | None => []
  end.

(** [/^[a-z0-9_]+$/.test(s)]. *)
Definition is_key_char (c : Z) : bool :=
  ((97 <=? c) && (c <=? 122)) || ((48 <=? c) && (c <=? 57)) || (c =? 95).

Definition is_digit (c : Z) : bool := (48 <=? c) && (c <=? 57).

(* ===================================================================== *)
(** * JavaScript numbers *)
(* ===================================================================== *)

(** A Number is NaN, an infinity, or a finite value [± m · 10^e].  A finite
    double is represented by the decimal that [Number::toString] prints for
    it: [m] carries no trailing zero, and zero is [Fin _ 0 0].  Literals are
    checked against the double range (overflow to an infinity, underflow to
    zero); inside the range the decimal of the literal is kept as written,
    so the rounding of literals of more than 15 significant digits to 53
    bits is not reproduced. *)
Inductive JsNum : Type :=
| NaN
| Inf (neg : bool)
| Fin (neg : bool) (m : N) (e : Z).

Definition num_isNaN (n : JsNum) : bool :=
  match n with NaN => true | _ => false end.

Definition num_isFinite (n : JsNum) : bool :=
  match n with Fin _ _ _ => true | _ => false end.

(** Zero and NaN are the falsy numbers. *)
Definition num_truthy (n : JsNum) : bool :=
  match n with
  | NaN => false
  | Inf _ => true
  | Fin _ m _ => negb (N.eqb m 0)
  end.

Fixpoint strip_zeros (fuel : nat) (m : N) (e : Z) : N * Z :=
  match fuel with
  | O => (m, e)
  | S f =>
      if N.eqb m 0 then (0%N, 0)
      else if N.eqb (N.modulo m 10) 0 then strip_zeros f (N.div m 10) (e + 1)
      else (m, e)
  end.

Fixpoint uint_units (d : Decimal.uint) : jsstring :=
  match d with
  | Nil => []
  | D0 r => 48 :: uint_units r
  | D1 r => 49 :: uint_units r
  | D2 r => 50 :: uint_units r
  | D3 r => 51 :: uint_units r
  | D4 r => 52 :: uint_units r
  | D5 r => 53 :: uint_units r
  | D6 r => 54 :: uint_units r
  | D7 r => 55 :: uint_units r
  | D8 r => 56 :: uint_units r
  | D9 r => 57 :: uint_units r
  end.

(** Decimal digits of a natural number, most significant first. *)
Definition digits_of (m : N) : jsstring := uint_units (N.to_uint m).

Definition pow10 (k : Z) : Z := 10 ^ k.

(** The largest finite double is [2^1024 - 2^971]; a value at or above
    [2^1024 - 2^970] rounds to an infinity, a value at or below [2^-1075]
    rounds to zero. *)
Definition overflow_bound : Z := 2 ^ 1024 - 2 ^ 970.

Definition rounds_to_infinity (m : N) (e : Z) : bool :=
  let k := Z.of_nat (length (digits_of m)) in
  if N.eqb m 0 then false
  else if 310 <? k + e then true
  else if k + e <? 300 then false
  else if 0 <=? e then overflow_bound <=? Z.of_N m * pow10 e
  else overflow_bound * pow10 (- e) <=? Z.of_N m.

Definition rounds_to_zero (m : N) (e : Z) : bool :=
  let k := Z.of_nat (length (digits_of m)) in
  if N.eqb m 0 then true
  else if k + e <? -330 then true
  else if -300 <? k + e then false
  else Z.of_N m * 2 ^ 1075 <=? pow10 (- e).

(** The Number denoted by the decimal [± m · 10^e]. *)
Definition of_decimal (neg : bool) (m : N) (e : Z) : JsNum :=
  if rounds_to_infinity m e then Inf neg
  else if rounds_to_zero m e then Fin neg 0 0
  else let '(m', e') := strip_zeros (S (N.size_nat m)) m e in Fin neg m' e'.

(** [Number::toString] (radix 10), ECMA-262 6.1.6.1.20, from the digits
    [ds] (there are [k] of them) and the exponent [n = k + e]. *)
Definition num_to_string (x : JsNum) : jsstring :=
  match x with
  | NaN => u "NaN"
  | Inf false => u "Infinity"
  | Inf true => u "-Infinity"
  | Fin neg m e =>
      if N.eqb m 0 then u "0"
      else
        let ds := digits_of m in
        let k := Z.of_nat (length ds) in
        let n := k + e in
        let sign := if neg then u "-" else [] in
        sign ++
        (if (k <=? n) && (n <=? 21) then
           ds ++ repeat 48 (Z.to_nat (n - k))
         else if (0 <? n) && (n <=? 21) then
           firstn (Z.to_nat n) ds ++ u "." ++ skipn (Z.to_nat n) ds
         else if (-6 <? n) && (n <=? 0) then
           u "0." ++ repeat 48 (Z.to_nat (- n)) ++ ds
         else
           let ex := n - 1 in
           let exs := (if ex <? 0 then u "-" else u "+")
                        ++ digits_of (Z.to_N (Z.abs ex)) in
           match ds with
           | [d] => [d] ++ u "e" ++ exs
           | d :: rest => [d] ++ u "." ++ rest ++ u "e" ++ exs
           | [] => []
           end)
  end.

(** ** [StringToNumber] (ECMA-262 7.1.4.1.1) *)

(** [StrWhiteSpaceChar]: WhiteSpace and LineTerminator code units. *)
Definition is_str_whitespace (c : Z) : bool :=
  ((9 <=? c) && (c <=? 13)) || (c =? 32) || (c =? 160) || (c =? 5760)
  || ((8192 <=? c) && (c <=? 8202)) || (c =? 8232) || (c =? 8233)
  || (c =? 8239) || (c =? 8287) || (c =? 12288) || (c =? 65279).

Fixpoint drop_while (p : Z -> bool) (s : jsstring) : jsstring :=
  match s with
  | c :: r => if p c then drop_while p r else s
  | [] => []
  end.

Definition trim (s : jsstring) : jsstring :=
  rev (drop_while is_str_whitespace (rev (drop_while is_str_whitespace s))).

Fixpoint span_digits (s : jsstring) : jsstring * jsstring :=
  match s with
  | c :: r =>
      if is_digit c then let '(d, rest) := span_digits r in (c :: d, rest)
      else ([], s)
  | [] => ([], [])
  end.

(** Value of a run of digits in the given radix; [None] on a foreign unit
    or the empty run. *)
Definition digit_value (radix : Z) (c : Z) : option Z :=
  let v :=
    if (48 <=? c) && (c <=? 57) then c - 48
    else if (97 <=? c) && (c <=? 102) then c - 87
    else if (65 <=? c) && (c <=? 70) then c - 55
    else radix in
  if v <? radix then Some v else None.

Fixpoint radix_value (radix : Z) (acc : Z) (s : jsstring) : option Z :=
  match s with
  | [] => Some acc
  | c :: r =>
      match digit_value radix c with
      | Some v => radix_value radix (acc * radix + v) r
      | None => None
      end
  end.

Definition digits_value (s : jsstring) : Z :=
  match radix_value 10 0 s with Some v => v | None => 0 end.

(** [ExponentPart]: after [e]/[E], an optional sign and at least one digit,
    up to the end of the literal. *)
Definition parse_exponent (s : jsstring) : option Z :=
  match s with
  | [] => Some 0
  | c :: r =>
      if (c =? 101) || (c =? 69) then
        let '(neg, r') :=
          match r with
          | 43 :: r' => (false, r')
          | 45 :: r' => (true, r')
          | _ => (false, r)
          end in
        match span_digits r' with
        | ((_ :: _) as d, []) =>
            Some (if neg then - digits_value d else digits_value d)
        | _ => None
        end
      else None
  end.

(** [StrUnsignedDecimalLiteral] other than [Infinity]: mantissa and
    exponent of the literal. *)
Definition parse_unsigned_decimal (s : jsstring) : option (N * Z) :=
  let '(ip, r) := span_digits s in
  let '(fp, r') :=
    match r with
    | 46 :: r1 => let '(f, r2) := span_digits r1 in (f, r2)
    | _ => ([], r)
    end in
  match ip, fp with
  | [], [] => None
  | _, _ =>
      match parse_exponent r' with
      | Some ex =>
          Some (Z.to_N (digits_value (ip ++ fp)),
                ex - Z.of_nat (length fp))
      | None => None
      end
  end.

Definition parse_signed_decimal (s : jsstring) : JsNum :=
  let '(neg, r) :=
    match s with
    | 43 :: r => (false, r)
    | 45 :: r => (true, r)
    | _ => (false, s)
    end in
  if str_eqb r (u "Infinity") then Inf neg
  else match parse_unsigned_decimal r with
       | Some (m, e) => of_decimal neg m e
       | None => NaN
       end.

Definition parse_radix_literal (radix : Z) (ds : jsstring) : JsNum :=
  match ds with
  | [] => NaN
  | _ => match radix_value radix 0 ds with
         | Some v => of_decimal false (Z.to_N v) 0
         | None => NaN
         end
  end.

Definition string_to_number (s : jsstring) : JsNum :=
  match trim s with
  | [] => Fin false 0 0
  | 48 :: c :: ds =>
      if (c =? 120) || (c =? 88) then parse_radix_literal 16 ds
      else if (c =? 111) || (c =? 79) then parse_radix_literal 8 ds
      else if (c =? 98) || (c =? 66) then parse_radix_literal 2 ds
      else parse_signed_decimal (48 :: c :: ds)
  | t => parse_signed_decimal t
  end.

(* ===================================================================== *)
(** * JavaScript values *)
(* ===================================================================== *)

(** The values a JSON request body or a result row can hold. *)
Inductive JsVal : Type :=
| VUndefined
| VNull
| VBool (b : bool)
| VNum (n : JsNum)
| VStr (s : jsstring)
| VArr (items : list JsVal)
| VObj (props : list (jsstring * JsVal)).

(** An object is its list of own properties, in insertion order. *)
Definition obj := list (jsstring * JsVal).

Definition num_of_Z (z : Z) : JsNum :=
  of_decimal (z <? 0) (Z.to_N (Z.abs z)) 0.

Definition VInt (z : Z) : JsVal := VNum (num_of_Z z).

(** [ToBoolean]. *)
Definition truthy (v : JsVal) : bool :=
  match v with
  | VUndefined | VNull => false
  | VBool b => b
  | VNum n => num_truthy n
  | VStr s => match s with [] => false | _ => true end
  | VArr _ | VObj _ => true
  end.

(** [String(v)]: an array joins the strings of its elements with commas,
    [null] and [undefined] elements contributing nothing; a plain object
    prints as [[object Object]]. *)
Fixpoint js_String (v : JsVal) : jsstring :=
  match v with
  | VUndefined => u "undefined"
  | VNull => u "null"
  | VBool true => u "true"
  | VBool false => u "false"
  | VNum n => num_to_string n
  | VStr s => s
  | VArr items =>
      (fix join_items (l : list JsVal) : jsstring :=
         let elem (x : JsVal) : jsstring :=
           match x with
           | VUndefined | VNull => []
           | _ => js_String x
           end in
         match l with
         | [] => []
         | [x] => elem x
         | x :: r => elem x ++ u "," ++ join_items r
         end) items
  | VObj _ => u "[object Object]"
  end.

(** [Number(v)]: arrays and plain objects go through their string. *)
Definition js_Number (v : JsVal) : JsNum :=
  match v with
  | VUndefined => NaN
  | VNull => Fin false 0 0
  | VBool true => Fin false 1 0
  | VBool false => Fin false 0 0
  | VNum n => n
  | VStr s => string_to_number s
  | VArr _ | VObj _ => string_to_number (js_String v)
  end.

(** [Boolean(v)] as a value. *)
Definition js_Boolean (v : JsVal) : JsVal := VBool (truthy v).

Definition is_undefined (v : JsVal) : bool :=
  match v with VUndefined => true | _ => false end.

Definition is_null (v : JsVal) : bool :=
  match v with VNull => true | _ => false end.

(** [typeof v === 'boolean'] and [typeof v === 'string']. *)
Definition is_boolean (v : JsVal) : bool :=
  match v with VBool _ => true | _ => false end.

Definition is_string (v : JsVal) : bool :=
  match v with VStr _ => true | _ => false end.

(** [v === 'lit']. *)
Definition is_str (lit : jsstring) (v : JsVal) : bool :=
  match v with VStr s => str_eqb s lit | _ => false end.

(** [a || b] on values. *)
Definition js_or (a b : JsVal) : JsVal := if truthy a then a else b.

(** ** Objects *)

Fixpoint lookup (k : jsstring) (o : obj) : option JsVal :=
  match o with
  | [] => None
  | (k', v) :: r => if str_eqb k' k then Some v else lookup k r
  end.

(** [o[k] = v]: an existing property keeps its place. *)
Fixpoint obj_set (k : jsstring) (v : JsVal) (o : obj) : obj :=
  match o with
  | [] => [(k, v)]
  | (k', v') :: r =>
      if str_eqb k' k then (k', v) :: r else (k', v') :: obj_set k v r
  end.

(** [{ ...o, k1: v1, ..., kn: vn }]. *)
Definition spread_with (o : obj) (extra : list (jsstring * JsVal)) : obj :=
  fold_left (fun acc kv => obj_set (fst kv) (snd kv) acc) extra o.

(** [{ k1: v1, ..., kn: vn }]. *)
Definition obj_lit (fields : list (jsstring * JsVal)) : obj :=
  spread_with [] fields.

(** [o.k] on an object: [undefined] when the property is absent. *)
Definition get (k : jsstring) (o : obj) : JsVal :=
  match lookup k o with Some v => v | None => VUndefined end.

(** [v.k] for a value read out of a JSON body: only plain objects carry
    the properties the handlers ask for.  [None] is the [TypeError] of
    reading a property of [null] or [undefined]. *)
Definition get_prop (k : jsstring) (v : JsVal) : option JsVal :=
  match v with
  | VUndefined | VNull => None
  | VObj o => Some (get k o)
  | _ => Some VUndefined
  end.

(* ===================================================================== *)
(** * [JSON.parse] *)
(* ===================================================================== *)

Definition is_json_ws (c : Z) : bool :=
  (c =? 32) || (c =? 9) || (c =? 10) || (c =? 13).

Definition skip_ws (s : jsstring) : jsstring := drop_while is_json_ws s.

Definition hex4 (a b c d : Z) : option Z :=
  radix_value 16 0 [a; b; c; d].

(** The characters of a string literal after its opening quote. *)
Fixpoint parse_string_body (s : jsstring) : option (jsstring * jsstring) :=
  match s with
  | [] => None
  | c :: r =>
      if c =? 34 then Some ([], r)
      else if c <? 32 then None
      else if c =? 92 then
        match r with
        | [] => None
        | e :: r1 =>
            let simple (x : Z) :=
              match parse_string_body r1 with
              | Some (t, rest) => Some (x :: t, rest)
              | None => None
              end in
            if e =? 34 then simple 34
            else if e =? 92 then simple 92
            else if e =? 47 then simple 47
            else if e =? 98 then simple 8
            else if e =? 102 then simple 12
            else if e =? 110 then simple 10
            else if e =? 114 then simple 13
            else if e =? 116 then simple 9
            else if e =? 117 then
              match r1 with
              | a :: r2 =>
                  match r2 with
                  | b :: r3 =>
                      match r3 with
                      | c' :: r4 =>
                          match r4 with
                          | d :: r5 =>
                              match hex4 a b c' d, parse_string_body r5 with
                              | Some x, Some (t, rest) => Some (x :: t, rest)
                              | _, _ => None
                              end
                          | [] => None
                          end
                      | [] => None
                      end
                  | [] => None
                  end
              | [] => None
              end
            else None
        end
      else
        match parse_string_body r with
        | Some (t, rest) => Some (c :: t, rest)
        | None => None
        end
  end.

(** A JSON number: an optional minus, an integer part without a leading
    zero (unless it is the single digit zero), an optional fraction of at
    least one digit, an optional exponent of at least one digit. *)
Definition parse_json_number (s : jsstring) : option (JsNum * jsstring) :=
  let '(neg, r) :=
    match s with
    | c :: r => if c =? 45 then (true, r) else (false, s)
    | [] => (false, s)
    end in
  let '(ip, r1) := span_digits r in
  let int_ok :=
    match ip with
    | [] => false
    | [_] => true
    | d :: _ => negb (d =? 48)
    end in
  let '(fp, frac_ok, r2) :=
    match r1 with
    | c :: r' =>
        if c =? 46 then
          let '(f, t) := span_digits r' in
          (f, match f with [] => false | _ => true end, t)
        else ([], true, r1)
    | [] => ([], true, r1)
    end in
  let '(ex, exp_ok, r3) :=
    match r2 with
    | c :: r' =>
        if (c =? 101) || (c =? 69) then
          let '(eneg, t) :=
            match r' with
            | c' :: t =>
                if c' =? 43 then (false, t)
                else if c' =? 45 then (true, t) else (false, r')
            | [] => (false, r')
            end in
          let '(d, t') := span_digits t in
          (if eneg then - digits_value d else digits_value d,
           match d with [] => false | _ => true end, t')
        else (0, true, r2)
    | [] => (0, true, r2)
    end in
  if int_ok && frac_ok && exp_ok then
    Some (of_decimal neg (Z.to_N (digits_value (ip ++ fp)))
            (ex - Z.of_nat (length fp)), r3)
  else None.

Fixpoint strip_prefix (p s : jsstring) : option jsstring :=
  match p, s with
  | [], _ => Some s
  | x :: p', y :: s' => if x =? y then strip_prefix p' s' else None
  | _ :: _, [] => None
  end.

Fixpoint parse_value (fuel : nat) (s : jsstring) {struct fuel}
  : option (JsVal * jsstring) :=
  match fuel with
  | O => None
  | S f =>
      match skip_ws s with
      | [] => None
      | c :: r =>
          if c =? 123 then
            match skip_ws r with
            | c2 :: r2 =>
                if c2 =? 125 then Some (VObj [], r2)
                else parse_members f [] r
            | [] => None
            end
          else if c =? 91 then
            match skip_ws r with
            | c2 :: r2 =>
                if c2 =? 93 then Some (VArr [], r2)
                else parse_elements f [] r
            | [] => None
            end
          else if c =? 34 then
            match parse_string_body r with
            | Some (t, rest) => Some (VStr t, rest)
            | None => None
            end
          else
            match strip_prefix (u "true") (c :: r),
                  strip_prefix (u "false") (c :: r),
                  strip_prefix (u "null") (c :: r) with
            | Some rest, _, _ => Some (VBool true, rest)
            | _, Some rest, _ => Some (VBool false, rest)
            | _, _, Some rest => Some (VNull, rest)
            | _, _, _ =>
                match parse_json_number (c :: r) with
                | Some (n, rest) => Some (VNum n, rest)
                | None => None
                end
            end
      end
  end
with parse_elements (fuel : nat) (acc : list JsVal) (s : jsstring)
  {struct fuel} : option (JsVal * jsstring) :=
  match fuel with
  | O => None
  | S f =>
      match parse_value f s with
      | Some (v, r) =>
          match skip_ws r with
          | c :: r' =>
              if c =? 44 then parse_elements f (v :: acc) r'
              else if c =? 93 then Some (VArr (rev (v :: acc)), r')
              else None
          | [] => None
          end
      | None => None
      end
  end
with parse_members (fuel : nat) (acc : obj) (s : jsstring)
  {struct fuel} : option (JsVal * jsstring) :=
  match fuel with
  | O => None
  | S f =>
      match skip_ws s with
      | c :: r =>
          if c =? 34 then
            match parse_string_body r with
            | Some (k, r1) =>
                match skip_ws r1 with
                | c1 :: r2 =>
                    if c1 =? 58 then
                      match parse_value f r2 with
                      | Some (v, r3) =>
                          match skip_ws r3 with
                          | c3 :: r4 =>
                              if c3 =? 44 then
                                parse_members f (obj_set k v acc) r4
                              else if c3 =? 125 then
                                Some (VObj (obj_set k v acc), r4)
                              else None
                          | [] => None
                          end
                      | None => None
                      end
                    else None
                | [] => None
                end
            | None => None
            end
          else None
      | [] => None
      end
  end.

(** [JSON.parse(text)] on a string; [None] is the [SyntaxError].  Every
    nested call consumes input, so twice the length of the text is fuel
    enough ([JsonFacts.JSON_parse_text_fuel]). *)
Definition JSON_parse_text (s : jsstring) : option JsVal :=
  match parse_value (2 * length s + 2) s with
  | Some (v, rest) =>
      match skip_ws rest with
      | [] => Some v
      | _ => None
      end
  | None => None
  end.

(** [JSON.parse(v)] first turns its argument into a string. *)
Definition JSON_parse (v : JsVal) : option JsVal :=
  JSON_parse_text (js_String v).

End Js.

(* ===================================================================== *)
(** * [utils/encryption.js] *)
(* ===================================================================== *)

Module Encryption.
Import Js.

(** Buffers are lists of bytes, each in [0, 256). *)
Definition bytes := list Z.

Definition is_byte (b : Z) : Prop := 0 <= b < 256.

(** ** [Buffer.from(text, 'utf8')] and [buf.toString('utf8')] *)

Definition is_high (c : Z) : bool := (55296 <=? c) && (c <=? 56319).
Definition is_low (c : Z) : bool := (56320 <=? c) && (c <=? 57343).

(** UTF-8 bytes of one code point. *)
Definition utf8_of_cp (cp : Z) : bytes :=
  if cp <? 128 then [cp]
  else if cp <? 2048 then [192 + cp / 64; 128 + cp mod 64]
  else if cp <? 65536 then
    [224 + cp / 4096; 128 + (cp / 64) mod 64; 128 + cp mod 64]
  else
    [240 + cp / 262144; 128 + (cp / 4096) mod 64;
     128 + (cp / 64) mod 64; 128 + cp mod 64].

(** The code point of a surrogate pair. *)
Definition pair_cp (hi lo : Z) : Z :=
  65536 + (hi - 55296) * 1024 + (lo - 56320).

(** Encoding a string: a surrogate pair is one code point, a surrogate
    without its partner is written as U+FFFD. *)
Fixpoint utf8_encode (s : jsstring) : bytes :=
  match s with
  | [] => []
  | c :: r =>
      if is_high c then
        match r with
        | d :: r' =>
            if is_low d then utf8_of_cp (pair_cp c d) ++ utf8_encode r'
            else utf8_of_cp 65533 ++ utf8_encode r
        | [] => utf8_of_cp 65533
        end
      else if is_low c then utf8_of_cp 65533 ++ utf8_encode r
      else utf8_of_cp c ++ utf8_encode r
  end.

(** UTF-16 code units of one code point. *)
Definition utf16_of_cp (cp : Z) : jsstring :=
  if cp <? 65536 then [cp]
  else [55296 + (cp - 65536) / 1024; 56320 + (cp - 65536) mod 1024].

(** State of the decoder inside a multi-byte sequence: the bits read so
    far, how many continuation bytes are still owed, and the range the
    next byte has to lie in. *)
Record dstate : Type := mk_dstate {
  d_cp : Z;
  d_need : nat;
  d_lo : Z;
  d_hi : Z
}.

(** A byte met outside a sequence: what it emits and the state it opens. *)
Definition utf8_start (b : Z) : jsstring * option dstate :=
  if b <=? 127 then ([b], None)
  else if (194 <=? b) && (b <=? 223) then
    ([], Some (mk_dstate (b - 192) 0 128 191))
  else if (224 <=? b) && (b <=? 239) then
    ([], Some (mk_dstate (b - 224) 1
                 (if b =? 224 then 160 else 128)
                 (if b =? 237 then 159 else 191)))
  else if (240 <=? b) && (b <=? 244) then
    ([], Some (mk_dstate (b - 240) 2
                 (if b =? 240 then 144 else 128)
                 (if b =? 244 then 143 else 191)))
  else ([65533], None).

(** Decoding with replacement: an ill-formed sequence yields U+FFFD and
    the offending byte is looked at again as the start of a sequence. *)
Fixpoint utf8_decode_from (st : option dstate) (bs : bytes) : jsstring :=
  match bs with
  | [] => match st with None => [] | Some _ => [65533] end
  | b :: r =>
      match st with
      | None =>
          let '(out, st') := utf8_start b in out ++ utf8_decode_from st' r
      | Some s =>
          if (d_lo s <=? b) && (b <=? d_hi s) then
            let cp := d_cp s * 64 + (b - 128) in
            match d_need s with
            | O => utf16_of_cp cp ++ utf8_decode_from None r
            | S n => utf8_decode_from (Some (mk_dstate cp n 128 191)) r
            end
          else
            let '(out, st') := utf8_start b in
            65533 :: out ++ utf8_decode_from st' r
      end
  end.

Definition utf8_decode (bs : bytes) : jsstring := utf8_decode_from None bs.

(** A string without unpaired surrogates: the strings UTF-8 can carry. *)
Fixpoint well_formed (s : jsstring) : bool :=
  match s with
  | [] => true
  | c :: r =>
      (0 <=? c) && (c <? 65536) &&
      (if is_high c then
         match r with
         | d :: r' => is_low d && well_formed r'
         | [] => false
         end
       else negb (is_low c) && well_formed r)
  end.

(** ** [buf.toString('base64')] and [Buffer.from(text, 'base64')] *)

Definition b64_alphabet : jsstring :=
  u "ABCDEFGHIJKLMNOPQRSTUVWXYZabcdefghijklmnopqrstuvwxyz0123456789+/".

Definition b64_char (i : Z) : Z := nth (Z.to_nat i) b64_alphabet 61.

Fixpoint base64_encode (bs : bytes) : jsstring :=
  match bs with
  | [] => []
  | [a] => [b64_char (a / 4); b64_char ((a mod 4) * 16); 61; 61]
  | [a; b] =>
      [b64_char (a / 4); b64_char ((a mod 4) * 16 + b / 16);
       b64_char ((b mod 16) * 4); 61]
  | a :: b :: c :: r =>
      b64_char (a / 4) :: b64_char ((a mod 4) * 16 + b / 16)
      :: b64_char ((b mod 16) * 4 + c / 64) :: b64_char (c mod 64)
      :: base64_encode r
  end.

(** The sextet of a character; the URL-safe characters [-] and [_] are
    accepted next to [+] and [/]. *)
Definition b64_value (c : Z) : option Z :=
  if (65 <=? c) && (c <=? 90) then Some (c - 65)
  else if (97 <=? c) && (c <=? 122) then Some (c - 71)
  else if (48 <=? c) && (c <=? 57) then Some (c + 4)
  else if (c =? 43) || (c =? 45) then Some 62
  else if (c =? 47) || (c =? 95) then Some 63
  else None.

(** The sextets of the text up to the first [=]; characters outside the
    alphabet are skipped. *)
Fixpoint b64_sextets (s : jsstring) : list Z :=
  match s with
  | [] => []
  | c :: r =>
      if c =? 61 then []
      else match b64_value c with
           | Some v => v :: b64_sextets r
           | None => b64_sextets r
           end
  end.

Fixpoint b64_bytes (fuel : nat) (vs : list Z) : bytes :=
  match fuel with
  | O => []
  | S f =>
      match vs with
      | a :: b :: c :: d :: r =>
          (a * 4 + b / 16) :: ((b mod 16) * 16 + c / 4)
          :: ((c mod 4) * 64 + d) :: b64_bytes f r
      | [a; b; c] => [a * 4 + b / 16; (b mod 16) * 16 + c / 4]
      | [a; b] => [a * 4 + b / 16]
      | _ => []
      end
  end.

Definition base64_decode (s : jsstring) : bytes :=
  let vs := b64_sextets s in b64_bytes (S (length vs)) vs.

(** ** [buf.toString('hex')] and [Buffer.from(text, 'hex')] *)

Definition hex_digit (n : Z) : Z := if n <? 10 then 48 + n else 87 + n.

Definition hex_encode (bs : bytes) : jsstring :=
  flat_map (fun b => [hex_digit (b / 16); hex_digit (b mod 16)]) bs.

(** Decoding stops at the first pair that is not two hex digits. *)
Fixpoint hex_decode_n (fuel : nat) (s : jsstring) : bytes :=
  match fuel with
  | O => []
  | S f =>
      match s with
      | a :: b :: r =>
          match digit_value 16 a, digit_value 16 b with
          | Some x, Some y => (x * 16 + y) :: hex_decode_n f r
          | _, _ => []
          end
      | _ => []
      end
  end.

Definition hex_decode (s : jsstring) : bytes := hex_decode_n (length s) s.

(** ** The module *)

Section Cipher.

(** AES-256-GCM of [node:crypto] and the process environment.
    [gcm_seal key iv plaintext] is the ciphertext and the tag that
    [cipher.update], [cipher.final] and [cipher.getAuthTag] deliver;
    [gcm_open key iv tag ciphertext] is [None] whenever
    [createDecipheriv], [setAuthTag] or [decipher.final] throws. *)
Variable gcm_seal : bytes -> bytes -> bytes -> bytes * bytes.
Variable gcm_open : bytes -> bytes -> bytes -> bytes -> option bytes.

(** [process.env.ENCRYPTION_KEY]. *)
Variable ENCRYPTION_KEY : option jsstring.

Definition ivLength : nat := 16.

Definition secretKey : jsstring :=
  match ENCRYPTION_KEY with
  | Some ((_ :: _) as k) => k
  | _ => u "your-default-32-char-key-here-12345"
  end.

Definition normalizeKey (key : jsstring) : jsstring :=
  match key with
  | [] => u "default-32-character-encryption-key!!"
  | _ =>
      if (length key <? 32)%nat then padEnd 32 48 key
      else if (32 <? length key)%nat then substring_to 32 key
      else key
  end.

(** [encrypt(text)] on a string, with [iv] the outcome of
    [crypto.randomBytes(ivLength)].  [createCipheriv] throws unless the
    key buffer holds 32 bytes; the [catch] then hands the text back. *)
Definition encrypt (iv : bytes) (text : jsstring) : jsstring :=
  match text with
  | [] => []
  | _ =>
      let key := utf8_encode (normalizeKey secretKey) in
      if (length key =? 32)%nat then
        let '(ct, tag) := gcm_seal key iv (utf8_encode text) in
        hex_encode iv ++ u ":" ++ hex_encode tag ++ u ":" ++ hex_encode ct
      else text
  end.

(** [decrypt(encryptedText)] on a string. *)
Definition decrypt (encryptedText : jsstring) : jsstring :=
  match encryptedText with
  | [] => []
  | _ =>
      if negb (includes 58 encryptedText)
         || negb (length (split 58 encryptedText) =? 3)%nat
      then encryptedText
      else
        match split 58 encryptedText with
        | [p0; p1; p2] =>
            let iv := hex_decode p0 in
            let authTag := hex_decode p1 in
            let key := utf8_encode (normalizeKey secretKey) in
            if (length key =? 32)%nat then
              match gcm_open key iv authTag (hex_decode p2) with
              | Some pt => utf8_decode pt
              | None => encryptedText
              end
            else encryptedText
        | _ => encryptedText
        end
  end.

End Cipher.

Section Simple.

(** [Buffer.from(v)] and [Buffer.from(v, 'base64')] for a truthy value
    that is not a string ([None]: the call throws a [TypeError], as it does
    for numbers and booleans).  Left to the platform. *)
Variable buffer_from : JsVal -> option bytes.

(** [simpleEncrypt(text)]; [None] when [Buffer.from] throws. *)
Definition simpleEncrypt (text : JsVal) : option jsstring :=
  if negb (truthy text) then Some []
  else match text with
       | VStr s => Some (base64_encode (utf8_encode s))
       | _ => option_map base64_encode (buffer_from text)
       end.

(** [simpleDecrypt(encryptedText)]. *)
Definition simpleDecrypt (encryptedText : JsVal) : option jsstring :=
  if negb (truthy encryptedText) then Some []
  else match encryptedText with
       | VStr s => Some (utf8_decode (base64_decode s))
       | _ => option_map utf8_decode (buffer_from encryptedText)
       end.

End Simple.

End Encryption.

(* ===================================================================== *)
(** * [routes/settings.js]: helpers *)
(* ===================================================================== *)

Module Settings.
Import Js Encryption.

(** ** [JSON.stringify] *)

Definition hex4_of (c : Z) : jsstring :=
  [hex_digit (c / 4096); hex_digit ((c / 256) mod 16);
   hex_digit ((c / 16) mod 16); hex_digit (c mod 16)].

(** [QuoteJSONString]: unpaired surrogates are written as escapes. *)
Fixpoint quote_units (s : jsstring) : jsstring :=
  match s with
  | [] => []
  | c :: r =>
      if c =? 34 then [92; 34] ++ quote_units r
      else if c =? 92 then u "\\" ++ quote_units r
      else if c =? 8 then u "\b" ++ quote_units r
      else if c =? 9 then u "\t" ++ quote_units r
      else if c =? 10 then u "\n" ++ quote_units r
      else if c =? 12 then u "\f" ++ quote_units r
      else if c =? 13 then u "\r" ++ quote_units r
      else if c <? 32 then u "\u" ++ hex4_of c ++ quote_units r
      else if is_high c then
        match r with
        | d :: r' =>
            if is_low d then c :: d :: quote_units r'
            else u "\u" ++ hex4_of c ++ quote_units r
        | [] => u "\u" ++ hex4_of c
        end
      else if is_low c then u "\u" ++ hex4_of c ++ quote_units r
      else c :: quote_units r
  end.

Definition quote (s : jsstring) : jsstring := [34] ++ quote_units s ++ [34].

(** [JSON.stringify(v)] for a value other than [undefined]. *)
Fixpoint stringify (v : JsVal) : jsstring :=
  match v with
  | VUndefined | VNull => u "null"
  | VBool true => u "true"
  | VBool false => u "false"
  | VNum n => if num_isFinite n then num_to_string n else u "null"
  | VStr s => quote s
  | VArr items =>
      u "[" ++
      (fix elems (l : list JsVal) : jsstring :=
         match l with
         | [] => []
         | [x] => stringify x
         | x :: r => stringify x ++ u "," ++ elems r
         end) items
      ++ u "]"
  | VObj props =>
      u "{" ++
      (fix members (first : bool) (l : list (jsstring * JsVal)) : jsstring :=
         match l with
         | [] => []
         | (k, x) :: r =>
             match x with
             | VUndefined => members first r
             | _ =>
                 (if first then [] else u ",")
                 ++ quote k ++ u ":" ++ stringify x ++ members false r
             end
         end) true props
      ++ u "}"
  end.

Definition JSON_stringify (v : JsVal) : JsVal :=
  match v with
  | VUndefined => VUndefined
  | _ => VStr (stringify v)
  end.

(** ** The environment of a request *)

(** What a request takes from outside the module: the database engine,
    the platform's random sources, clock and buffers, and the process
    configuration. *)
Record Env : Type := mkEnv {
  (** [column = ?] of MySQL, on a cell and a bound parameter *)
  sql_eq : JsVal -> JsVal -> bool;
  (** the rows in the order of an [ORDER BY] clause *)
  sql_order : jsstring -> list obj -> list obj;
  (** [NOW()] *)
  sql_now : JsVal;
  (** the [AUTO_INCREMENT] id of a row inserted into the given rows *)
  insert_id : list obj -> JsVal;
  (** [Some msg]: the n-th database call of the request rejects *)
  fails : nat -> option jsstring;
  (** [Buffer.from] on a truthy value that is not a string *)
  buffer_from : JsVal -> option bytes;
  (** [Math.floor(Math.random() * 62)] of the n-th draw, in [0, 62) *)
  math_random : nat -> nat;
  (** [crypto.randomBytes(n)] *)
  randomBytes : nat -> bytes;
  gcm_seal : bytes -> bytes -> bytes -> bytes * bytes;
  gcm_open : bytes -> bytes -> bytes -> bytes -> option bytes;
  ENCRYPTION_KEY : option jsstring;
  (** [new Date(Date.now() + d * 24 * 60 * 60 * 1000)] *)
  date_after_days : JsVal -> JsVal;
  (** [new Date().toISOString()] *)
  now_iso : JsVal
}.

Definition useSimpleEncryption : bool := true.

(** The longest string the engine allocates (V8, 64-bit); appending past
    it throws a [RangeError]. *)
Definition max_string_length : Z := 536870888.

Definition alphanumeric : jsstring :=
  u "ABCDEFGHIJKLMNOPQRSTUVWXYZabcdefghijklmnopqrstuvwxyz0123456789".

(** Number of rounds of [for (let i = 0; i < n; i++)] for a positive
    bound: the least integer not below [n]; [None] for [Infinity]. *)
Definition loop_rounds (n : JsNum) : option Z :=
  match n with
  | NaN => Some 0
  | Inf true => Some 0
  | Inf false => None
  | Fin true _ _ => Some 0
  | Fin false m e =>
      if 0 <=? e then Some (Z.of_N m * pow10 e)
      else Some ((Z.of_N m + pow10 (- e) - 1) / pow10 (- e))
  end.

(** [safeLength <= 0]. *)
Definition num_le_zero (n : JsNum) : bool :=
  match n with
  | NaN => false
  | Inf neg => neg
  | Fin neg m _ => neg || N.eqb m 0
  end.

Section WithEnv.

Variable E : Env.

(** [encrypt] and [decrypt] applied to a value: on anything but a string
    the [catch] hands the argument back. *)
Definition encrypt_value (v : JsVal) : JsVal :=
  match v with
  | VStr s =>
      VStr (encrypt (gcm_seal E) (ENCRYPTION_KEY E) (randomBytes E ivLength) s)
  | _ => if truthy v then v else VStr []
  end.

Definition decrypt_value (v : JsVal) : JsVal :=
  match v with
  | VStr s => VStr (decrypt (gcm_open E) (ENCRYPTION_KEY E) s)
  | _ => if truthy v then v else VStr []
  end.

(** [processSettingValue(setting, value)]; [None]: [simpleDecrypt] throws. *)
Definition processSettingValue (setting : obj) (value : JsVal)
  : option JsVal :=
  if truthy (get (u "is_encrypted") setting) && truthy value then
    if useSimpleEncryption then
      option_map VStr (simpleDecrypt (buffer_from E) value)
    else Some (decrypt_value value)
  else Some value.

(** [generateRandomString(length = 24)]; [None]: the string outgrows the
    engine and [result += ...] throws. *)
Definition generateRandomString (length : JsVal) : option jsstring :=
  let length := match length with VUndefined => VInt 24 | _ => length end in
  let safeLength :=
    if num_truthy (js_Number length) then js_Number length
    else Fin false 24 0 in
  if num_le_zero safeLength then Some []
  else
    match loop_rounds safeLength with
    | Some n =>
        if n <=? max_string_length then
          Some (flat_map
                  (fun i => charAt (math_random E i) alphanumeric)
                  (seq 0 (Z.to_nat n)))
        else None
    | None => None
    end.

(** [generateAlphanumericString(length = 24)] for a length in [nat]. *)
Definition generateAlphanumericString (length : nat) : jsstring :=
  let random := randomBytes E length in
  flat_map
    (fun i =>
       match nth_error random i with
       | Some b => charAt (Z.to_nat (b mod 62)) alphanumeric
       | None => u "undefined"
       end)
    (seq 0 length).

Definition generateWebhookSecret : jsstring :=
  u "whsec_" ++ generateAlphanumericString 32.

(** [maskSecret(secret)]; [None]: [secret.substring] is not a function. *)
Definition maskSecret (secret : JsVal) : option jsstring :=
  if negb (truthy secret) then Some (u "...")
  else match secret with
       | VStr s => Some (substring_to 6 s ++ u "...")
       | _ => None
       end.

(** [generateApiKey(prefix = "pk")]. *)
Definition generateApiKey (prefix : JsVal) : option jsstring :=
  let prefix := match prefix with VUndefined => VStr (u "pk") | _ => prefix end in
  match generateRandomString (VInt 24) with
  | Some randomString => Some (js_String prefix ++ u "_" ++ randomString)
  | None => None
  end.

(** [maskApiKey(apiKey)]. *)
Definition maskApiKey (apiKey : JsVal) : jsstring :=
  match apiKey with
  | VStr s =>
      if negb (truthy apiKey) then u "..."
      else
        match split 95 s with
        | prefix :: ((_ :: _) as rest) =>
            let key := join (u "_") rest in
            if (length key <=? 6)%nat then prefix ++ u "_..."
            else prefix ++ u "_..." ++ substring_from (length key - 6) key
        | _ => u "..."
        end
  | _ => u "..."
  end.

(** [prepareValueForStorage(setting, value)]; [None]: [simpleEncrypt]
    throws. *)
Definition prepareValueForStorage (setting : obj) (value : JsVal)
  : option JsVal :=
  if truthy (get (u "is_encrypted") setting) && truthy value then
    if useSimpleEncryption then
      option_map VStr (simpleEncrypt (buffer_from E) value)
    else Some (encrypt_value value)
  else Some value.

(** [validateSettingKey(key)]. *)
Definition validateSettingKey (key : JsVal) : bool :=
  match key with
  | VStr s => truthy key && forallb is_key_char s
  | _ => false
  end.

(** The result object [{ valid, error }] of the validator. *)
Inductive Validation : Type :=
| Valid
| Invalid (error : jsstring).

Definition is_valid (r : Validation) : bool :=
  match r with Valid => true | Invalid _ => false end.

(** [validateSettingValue(setting, value)]. *)
Definition validateSettingValue (setting : obj) (value : JsVal)
  : Validation :=
  let name := js_String (get (u "setting_name") setting) in
  if truthy (get (u "is_required") setting)
     && (is_undefined value || is_null value || is_str [] value)
  then Invalid (name ++ u " is required")
  else
    let data_type := get (u "data_type") setting in
    if is_str (u "string") data_type then Valid
    else if is_str (u "number") data_type then
      if num_isNaN (js_Number value)
      then Invalid (name ++ u " must be a number")
      else Valid
    else if is_str (u "boolean") data_type then
      if negb (is_boolean value)
         && negb (existsb (str_eqb (js_String value))
                    [u "true"; u "false"; u "0"; u "1"])
      then Invalid (name ++ u " must be true or false")
      else Valid
    else if is_str (u "json") data_type then
      match JSON_parse value with
      | Some _ => Valid
      | None => Invalid (name ++ u " must be valid JSON")
      end
    else Valid.

End WithEnv.

(* ===================================================================== *)
(** * The database, the pool and the request monad *)
(* ===================================================================== *)

(** The four tables the module reads and writes.  A row is an object from
    column names to cells; a cell holds the bound parameter it was written
    with (the driver's rendering of a parameter into SQL text and the
    conversion to the column type are not modelled). *)
Record DB : Type := mkDB {
  system_settings : list obj;
  settings_history : list obj;
  api_keys : list obj;
  webhooks : list obj
}.

(** A computation returns or throws an error with a message. *)
Inductive Outcome (A : Type) : Type :=
| Ok (a : A)
| Throw (message : jsstring).

Arguments Ok {A} a.
Arguments Throw {A} message.

(** The state a request acts on: the committed database, the uncommitted
    state of the open transaction of its connection (if any), the number
    of pooled connections it holds, and the number of database calls it
    has made. *)
Record World : Type := mkWorld {
  committed : DB;
  pending : option DB;
  held : nat;
  calls : nat
}.

Definition M (A : Type) : Type := World -> Outcome A * World.

Definition ret {A : Type} (a : A) : M A := fun w => (Ok a, w).

Definition bind {A B : Type} (m : M A) (k : A -> M B) : M B :=
  fun w =>
    match m w with
    | (Ok a, w') => k a w'
    | (Throw e, w') => (Throw e, w')
    end.

Definition throw {A : Type} (e : jsstring) : M A := fun w => (Throw e, w).

(** [try { m } catch (err) { h err }]. *)
Definition try_catch {A : Type} (m : M A) (h : jsstring -> M A) : M A :=
  fun w =>
    match m w with
    | (Ok a, w') => (Ok a, w')
    | (Throw e, w') => h e w'
    end.

(** A platform call that may throw. *)
Definition lift {A : Type} (message : jsstring) (o : option A) : M A :=
  match o with
  | Some a => ret a
  | None => throw message
  end.

Declare Scope req_scope.
Delimit Scope req_scope with req.

Notation "x <- m ;; k" := (bind m (fun x => k))
  (at level 100, m at next level, right associativity) : req_scope.
Notation "m ;;; k" := (bind m (fun _ => k))
  (at level 100, right associativity) : req_scope.

(** The state the statements of the connection see. *)
Definition current (w : World) : DB :=
  match pending w with
  | Some p => p
  | None => committed w
  end.

(** [res.status(st).json(body)]. *)
Record Response : Type := mkResponse {
  status : Z;
  body : obj
}.

(** [req.params], [req.query], [req.body] and [req.user]. *)
Record Request : Type := mkRequest {
  params : obj;
  query : obj;
  req_body : obj;
  user : JsVal
}.

Definition success_data (st : Z) (message : option jsstring)
  (data : JsVal) : Response :=
  mkResponse st
    (obj_lit ([(u "success", VBool true)]
              ++ match message with
                 | Some m => [(u "message", VStr m)]
                 | None => []
                 end
              ++ [(u "data", data)])).

Definition failure (st : Z) (message : jsstring) : Response :=
  mkResponse st
    (obj_lit [(u "success", VBool false); (u "message", VStr message)]).

(** The body of the outer [catch (err)]. *)
Definition failure_500 (message : jsstring) (err : jsstring) : Response :=
  mkResponse 500
    (obj_lit [(u "success", VBool false); (u "message", VStr message);
              (u "error", VStr err)]).

Section Handlers.

Variable E : Env.

(** A call on the pool or the connection: the environment decides
    whether it rejects; a rejected call leaves the database as it was. *)
Definition db_call {A : Type} (act : World -> A * World) : M A :=
  fun w =>
    let w1 := mkWorld (committed w) (pending w) (held w) (S (calls w)) in
    match fails E (calls w) with
    | Some msg => (Throw msg, w1)
    | None => let '(a, w2) := act w1 in (Ok a, w2)
    end.

(** [await pool.getConnection()]. *)
Definition getConnection : M unit :=
  db_call (fun w =>
    (tt, mkWorld (committed w) (pending w) (S (held w)) (calls w))).

(** [conn.release()]. *)
Definition release : M unit :=
  fun w => (Ok tt, mkWorld (committed w) (pending w) (pred (held w)) (calls w)).

(** [await conn.beginTransaction()]: an open transaction is committed
    first. *)
Definition beginTransaction : M unit :=
  db_call (fun w =>
    (tt, mkWorld (current w) (Some (current w)) (held w) (calls w))).

(** [await conn.commit()]. *)
Definition commit : M unit :=
  db_call (fun w => (tt, mkWorld (current w) None (held w) (calls w))).

(** [await conn.rollback()]. *)
Definition rollback : M unit :=
  db_call (fun w => (tt, mkWorld (committed w) None (held w) (calls w))).

(** [await conn.query(sql, params)] for a statement [q]: inside a
    transaction it acts on the uncommitted state, outside of one it
    commits at once. *)
Definition conn_query {A : Type} (q : DB -> A * DB) : M A :=
  db_call (fun w =>
    let '(a, db') := q (current w) in
    match pending w with
    | Some _ => (a, mkWorld (committed w) (Some db') (held w) (calls w))
    | None => (a, mkWorld db' None (held w) (calls w))
    end).

(** ** Statements *)

Definition col_eq (column : jsstring) (param : JsVal) (row : obj) : bool :=
  sql_eq E (get column row) param.

Definition is_active_row (row : obj) : bool :=
  sql_eq E (get (u "is_active") row) (VBool true).

(** [SELECT * FROM system_settings WHERE column = ?]. *)
Definition select_settings (column : jsstring) (param : JsVal) (db : DB)
  : list obj * DB :=
  (filter (col_eq column param) (system_settings db), db).

(** [UPDATE system_settings SET setting_value = ?, updated_at = NOW()
     WHERE id = ?]. *)
Definition update_setting_value (newValue settingId : JsVal) (db : DB)
  : unit * DB :=
  (tt,
   mkDB
     (map (fun row =>
             if col_eq (u "id") settingId row
             then obj_set (u "updated_at") (sql_now E)
                    (obj_set (u "setting_value") newValue row)
             else row)
          (system_settings db))
     (settings_history db) (api_keys db) (webhooks db)).

(** [INSERT INTO settings_history (setting_id, old_value, new_value,
     changed_by, change_reason) VALUES (?, ?, ?, ?, ?)]. *)
Definition history_row (settingId oldValue newValue changed_by reason : JsVal)
  : obj :=
  obj_lit [(u "setting_id", settingId); (u "old_value", oldValue);
           (u "new_value", newValue); (u "changed_by", changed_by);
           (u "change_reason", reason)].

Definition insert_history
  (settingId oldValue newValue changed_by reason : JsVal) (db : DB)
  : unit * DB :=
  (tt,
   mkDB (system_settings db)
     (settings_history db
      ++ [history_row settingId oldValue newValue changed_by reason])
     (api_keys db) (webhooks db)).

(** ** Reading settings *)

(** The decrypt and parse treatment of a fetched row. *)
Definition decode_row (row : obj) : M obj :=
  (v <- lift (u "TypeError") (processSettingValue E row (get (u "setting_value") row)) ;;
   let setting := obj_set (u "setting_value") v row in
   setting <-
     (if truthy (get (u "options") row) then
        (p <- lift (u "SyntaxError") (JSON_parse (get (u "options") row)) ;;
         ret (obj_set (u "options") p setting))
      else ret setting) ;;
   if truthy (get (u "extra_config") row) then
     (p <- lift (u "SyntaxError") (JSON_parse (get (u "extra_config") row)) ;;
      ret (obj_set (u "extra_config") p setting))
   else ret setting)%req.

Fixpoint decode_rows (rows : list obj) : M (list obj) :=
  match rows with
  | [] => ret []
  | row :: rest =>
      (setting <- decode_row row ;;
       settings <- decode_rows rest ;;
       ret (setting :: settings))%req
  end.

(** [groupedSettings[setting.setting_category].push(setting)], on an
    object that starts empty (inherited properties are not modelled). *)
Definition group_push (grouped : obj) (setting : obj) : obj :=
  let k := js_String (get (u "setting_category") setting) in
  match lookup k grouped with
  | Some (VArr l) => obj_set k (VArr (l ++ [VObj setting])) grouped
  | _ => obj_set k (VArr [VObj setting]) grouped
  end.

(** [router.get("/")]. *)
Definition get_settings (req : Request) : M Response :=
  try_catch
    (let category := get (u "category") (query req) in
     let key := get (u "key") (query req) in
     let include_inactive := get (u "include_inactive") (query req) in
     getConnection ;;;
     rows <- conn_query (fun db =>
       (sql_order E (u "setting_category, sort_order, setting_name")
          (filter (fun row =>
             (if truthy category
              then col_eq (u "setting_category") category row else true)
             && (if truthy key
                 then col_eq (u "setting_key") key row else true)
             && (if negb (truthy include_inactive)
                    || is_str (u "false") include_inactive
                 then is_active_row row else true))
             (system_settings db)), db)) ;;
     release ;;;
     settings <- decode_rows rows ;;
     ret (mkResponse 200
            (obj_lit [(u "success", VBool true);
                      (u "data", VObj (fold_left group_push settings []));
                      (u "count", VInt (Z.of_nat (length settings)))])))%req
    (fun err => ret (failure_500 (u "Failed to fetch settings") err)).

(** [router.get("/:id")]. *)
Definition get_setting_by_id (req : Request) : M Response :=
  try_catch
    (let settingId := get (u "id") (params req) in
     getConnection ;;;
     rows <- conn_query (select_settings (u "setting_key") settingId) ;;
     release ;;;
     match rows with
     | [] => ret (failure 404 (u "Setting not found"))
     | row :: _ =>
         setting <- decode_row row ;;
         ret (success_data 200 None (VObj setting))
     end)%req
    (fun err => ret (failure_500 (u "Failed to fetch setting") err)).

(** [router.get("/key/:key")]. *)
Definition get_setting_by_key (req : Request) : M Response :=
  try_catch
    (let settingKey := get (u "key") (params req) in
     getConnection ;;;
     rows <- conn_query (fun db =>
       (filter (fun row => col_eq (u "setting_key") settingKey row
                           && is_active_row row)
          (system_settings db), db)) ;;
     release ;;;
     match rows with
     | [] => ret (failure 404 (u "Setting not found"))
     | row :: _ =>
         setting <- decode_row row ;;
         ret (success_data 200 None (VObj setting))
     end)%req
    (fun err => ret (failure_500 (u "Failed to fetch setting") err)).

(** ** Updating a setting *)

(** [req.user?.id || 'system']. *)
Definition user_id (req : Request) : JsVal :=
  js_or (match get_prop (u "id") (user req) with
         | Some v => v
         | None => VUndefined
         end)
        (VStr (u "system")).

(** The transaction both update handlers run once the current row is
    selected by [column = param]. *)
Definition update_transaction (req : Request) (column : jsstring)
  (param : JsVal) (idOf : obj -> JsVal) : M Response :=
  let setting_value := get (u "setting_value") (req_body req) in
  let change_reason := get (u "change_reason") (req_body req) in
  let userId := user_id req in
  try_catch
    (currentRows <- conn_query (select_settings column param) ;;
     match currentRows with
     | [] =>
         rollback ;;;
         release ;;;
         ret (failure 404 (u "Setting not found"))
     | currentSetting :: _ =>
         let settingId := idOf currentSetting in
         let oldValue := get (u "setting_value") currentSetting in
         newValue <- lift (u "TypeError")
                       (prepareValueForStorage E currentSetting setting_value) ;;
         conn_query (update_setting_value newValue settingId) ;;;
         conn_query (insert_history settingId oldValue newValue userId
                       (js_or change_reason (VStr (u "Updated via API")))) ;;;
         commit ;;;
         release ;;;
         old_shown <- lift (u "TypeError")
                        (processSettingValue E currentSetting oldValue) ;;
         ret (success_data 200 (Some (u "Setting updated successfully"))
                (VObj (obj_lit
                   [(u "id", settingId);
                    (u "setting_key", get (u "setting_key") currentSetting);
                    (u "old_value", old_shown);
                    (u "new_value", setting_value)])))
     end)%req
    (fun error => (rollback ;;; release ;;; throw error)%req).

(** [router.put("/:id")]. *)
Definition put_setting_by_id (req : Request) : M Response :=
  try_catch
    (let settingId := get (u "id") (params req) in
     if is_undefined (get (u "setting_value") (req_body req)) then
       ret (failure 400 (u "Setting value is required"))
     else
       (getConnection ;;;
        beginTransaction ;;;
        update_transaction req (u "id") settingId (fun _ => settingId))%req)
    (fun err => ret (failure_500 (u "Failed to update setting") err)).

(** [router.put("/key/:key")]. *)
Definition put_setting_by_key (req : Request) : M Response :=
  try_catch
    (let settingKey := get (u "key") (params req) in
     if is_undefined (get (u "setting_value") (req_body req)) then
       ret (failure 400 (u "Setting value is required"))
     else
       (getConnection ;;;
        beginTransaction ;;;
        update_transaction req (u "setting_key") settingKey
          (fun currentSetting => get (u "id") currentSetting))%req)
    (fun err => ret (failure_500 (u "Failed to update setting") err)).

(** ** Bulk update *)

(** The string the bulk update hands to [prepareValueForStorage]. *)
Definition valueToStore (currentSetting : obj) (setting_value : JsVal)
  : jsstring :=
  if is_str (u "boolean") (get (u "data_type") currentSetting)
  then js_String (js_Boolean setting_value)
  else js_String setting_value.

Definition bulk_error (setting_key : JsVal) (error : jsstring) : JsVal :=
  VObj (obj_lit [(u "setting_key", setting_key); (u "error", VStr error)]).

Definition bulk_result (setting_key settingId : JsVal) : JsVal :=
  VObj (obj_lit [(u "setting_key", setting_key); (u "id", settingId);
                 (u "success", VBool true)]).

(** [for (const settingData of settings) { ... }], with the arrays
    [results] and [errors] built so far. *)
Fixpoint bulk_loop (change_reason : JsVal) (settings : list JsVal)
  (results errors : list JsVal) : M (list JsVal * list JsVal) :=
  match settings with
  | [] => ret (results, errors)
  | settingData :: rest =>
      match get_prop (u "setting_key") settingData,
            get_prop (u "setting_value") settingData with
      | Some setting_key, Some setting_value =>
          if negb (truthy setting_key) || is_undefined setting_value then
            bulk_loop change_reason rest results
              (errors ++ [bulk_error (js_or setting_key (VStr (u "unknown")))
                            (u "Missing key or value")])
          else
            (currentRows <-
               conn_query (select_settings (u "setting_key") setting_key) ;;
             match currentRows with
             | [] =>
                 bulk_loop change_reason rest results
                   (errors ++ [bulk_error setting_key (u "Setting not found")])
             | currentSetting :: _ =>
                 let settingId := get (u "id") currentSetting in
                 let oldValue := get (u "setting_value") currentSetting in
                 newValue <-
                   lift (u "TypeError")
                     (prepareValueForStorage E currentSetting
                        (VStr (valueToStore currentSetting setting_value))) ;;
                 conn_query (update_setting_value newValue settingId) ;;;
                 conn_query
                   (insert_history settingId oldValue newValue (VInt 1)
                      (js_or change_reason
                         (VStr (u "Bulk update via API")))) ;;;
                 bulk_loop change_reason rest
                   (results ++ [bulk_result setting_key settingId]) errors
             end)%req
      | _, _ => throw (u "TypeError")
      end
  end.

(** [router.put("/bulk/update")]. *)
Definition put_bulk_update (req : Request) : M Response :=
  try_catch
    (let change_reason := get (u "change_reason") (req_body req) in
     match get (u "settings") (req_body req) with
     | VArr ((_ :: _) as settings) =>
         (getConnection ;;;
          beginTransaction ;;;
          try_catch
            (r <- bulk_loop change_reason settings [] [] ;;
             let '(results, errors) := r in
             match errors with
             | _ :: _ =>
                 rollback ;;;
                 release ;;;
                 ret (mkResponse 400
                        (obj_lit
                           [(u "success", VBool false);
                            (u "message",
                             VStr (u "Some settings failed to update"));
                            (u "results", VArr results);
                            (u "errors", VArr errors)]))
             | [] =>
                 commit ;;;
                 release ;;;
                 ret (mkResponse 200
                        (obj_lit
                           [(u "success", VBool true);
                            (u "message",
                             VStr (u "Settings updated successfully"));
                            (u "data", VArr results);
                            (u "count",
                             VInt (Z.of_nat (length results)))]))
             end)
            (fun error => rollback ;;; release ;;; throw error))%req
     | _ => ret (failure 400 (u "Settings array is required"))
     end)
    (fun err => ret (failure_500 (u "Failed to update settings") err)).

(** ** Creating a setting *)

(** [INSERT INTO system_settings (...) VALUES (...)]: the new row carries
    the id the database assigns and the thirteen columns of the
    statement; the result is [result.insertId]. *)
Definition insert_setting (columns : list (jsstring * JsVal)) (db : DB)
  : JsVal * DB :=
  let id := insert_id E (system_settings db) in
  (id,
   mkDB (system_settings db ++ [obj_lit ((u "id", id) :: columns)])
     (settings_history db) (api_keys db) (webhooks db)).

(** [router.post("/")]. *)
Definition post_setting (req : Request) : M Response :=
  try_catch
    (let b := req_body req in
     let setting_key := get (u "setting_key") b in
     let setting_category := get (u "setting_category") b in
     let setting_name := get (u "setting_name") b in
     let options := get (u "options") b in
     let extra_config := get (u "extra_config") b in
     let is_active := get (u "is_active") b in
     if negb (truthy setting_key) || negb (truthy setting_category)
        || negb (truthy setting_name)
     then
       ret (failure 400
              (u "setting_key, setting_category, and setting_name are required"))
     else
       (getConnection ;;;
        existingRows <-
          conn_query (select_settings (u "setting_key") setting_key) ;;
        match existingRows with
        | _ :: _ =>
            release ;;;
            ret (failure 409 (u "Setting key already exists"))
        | [] =>
            let optionsJson :=
              if truthy options then JSON_stringify options else VNull in
            let extraConfigJson :=
              if truthy extra_config then JSON_stringify extra_config
              else VNull in
            insertId <-
              conn_query (insert_setting
                [(u "setting_key", setting_key);
                 (u "setting_category", setting_category);
                 (u "setting_name", setting_name);
                 (u "setting_value",
                  js_or (get (u "setting_value") b) (VStr []));
                 (u "data_type",
                  js_or (get (u "data_type") b) (VStr (u "string")));
                 (u "input_type",
                  js_or (get (u "input_type") b) (VStr (u "text")));
                 (u "options", optionsJson);
                 (u "is_encrypted",
                  js_or (get (u "is_encrypted") b) (VBool false));
                 (u "is_required",
                  js_or (get (u "is_required") b) (VBool false));
                 (u "is_active",
                  if is_undefined is_active then VBool true else is_active);
                 (u "sort_order",
                  js_or (get (u "sort_order") b) (VInt 0));
                 (u "description",
                  js_or (get (u "description") b) VNull);
                 (u "extra_config", extraConfigJson)]) ;;
            release ;;;
            ret (success_data 201 (Some (u "Setting created successfully"))
                   (VObj (obj_lit
                      [(u "id", insertId);
                       (u "setting_key", setting_key);
                       (u "setting_category", setting_category);
                       (u "setting_name", setting_name)])))
        end)%req)
    (fun err => ret (failure_500 (u "Failed to create setting") err)).

(** ** API keys *)

(** A destructuring default: [x = d] takes [d] when [x] is [undefined]. *)
Definition default_to (d v : JsVal) : JsVal :=
  match v with VUndefined => d | _ => v end.

Definition insert_api_key (columns : list (jsstring * JsVal)) (db : DB)
  : JsVal * DB :=
  let id := insert_id E (api_keys db) in
  (id,
   mkDB (system_settings db) (settings_history db)
     (api_keys db ++ [obj_lit ((u "id", id) :: columns)]) (webhooks db)).

(** [router.post("/api-key/generate")]. *)
Definition post_api_key_generate (req : Request) : M Response :=
  try_catch
    (let b := req_body req in
     let key_name := get (u "key_name") b in
     let permissions :=
       js_or (get (u "permissions") b) (VArr [VStr (u "read_access")]) in
     let prefix := default_to (VStr (u "pk")) (get (u "prefix") b) in
     let expires_in_days :=
       default_to (VInt 365) (get (u "expires_in_days") b) in
     let description := get (u "description") b in
     if negb (truthy key_name) then
       ret (failure 400 (u "Key name is required"))
     else
       (apiKey <- lift (u "Invalid string length")
                    (generateRandomString E prefix) ;;
        let expiresAt :=
          if truthy expires_in_days then date_after_days E expires_in_days
          else VNull in
        getConnection ;;;
        insertId <-
          conn_query (insert_api_key
            [(u "key_name", key_name);
             (u "api_key", VStr apiKey);
             (u "key_prefix", prefix);
             (u "permissions", JSON_stringify permissions);
             (u "expires_at", expiresAt);
             (u "description", js_or description VNull);
             (u "created_at", sql_now E)]) ;;
        release ;;;
        ret (mkResponse 201
               (obj_lit
                  [(u "success", VBool true);
                   (u "message", VStr (u "API key generated successfully"));
                   (u "data",
                    VObj (obj_lit
                      [(u "id", insertId);
                       (u "key_name", key_name);
                       (u "api_key", VStr apiKey);
                       (u "masked_key", VStr (maskApiKey (VStr apiKey)));
                       (u "key_prefix", prefix);
                       (u "permissions", permissions);
                       (u "expires_at", expiresAt);
                       (u "created_at", now_iso E)]));
                   (u "warning",
                    VStr (u "Save this API key now. It will not be shown again!"))])))%req)
    (fun err => ret (failure_500 (u "Failed to generate API key") err)).

Fixpoint map_m {A B : Type} (f : A -> M B) (l : list A) : M (list B) :=
  match l with
  | [] => ret []
  | a :: r => (b <- f a ;; bs <- map_m f r ;; ret (b :: bs))%req
  end.

(** The body of [rows.map(key => ({ ...key, display_key: ..., ... }))]. *)
Definition mask_key_row (key : obj) : M obj :=
  let api_key := get (u "api_key") key in
  (last_chars <-
     (if truthy api_key then
        match api_key with
        | VStr s => ret (VStr (substring_from (length s - 6) s))
        | _ => throw (u "key.api_key.substring is not a function")
        end
      else ret (VStr (u "..."))) ;;
   permissions <-
     (if truthy (get (u "permissions") key)
      then lift (u "SyntaxError") (JSON_parse (get (u "permissions") key))
      else ret (VArr [])) ;;
   ret (spread_with key
          [(u "display_key", VStr (maskApiKey api_key));
           (u "masked_key", VStr (maskApiKey api_key));
           (u "last_chars", last_chars);
           (u "permissions", permissions)]))%req.

(** [router.get("/api-key/list")]. *)
Definition get_api_key_list (req : Request) : M Response :=
  try_catch
    (getConnection ;;;
     rows <- conn_query (fun db =>
       (sql_order E (u "created_at DESC")
          (filter is_active_row (api_keys db)), db)) ;;
     release ;;;
     maskedKeys <- map_m mask_key_row rows ;;
     ret (mkResponse 200
            (obj_lit [(u "success", VBool true);
                      (u "data", VArr (map VObj maskedKeys));
                      (u "count", VInt (Z.of_nat (length maskedKeys)))])))%req
    (fun err => ret (failure_500 (u "Failed to fetch API keys") err)).

(** ** Webhooks *)

(** [{ ...webhook, events: ..., masked_secret: ..., display_secret: ... }]. *)
Definition mask_webhook_row (webhook : obj) : M obj :=
  (events <-
     (if truthy (get (u "events") webhook)
      then lift (u "SyntaxError") (JSON_parse (get (u "events") webhook))
      else ret (VArr [])) ;;
   masked <- lift (u "secret.substring is not a function")
               (maskSecret (get (u "secret") webhook)) ;;
   ret (spread_with webhook
          [(u "events", events);
           (u "masked_secret", VStr masked);
           (u "display_secret", VStr masked)]))%req.

(** [router.get("/webhook/list")]. *)
Definition get_webhook_list (req : Request) : M Response :=
  try_catch
    (getConnection ;;;
     rows <- conn_query (fun db =>
       (sql_order E (u "created_at DESC")
          (filter is_active_row (webhooks db)), db)) ;;
     release ;;;
     hooks <- map_m mask_webhook_row rows ;;
     ret (mkResponse 200
            (obj_lit [(u "success", VBool true);
                      (u "data", VArr (map VObj hooks));
                      (u "count", VInt (Z.of_nat (length hooks)))])))%req
    (fun err => ret (failure_500 (u "Failed to fetch webhooks") err)).

(** [router.get("/webhook/:id")]. *)
Definition get_webhook_by_id (req : Request) : M Response :=
  try_catch
    (let webhookId := get (u "id") (params req) in
     let show_secret := get (u "show_secret") (query req) in
     getConnection ;;;
     rows <- conn_query (fun db =>
       (filter (fun row => col_eq (u "id") webhookId row && is_active_row row)
          (webhooks db), db)) ;;
     release ;;;
     match rows with
     | [] => ret (failure 404 (u "Webhook not found"))
     | webhook :: _ =>
         responseData <- mask_webhook_row webhook ;;
         let responseData :=
           if is_str (u "true") show_secret then
             obj_set (u "display_secret") (get (u "secret") webhook)
               (obj_set (u "secret") (get (u "secret") webhook) responseData)
           else responseData in
         ret (success_data 200 None (VObj responseData))
     end)%req
    (fun err => ret (failure_500 (u "Failed to fetch webhook") err)).

Definition insert_webhook (columns : list (jsstring * JsVal)) (db : DB)
  : JsVal * DB :=
  let id := insert_id E (webhooks db) in
  (id,
   mkDB (system_settings db) (settings_history db) (api_keys db)
     (webhooks db ++ [obj_lit ((u "id", id) :: columns)])).

(** [router.post("/webhook/")]. *)
Definition post_webhook (req : Request) : M Response :=
  try_catch
    (let b := req_body req in
     let url := get (u "url") b in
     let events := get (u "events") b in
     let providedSecret := get (u "secret") b in
     let description := get (u "description") b in
     if negb (truthy url) then
       ret (failure 400 (u "Webhook URL is required"))
     else
       match events with
       | VArr (_ :: _) =>
           let secret :=
             js_or providedSecret (VStr (generateWebhookSecret E)) in
           (getConnection ;;;
            insertId <-
              conn_query (insert_webhook
                [(u "url", url);
                 (u "events", JSON_stringify events);
                 (u "secret", secret);
                 (u "description", js_or description VNull);
                 (u "is_active", VBool true);
                 (u "created_at", sql_now E)]) ;;
            release ;;;
            masked <- lift (u "secret.substring is not a function")
                        (maskSecret secret) ;;
            ret (mkResponse 201
                   (obj_lit
                      [(u "success", VBool true);
                       (u "message", VStr (u "Webhook created successfully"));
                       (u "data",
                        VObj (obj_lit
                          [(u "id", insertId);
                           (u "url", url);
                           (u "events", events);
                           (u "secret", secret);
                           (u "masked_secret", VStr masked);
                           (u "description", js_or description VNull);
                           (u "is_active", VBool true);
                           (u "created_at", now_iso E)]));
                       (u "warning",
                        VStr (u "Save the webhook secret now. It will not be shown again!"))])))%req
       | _ => ret (failure 400 (u "At least one event must be selected"))
       end)
    (fun err => ret (failure_500 (u "Failed to create webhook") err)).

(** ** Deactivating a setting *)

(** [SELECT id FROM system_settings WHERE id = ?]. *)
Definition select_setting_ids (settingId : JsVal) (db : DB)
  : list obj * DB :=
  (map (fun row => [(u "id", get (u "id") row)])
     (filter (col_eq (u "id") settingId) (system_settings db)), db).

(** [UPDATE system_settings SET is_active = false, updated_at = NOW()
     WHERE id = ?]. *)
Definition deactivate_setting (settingId : JsVal) (db : DB) : unit * DB :=
  (tt,
   mkDB
     (map (fun row =>
             if col_eq (u "id") settingId row
             then obj_set (u "updated_at") (sql_now E)
                    (obj_set (u "is_active") (VBool false) row)
             else row)
          (system_settings db))
     (settings_history db) (api_keys db) (webhooks db)).

(** [router.delete("/:id")]. *)
Definition delete_setting (req : Request) : M Response :=
  try_catch
    (let settingId := get (u "id") (params req) in
     getConnection ;;;
     checkRows <- conn_query (select_setting_ids settingId) ;;
     match checkRows with
     | [] =>
         release ;;;
         ret (failure 404 (u "Setting not found"))
     | _ :: _ =>
         conn_query (deactivate_setting settingId) ;;;
         release ;;;
         ret (mkResponse 200
                (obj_lit
                   [(u "success", VBool true);
                    (u "message",
                     VStr (u "Setting deactivated successfully"))]))
     end)%req
    (fun err => ret (failure_500 (u "Failed to delete setting") err)).

(** ** Testing a service *)

(** [router.post("/test/:service")]: [config] is read from the body and
    not used. *)
Definition post_test_service (req : Request) : M Response :=
  try_catch
    (let service := get (u "service") (params req) in
     let config := get (u "config") (req_body req) in
     let tested (message : jsstring) : M Response :=
       ret (mkResponse 200
              (obj_lit [(u "success", VBool true);
                        (u "message", VStr message)])) in
     if is_str (u "email") service then
       tested (u "Email service test successful")
     else if is_str (u "sms") service then
       tested (u "SMS service test successful")
     else if is_str (u "maps") service then
       tested (u "Maps service test successful")
     else if is_str (u "payments") service then
       tested (u "Payment service test successful")
     else ret (failure 400 (u "Unsupported service type")))
    (fun err => ret (failure_500 (u "Service test failed") err)).

(** ** Updating and revoking an API key *)

(** [SELECT id FROM api_keys WHERE id = ?]. *)
Definition select_api_key_ids (keyId : JsVal) (db : DB) : list obj * DB :=
  (map (fun row => [(u "id", get (u "id") row)])
     (filter (col_eq (u "id") keyId) (api_keys db)), db).

(** [if (x !== undefined) { updates.push("column = ?");
     params.push(param); }]. *)
Definition push_if_defined (column : jsstring) (x param : JsVal)
  (updates : list (jsstring * JsVal)) : list (jsstring * JsVal) :=
  if is_undefined x then updates else updates ++ [(column, param)].

(** [UPDATE api_keys SET c1 = ?, ..., updated_at = NOW() WHERE id = ?]. *)
Definition update_api_key (updates : list (jsstring * JsVal))
  (keyId : JsVal) (db : DB) : unit * DB :=
  (tt,
   mkDB (system_settings db) (settings_history db)
     (map (fun row =>
             if col_eq (u "id") keyId row
             then spread_with row (updates ++ [(u "updated_at", sql_now E)])
             else row)
          (api_keys db))
     (webhooks db)).

(** The assignments of the [UPDATE], in the order the handler pushes
    them: [key_name], [permissions], [is_active], [description]. *)
Definition api_key_updates (b : obj) : list (jsstring * JsVal) :=
  let key_name := get (u "key_name") b in
  let permissions := get (u "permissions") b in
  let is_active := get (u "is_active") b in
  let description := get (u "description") b in
  push_if_defined (u "description") description description
    (push_if_defined (u "is_active") is_active is_active
       (push_if_defined (u "permissions") permissions
          (JSON_stringify permissions)
          (push_if_defined (u "key_name") key_name key_name []))).

(** [router.put("api-key/:id")]. *)
Definition put_api_key (req : Request) : M Response :=
  try_catch
    (let keyId := get (u "id") (params req) in
     getConnection ;;;
     checkRows <- conn_query (select_api_key_ids keyId) ;;
     match checkRows with
     | [] =>
         release ;;;
         ret (failure 404 (u "API key not found"))
     | _ :: _ =>
         let updates := api_key_updates (req_body req) in
         match updates with
         | [] =>
             release ;;;
             ret (failure 400 (u "No fields to update"))
         | _ :: _ =>
             conn_query (update_api_key updates keyId) ;;;
             release ;;;
             ret (mkResponse 200
                    (obj_lit
                       [(u "success", VBool true);
                        (u "message",
                         VStr (u "API key updated successfully"))]))
         end
     end)%req
    (fun err => ret (failure_500 (u "Failed to update API key") err)).

(** [UPDATE api_keys SET is_active = false, revoked_at = NOW(),
     revoke_reason = ?, updated_at = NOW() WHERE id = ?]. *)
Definition revoke_api_key (reason keyId : JsVal) (db : DB) : unit * DB :=
  (tt,
   mkDB (system_settings db) (settings_history db)
     (map (fun row =>
             if col_eq (u "id") keyId row
             then spread_with row
                    [(u "is_active", VBool false);
                     (u "revoked_at", sql_now E);
                     (u "revoke_reason", reason);
                     (u "updated_at", sql_now E)]
             else row)
          (api_keys db))
     (webhooks db)).

(** [router.delete("api-key/:id")]. *)
Definition delete_api_key (req : Request) : M Response :=
  try_catch
    (let keyId := get (u "id") (params req) in
     let reason := get (u "reason") (req_body req) in
     getConnection ;;;
     checkRows <- conn_query (select_api_key_ids keyId) ;;
     match checkRows with
     | [] =>
         release ;;;
         ret (failure 404 (u "API key not found"))
     | _ :: _ =>
         conn_query (revoke_api_key
                       (js_or reason (VStr (u "Revoked by admin"))) keyId) ;;;
         release ;;;
         ret (mkResponse 200
                (obj_lit
                   [(u "success", VBool true);
                    (u "message",
                     VStr (u "API key revoked successfully"))]))
     end)%req
    (fun err => ret (failure_500 (u "Failed to revoke API key") err)).

(** A request starts on the committed database with no connection held
    and no call made. *)
Definition fresh (db : DB) : World := mkWorld db None 0 0.

(** Running a handler on a database: the response and the final state. *)
Definition run (h : Request -> M Response) (req : Request) (db : DB)
  : Outcome Response * World :=
  h req (fresh db).

End Handlers.

(** ** Reasoning about a request *)

(** [post m w Q]: running [m] from [w] ends in an outcome and a state
    that satisfy [Q]. *)
Definition post {A : Type} (m : M A) (w : World)
  (Q : Outcome A -> World -> Prop) : Prop :=
  Q (fst (m w)) (snd (m w)).

(** The state after a database call that rejected. *)
Definition tick (w : World) : World :=
  mkWorld (committed w) (pending w) (held w) (S (calls w)).

End Settings.

(* ===================================================================== *)
(** * Worked instances *)
(* ===================================================================== *)

Module Examples.
Import Js Encryption Settings.

Definition num_eqb (a b : JsNum) : bool :=
  match a, b with
  | Fin s m e, Fin s' m' e' =>
      N.eqb m m' && Z.eqb e e' && (Bool.eqb s s' || N.eqb m 0)
  | Inf s, Inf s' => Bool.eqb s s'
  | _, _ => false
  end.

(** A plain comparison for the worked instances: [NULL] equals nothing,
    two strings compare unit by unit, any other pair compares as
    numbers. *)
Definition plain_eq (cell param : JsVal) : bool :=
  match cell, param with
  | VNull, _ | VUndefined, _ | _, VNull | _, VUndefined => false
  | VStr a, VStr b => str_eqb a b
  | _, _ => num_eqb (js_Number cell) (js_Number param)
  end.

(** A toy authenticated cipher: the ciphertext is the plaintext, the
    tag sixteen bytes that [toy_open] insists on. *)
Definition toy_seal (key iv pt : bytes) : bytes * bytes :=
  (pt, repeat 7 16).

Definition toy_open (key iv tag ct : bytes) : option bytes :=
  if str_eqb tag (repeat 7 16) then Some ct else None.

(** An environment with the given failures and random draws. *)
Definition env_of (failing : nat -> option jsstring) (draws : nat -> nat)
  : Env :=
  mkEnv plain_eq (fun _ rows => rows) (VStr (u "2024-05-01 10:00:00"))
    (fun rows => VInt (Z.of_nat (S (length rows))))
    failing (fun _ => None) draws (fun n => repeat 0 n)
    toy_seal toy_open None
    (fun _ => VStr (u "2025-05-01T10:00:00.000Z"))
    (VStr (u "2024-05-01T10:00:00.000Z")).

(** No database call rejects. *)
Definition calm : Env := env_of (fun _ => None) (fun i => i).

(** The n-th database call of the request rejects. *)
Definition failing_at (n : nat) : Env :=
  env_of (fun i => if Nat.eqb i n then Some (u "ER_LOCK_WAIT_TIMEOUT")
                   else None)
    (fun i => i).

Definition site_name : obj :=
  [(u "id", VInt 1); (u "setting_key", VStr (u "site_name"));
   (u "setting_category", VStr (u "general"));
   (u "setting_name", VStr (u "Site name"));
   (u "setting_value", VStr (u "Acme"));
   (u "data_type", VStr (u "string"));
   (u "is_encrypted", VInt 0); (u "is_required", VInt 1);
   (u "is_active", VInt 1)].

Definition enable_sms : obj :=
  [(u "id", VInt 2); (u "setting_key", VStr (u "enable_sms"));
   (u "setting_category", VStr (u "sms"));
   (u "setting_name", VStr (u "Enable SMS"));
   (u "setting_value", VStr (u "true"));
   (u "data_type", VStr (u "boolean"));
   (u "is_encrypted", VInt 0); (u "is_required", VInt 0);
   (u "is_active", VInt 1)].

Definition live_key : obj :=
  [(u "id", VInt 1); (u "key_name", VStr (u "ci"));
   (u "api_key", VStr (u "pk_9f8e7d6c5b4a39281706abcd"));
   (u "key_prefix", VStr (u "pk"));
   (u "permissions", VStr (u "[]"));
   (u "is_active", VInt 1)].

Definition orders_hook : obj :=
  [(u "id", VInt 1); (u "url", VStr (u "https://example.org/hook"));
   (u "events", VStr (u "[]"));
   (u "secret", VStr (u "whsec_0123456789abcdefghijklmnopqrstuv"));
   (u "is_active", VInt 1)].

Definition shop : DB := mkDB [site_name; enable_sms] [] [live_key] [orders_hook].

Definition request (ps qs bs : obj) : Request := mkRequest ps qs bs VUndefined.

Definition number_setting : obj := [(u "data_type", VStr (u "number"))].

(** [POST /settings/api-key/generate] with body [{ key_name: "ci" }]. *)
Definition generate_ci : Request :=
  request [] [] [(u "key_name", VStr (u "ci"))].

(** [GET /settings/1] and [GET /settings/site_name]. *)
Definition get_1 : Request := request [(u "id", VStr (u "1"))] [] [].
Definition get_site_name : Request :=
  request [(u "id", VStr (u "site_name"))] [] [].

(** [PUT /settings/bulk/update] with one item that goes through and one
    whose setting does not exist. *)
Definition sms_off : JsVal :=
  VObj [(u "setting_key", VStr (u "enable_sms"));
        (u "setting_value", VStr (u "false"))].

Definition unknown_item : JsVal :=
  VObj [(u "setting_key", VStr (u "no_such_key"));
        (u "setting_value", VInt 1)].

Definition bulk_mixed : Request :=
  request [] [] [(u "settings", VArr [sms_off; unknown_item])].

(** [POST /settings] with the key of an existing setting. *)
Definition post_site_name : Request :=
  request [] []
    [(u "setting_key", VStr (u "site_name"));
     (u "setting_category", VStr (u "general"));
     (u "setting_name", VStr (u "Site name"))].

(** [PUT /settings/2] with body [{ setting_value: "false" }]. *)
Definition put_2_false : Request :=
  request [(u "id", VStr (u "2"))] [] [(u "setting_value", VStr (u "false"))].

(** An environment whose random draws all pick the first character. *)
Definition zero_draws : Env := env_of (fun _ => None) (fun _ => 0%nat).

(** An encrypted setting, holding the Base64 text of [hunter2], and the
    database that holds it. *)
Definition smtp_password : obj :=
  [(u "id", VInt 7); (u "setting_key", VStr (u "smtp_password"));
   (u "setting_category", VStr (u "email"));
   (u "setting_name", VStr (u "SMTP password"));
   (u "setting_value", VStr (u "aHVudGVyMg=="));
   (u "data_type", VStr (u "string"));
   (u "is_encrypted", VInt 1); (u "is_required", VInt 0);
   (u "is_active", VInt 1)].

Definition vault : DB := mkDB [smtp_password] [] [] [].

End Examples.

(* ===================================================================== *)
(** * The properties, in the words of the specification *)
(* ===================================================================== *)

Module Spec.
Import Js Encryption Settings.

(** ** The validator's decision procedure (section 4.3) *)

Definition absent_or_empty (v : JsVal) : bool :=
  is_undefined v || is_null v || is_str [] v.

(** "the value parses as a finite number" *)
Definition parses_as_finite_number (v : JsVal) : bool :=
  num_isFinite (js_Number v).

(** "boolean true/false or one of the literal tokens" *)
Definition boolean_or_token (v : JsVal) : bool :=
  match v with
  | VBool _ => true
  | VStr s => existsb (str_eqb s) [u "true"; u "false"; u "0"; u "1"]
  | _ => false
  end.

(** "the value parses as well-formed JSON text" *)
Definition parses_as_json (v : JsVal) : bool :=
  match JSON_parse v with Some _ => true | None => false end.

Definition validate (setting : obj) (v : JsVal) : bool :=
  if truthy (get (u "is_required") setting) && absent_or_empty v then false
  else
    let data_type := get (u "data_type") setting in
    if is_str (u "string") data_type then true
    else if is_str (u "number") data_type then parses_as_finite_number v
    else if is_str (u "boolean") data_type then boolean_or_token v
    else if is_str (u "json") data_type then parses_as_json v
    else true.

(** ** A value update together with its history row *)

Section WithEnv.

Variable E : Env.

Definition both_persist (db : DB)
  (settingId oldValue newValue changed_by reason : JsVal) : DB :=
  snd (insert_history settingId oldValue newValue changed_by reason
         (snd (update_setting_value E newValue settingId db))).

(** Where an update handler leaves the committed database, given the
    row selected by [column = param]: both writes when the value is
    given, the row exists, the value can be prepared and none of the six
    database calls rejects; the database as it was otherwise. *)
Definition update_outcome (req : Request) (db : DB) (column : jsstring)
  (param : JsVal) (idOf : obj -> JsVal) (w : World) : Prop :=
  let value := get (u "setting_value") (req_body req) in
  let reason := js_or (get (u "change_reason") (req_body req))
                  (VStr (u "Updated via API")) in
  match is_undefined value, fails E 0, fails E 1, fails E 2,
        fst (select_settings E column param db) with
  | false, None, None, None, cur :: _ =>
      match prepareValueForStorage E cur value,
            fails E 3, fails E 4, fails E 5 with
      | Some newValue, None, None, None =>
          committed w
          = both_persist db (idOf cur) (get (u "setting_value") cur)
              newValue (user_id req) reason
      | _, _, _, _ => committed w = db
      end
  | _, _, _, _, _ => committed w = db
  end.

(** ** Bulk update, item by item *)

Definition found (setting_key : JsVal) (db : DB) : list obj :=
  fst (select_settings E (u "setting_key") setting_key db).

Definition item_key (item : JsVal) : JsVal :=
  match get_prop (u "setting_key") item with
  | Some k => k
  | None => VUndefined
  end.

Definition item_value (item : JsVal) : JsVal :=
  match get_prop (u "setting_value") item with
  | Some v => v
  | None => VUndefined
  end.

(** "missing key or value, or setting not found" *)
Definition missing_key_or_value (item : JsVal) : bool :=
  negb (truthy (item_key item)) || is_undefined (item_value item).

Definition item_fails (db : DB) (item : JsVal) : bool :=
  missing_key_or_value item
  || match found (item_key item) db with [] => true | _ :: _ => false end.

(** The entry of [errors] for a failing item. *)
Definition item_error (item : JsVal) : JsVal :=
  if missing_key_or_value item then
    bulk_error (js_or (item_key item) (VStr (u "unknown")))
      (u "Missing key or value")
  else bulk_error (item_key item) (u "Setting not found").

(** The entry of [results] for an item that goes through. *)
Definition item_result (db : DB) (item : JsVal) : JsVal :=
  bulk_result (item_key item)
    (get (u "id") (hd [] (found (item_key item) db))).

(** The value the bulk update stores for an item. *)
Definition item_stored (currentSetting : obj) (item : JsVal) : JsVal :=
  match prepareValueForStorage E currentSetting
          (VStr (valueToStore currentSetting (item_value item))) with
  | Some v => v
  | None => VUndefined
  end.

(** The update and the history row of one item that goes through. *)
Definition apply_item (reason : JsVal) (db : DB) (item : JsVal) : DB :=
  if item_fails db item then db
  else
    let cur := hd [] (found (item_key item) db) in
    both_persist db (get (u "id") cur) (get (u "setting_value") cur)
      (item_stored cur item) (VInt 1)
      (js_or reason (VStr (u "Bulk update via API"))).

Definition apply_bulk (reason : JsVal) (items : list JsVal) (db : DB) : DB :=
  fold_left (apply_item reason) items db.

End WithEnv.

(** The two answers of the bulk update. *)
Definition bulk_400 (results errors : list JsVal) : Response :=
  mkResponse 400
    (obj_lit [(u "success", VBool false);
              (u "message", VStr (u "Some settings failed to update"));
              (u "results", VArr results);
              (u "errors", VArr errors)]).

Definition bulk_200 (results : list JsVal) : Response :=
  mkResponse 200
    (obj_lit [(u "success", VBool true);
              (u "message", VStr (u "Settings updated successfully"));
              (u "data", VArr results);
              (u "count", VInt (Z.of_nat (length results)))]).

(** Two states of the settings table whose rows differ at most in their
    value and timestamp. *)
Definition same_row (r r' : obj) : Prop :=
  forall c, c <> u "setting_value" -> c <> u "updated_at" ->
            get c r' = get c r.

Definition same_identity (db db' : DB) : Prop :=
  Forall2 same_row (system_settings db) (system_settings db').

(** An array element other than [null]. *)
Definition not_null (item : JsVal) : bool :=
  match item with
  | VNull | VUndefined => false
  | _ => true
  end.

(** "of the form p, an underscore, and 24 alphanumeric characters" *)
Definition has_key_form (prefix key : jsstring) : Prop :=
  exists r, key = prefix ++ u "_" ++ r /\ length r = 24%nat
            /\ forallb (fun c => includes c alphanumeric) r = true.

(** ** Values that JSON carries unchanged *)

(** A string of UTF-16 code units. *)
Definition valid_units (s : jsstring) : bool :=
  forallb (fun c => (0 <=? c) && (c <? 65536)) s.

(** No property name occurs twice. *)
Fixpoint distinct_keys (o : obj) : bool :=
  match o with
  | [] => true
  | (k, _) :: r =>
      negb (existsb (fun kv => str_eqb (fst kv) k) r) && distinct_keys r
  end.

(** [null], booleans, strings, and arrays and objects of such values. *)
Fixpoint json_plain (v : JsVal) : bool :=
  match v with
  | VNull | VBool _ => true
  | VStr s => valid_units s
  | VArr items =>
      (fix all (l : list JsVal) : bool :=
         match l with
         | [] => true
         | x :: r => json_plain x && all r
         end) items
  | VObj props =>
      distinct_keys props
      && (fix all (l : list (jsstring * JsVal)) : bool :=
            match l with
            | [] => true
            | (k, x) :: r => valid_units k && json_plain x && all r
            end) props
  | VUndefined | VNum _ => false
  end.

(** A value whose text reads back as the value, whatever follows it. *)
Definition reads_back (v : JsVal) : Prop :=
  exists F, forall f rest,
    (F <= f)%nat -> parse_value f (stringify v ++ rest) = Some (v, rest).

(** The property names every object inherits from [Object.prototype]. *)
Definition object_prototype_names : list jsstring :=
  [u "constructor"; u "__proto__"; u "hasOwnProperty"; u "isPrototypeOf";
   u "propertyIsEnumerable"; u "toLocaleString"; u "toString"; u "valueOf";
   u "__defineGetter__"; u "__defineSetter__"; u "__lookupGetter__";
   u "__lookupSetter__"].

(** ** Groups, rows and faults *)

(** The settings of one category, in the order they were fetched. *)
Definition group_of (k : jsstring) (settings : list obj) : option JsVal :=
  match filter (fun s => str_eqb (js_String (get (u "setting_category") s)) k)
          settings with
  | [] => None
  | l => Some (VArr (map VObj l))
  end.

(** The row [POST /] writes for a body, without its id. *)
Definition new_setting_columns (b : obj) : list (jsstring * JsVal) :=
  [(u "setting_key", get (u "setting_key") b);
   (u "setting_category", get (u "setting_category") b);
   (u "setting_name", get (u "setting_name") b);
   (u "setting_value", js_or (get (u "setting_value") b) (VStr []));
   (u "data_type", js_or (get (u "data_type") b) (VStr (u "string")));
   (u "input_type", js_or (get (u "input_type") b) (VStr (u "text")));
   (u "options",
    if truthy (get (u "options") b) then JSON_stringify (get (u "options") b)
    else VNull);
   (u "is_encrypted", js_or (get (u "is_encrypted") b) (VBool false));
   (u "is_required", js_or (get (u "is_required") b) (VBool false));
   (u "is_active",
    if is_undefined (get (u "is_active") b) then VBool true
    else get (u "is_active") b);
   (u "sort_order", js_or (get (u "sort_order") b) (VInt 0));
   (u "description", js_or (get (u "description") b) VNull);
   (u "extra_config",
    if truthy (get (u "extra_config") b)
    then JSON_stringify (get (u "extra_config") b) else VNull)].

(** At most one database call of the request rejects. *)
Definition single_fault (E : Env) : Prop :=
  forall i j, fails E i <> None -> fails E j <> None -> i = j.

Section Rows.

Variable E : Env.

(** The row an update of the value leaves. *)
Definition with_value (newValue : JsVal) (row : obj) : obj :=
  obj_set (u "updated_at") (sql_now E)
    (obj_set (u "setting_value") newValue row).

(** The row a deactivation leaves. *)
Definition deactivated (row : obj) : obj :=
  obj_set (u "updated_at") (sql_now E)
    (obj_set (u "is_active") (VBool false) row).

(** The database without the settings, and without the API keys, whose
    id matches. *)
Definition without_setting (settingId : JsVal) (db : DB) : DB :=
  mkDB (filter (fun row => negb (col_eq E (u "id") settingId row))
          (system_settings db))
    (settings_history db) (api_keys db) (webhooks db).

Definition without_api_key (keyId : JsVal) (db : DB) : DB :=
  mkDB (system_settings db) (settings_history db)
    (filter (fun row => negb (col_eq E (u "id") keyId row)) (api_keys db))
    (webhooks db).

(** The row [POST /webhook/] writes for a body, without its id. *)
Definition new_webhook_columns (b : obj) : list (jsstring * JsVal) :=
  [(u "url", get (u "url") b);
   (u "events", JSON_stringify (get (u "events") b));
   (u "secret",
    js_or (get (u "secret") b) (VStr (generateWebhookSecret E)));
   (u "description", js_or (get (u "description") b) VNull);
   (u "is_active", VBool true);
   (u "created_at", sql_now E)].

End Rows.

End Spec.

(* ===================================================================== *)
(** * Facts about strings and objects *)
(* ===================================================================== *)

Module JsFacts.
Import Js.

Lemma str_eqb_refl (s : jsstring) : str_eqb s s = true.
Proof.
  induction s as [|c s IH]; simpl; [reflexivity|].
  now rewrite Z.eqb_refl, IH.
Qed.

Lemma str_eqb_eq (a b : jsstring) : str_eqb a b = true <-> a = b.
Proof.
  split.
  - revert b; induction a as [|x a IH]; intros [|y b] H; simpl in H;
      try discriminate; [reflexivity|].
    apply andb_prop in H as [Hxy Hab].
    apply Z.eqb_eq in Hxy. apply IH in Hab. now subst.
  - intros ->. apply str_eqb_refl.
Qed.

Lemma str_eqb_neq (a b : jsstring) : str_eqb a b = false <-> a <> b.
Proof.
  split.
  - intros H Heq. apply str_eqb_eq in Heq. congruence.
  - intros H. destruct (str_eqb a b) eqn:Hab; [|reflexivity].
    apply str_eqb_eq in Hab. contradiction.
Qed.

Lemma str_eqb_sym (a b : jsstring) : str_eqb a b = str_eqb b a.
Proof.
  destruct (str_eqb a b) eqn:Hab; symmetry.
  - apply str_eqb_eq in Hab. subst. apply str_eqb_refl.
  - apply str_eqb_neq in Hab. apply str_eqb_neq. congruence.
Qed.

Lemma is_str_true (lit : jsstring) (v : JsVal) :
  is_str lit v = true <-> v = VStr lit.
Proof.
  destruct v; simpl; split; intros H; try discriminate.
  - apply str_eqb_eq in H. now subst.
  - injection H as ->. apply str_eqb_refl.
Qed.

Lemma is_str_false (lit : jsstring) (v : JsVal) :
  is_str lit v = false <-> v <> VStr lit.
Proof.
  split.
  - intros H Heq. apply is_str_true in Heq. congruence.
  - intros H. destruct (is_str lit v) eqn:Hv; [|reflexivity].
    apply is_str_true in Hv. contradiction.
Qed.

(** Comparisons of string literals are settled by computation. *)
Ltac eval_literals :=
  repeat match goal with
         | |- context [str_eqb (u ?a) (u ?b)] =>
             let r := eval vm_compute in (str_eqb (u a) (u b)) in
             change (str_eqb (u a) (u b)) with r
         end.

Lemma existsb_str_eqb (s : jsstring) (l : list jsstring) :
  existsb (str_eqb s) l = true <-> In s l.
Proof.
  rewrite existsb_exists. split.
  - intros [x [Hin Hx]]. apply str_eqb_eq in Hx. now subst.
  - intros Hin. exists s. split; [assumption | apply str_eqb_refl].
Qed.

(** ** Reading a property after writing one *)

Lemma lookup_set_same (k : jsstring) (v : JsVal) (o : obj) :
  lookup k (obj_set k v o) = Some v.
Proof.
  induction o as [|[k' v'] o IH]; simpl.
  - now rewrite str_eqb_refl.
  - destruct (str_eqb k' k) eqn:Hk; simpl; rewrite Hk; [reflexivity | exact IH].
Qed.

Lemma lookup_set_other (k k' : jsstring) (v : JsVal) (o : obj) :
  k' <> k -> lookup k (obj_set k' v o) = lookup k o.
Proof.
  intros Hne. induction o as [|[k0 v0] o IH]; simpl.
  - apply str_eqb_neq in Hne. now rewrite Hne.
  - destruct (str_eqb k0 k') eqn:Hk0; simpl.
    + apply str_eqb_eq in Hk0. subst k0.
      apply str_eqb_neq in Hne. now rewrite Hne.
    + destruct (str_eqb k0 k); [reflexivity | exact IH].
Qed.

Lemma get_set_same (k : jsstring) (v : JsVal) (o : obj) :
  get k (obj_set k v o) = v.
Proof. unfold get. now rewrite lookup_set_same. Qed.

Lemma get_set_other (k k' : jsstring) (v : JsVal) (o : obj) :
  k' <> k -> get k (obj_set k' v o) = get k o.
Proof. intros H. unfold get. now rewrite lookup_set_other. Qed.

End JsFacts.

(* ===================================================================== *)
(** * The fuel of [JSON.parse] *)
(* ===================================================================== *)

Module JsonFacts.
Import Js JsFacts.

(** One more unit of fuel does not change what a parser returns. *)
Lemma parse_step_mono (f : nat) :
  (forall s v r, parse_value f s = Some (v, r) ->
                 parse_value (S f) s = Some (v, r))
  /\ (forall acc s v r, parse_elements f acc s = Some (v, r) ->
                        parse_elements (S f) acc s = Some (v, r))
  /\ (forall acc s v r, parse_members f acc s = Some (v, r) ->
                        parse_members (S f) acc s = Some (v, r)).
Proof.
  induction f as [|f (IHv & IHe & IHm)].
  - repeat split; intros; discriminate.
  - split; [|split].
    + intros s v r H.
      cbn [parse_value] in H |- *.
      destruct (skip_ws s) as [|c r0]; [discriminate|].
      destruct (c =? 123).
      { destruct (skip_ws r0) as [|c2 r2]; [discriminate|].
        destruct (c2 =? 125); [exact H|]. now apply IHm. }
      destruct (c =? 91).
      { destruct (skip_ws r0) as [|c2 r2]; [discriminate|].
        destruct (c2 =? 93); [exact H|]. now apply IHe. }
      exact H.
    + intros acc s v r H.
      cbn [parse_elements] in H |- *.
      destruct (parse_value f s) as [[v1 r1]|] eqn:Hv; [|discriminate].
      rewrite (IHv _ _ _ Hv).
      destruct (skip_ws r1) as [|c r']; [discriminate|].
      destruct (c =? 44); [now apply IHe|]. exact H.
    + intros acc s v r H.
      cbn [parse_members] in H |- *.
      destruct (skip_ws s) as [|c r0]; [discriminate|].
      destruct (c =? 34); [|discriminate].
      destruct (parse_string_body r0) as [[k r1]|]; [|discriminate].
      destruct (skip_ws r1) as [|c1 r2]; [discriminate|].
      destruct (c1 =? 58); [|discriminate].
      destruct (parse_value f r2) as [[v1 r3]|] eqn:Hv; [|discriminate].
      rewrite (IHv _ _ _ Hv).
      destruct (skip_ws r3) as [|c3 r4]; [discriminate|].
      destruct (c3 =? 44); [now apply IHm|]. exact H.
Qed.

Lemma parse_fuel_mono (f f' : nat) :
  (f <= f')%nat ->
  (forall s v r, parse_value f s = Some (v, r) ->
                 parse_value f' s = Some (v, r))
  /\ (forall acc s v r, parse_elements f acc s = Some (v, r) ->
                        parse_elements f' acc s = Some (v, r))
  /\ (forall acc s v r, parse_members f acc s = Some (v, r) ->
                        parse_members f' acc s = Some (v, r)).
Proof.
  induction 1 as [|f' Hle (IHv & IHe & IHm)]; [auto|].
  destruct (parse_step_mono f') as (Sv & Se & Sm).
  repeat split; intros; auto.
Qed.

Lemma drop_while_length (p : Z -> bool) (s : jsstring) :
  (length (drop_while p s) <= length s)%nat.
Proof.
  induction s as [|c s IH]; simpl; [lia|]. destruct (p c); simpl; lia.
Qed.

Lemma skip_ws_cons (s : jsstring) (c : Z) (r : jsstring) :
  skip_ws s = c :: r -> (length r < length s)%nat.
Proof.
  intros H. pose proof (drop_while_length is_json_ws s) as Hl.
  unfold skip_ws in H. rewrite H in Hl. simpl in Hl. lia.
Qed.

Lemma parse_string_body_consumes (s : jsstring) : forall t rest,
  parse_string_body s = Some (t, rest) -> (length rest < length s)%nat.
Proof.
  induction s as [s IH] using (well_founded_induction
                                 (Wf_nat.well_founded_ltof _ (@length Z))).
  unfold Wf_nat.ltof in IH.
  intros t rest H. destruct s as [|c r]; [discriminate|].
  cbn [parse_string_body] in H.
  destruct (c =? 34); [inversion H; subst; simpl; lia|].
  destruct (c <? 32); [discriminate|].
  destruct (c =? 92).
  - destruct r as [|e r1]; [discriminate|].
    assert (Hsimple : forall x t rest,
               match parse_string_body r1 with
               | Some (t0, rest0) => Some (x :: t0, rest0)
               | None => None
               end = Some (t, rest) -> (length rest < length (c :: e :: r1))%nat).
    { intros x t0 rest0 Hx.
      destruct (parse_string_body r1) as [[t1 rest1]|] eqn:Hp; [|discriminate].
      inversion Hx; subst. apply IH in Hp; simpl in *; lia. }
    repeat match type of H with
           | (if ?b then _ else _) = _ =>
               destruct b; [first [now eapply Hsimple; eauto | idtac]|]
           end; try discriminate.
    destruct r1 as [|a [|b [|c' [|d r5]]]]; try discriminate.
    destruct (hex4 a b c' d); [|discriminate].
    destruct (parse_string_body r5) as [[t1 rest1]|] eqn:Hp; [|discriminate].
    inversion H; subst. apply IH in Hp; simpl in *; lia.
  - destruct (parse_string_body r) as [[t1 rest1]|] eqn:Hp; [|discriminate].
    inversion H; subst. apply IH in Hp; simpl in *; lia.
Qed.

Lemma strip_prefix_length (p : jsstring) : forall s rest,
  strip_prefix p s = Some rest -> length s = (length p + length rest)%nat.
Proof.
  induction p as [|x p IH]; intros s rest H; simpl in H.
  - now inversion H.
  - destruct s as [|y s]; [discriminate|].
    destruct (x =? y); [|discriminate]. apply IH in H. simpl. lia.
Qed.

Lemma span_digits_length (s : jsstring) : forall d r,
  span_digits s = (d, r) -> length s = (length d + length r)%nat.
Proof.
  induction s as [|c s IH]; intros d r H; simpl in H.
  - now inversion H.
  - destruct (is_digit c).
    + destruct (span_digits s) as [d' r'] eqn:Hs. inversion H; subst.
      specialize (IH _ _ eq_refl). simpl. lia.
    + now inversion H.
Qed.

Lemma parse_json_number_consumes (s : jsstring) (n : JsNum) (rest : jsstring) :
  parse_json_number s = Some (n, rest) -> (length rest < length s)%nat.
Proof.
  unfold parse_json_number. intros H.
  destruct (match s with
            | [] => (false, s)
            | c :: r => if c =? 45 then (true, r) else (false, s)
            end) as [neg r] eqn:Hsign.
  assert (Hr : (length r <= length s)%nat).
  { destruct s as [|c s']; [inversion Hsign; subst; lia|].
    destruct (c =? 45); inversion Hsign; subst; simpl; lia. }
  destruct (span_digits r) as [ip r1] eqn:Hip.
  apply span_digits_length in Hip.
  destruct (match r1 with
            | [] => ([], true, r1)
            | c :: r' =>
                if c =? 46
                then let '(f, t) := span_digits r' in
                     (f, match f with [] => false | _ :: _ => true end, t)
                else ([], true, r1)
            end) as [[fp frac_ok] r2] eqn:Hfrac.
  assert (Hr2 : (length r2 <= length r1)%nat).
  { destruct r1 as [|c r']; [inversion Hfrac; subst; lia|].
    destruct (c =? 46); [|inversion Hfrac; subst; lia].
    destruct (span_digits r') as [f t] eqn:Hf. apply span_digits_length in Hf.
    inversion Hfrac; subst. simpl. lia. }
  destruct (match r2 with
            | [] => (0, true, r2)
            | c :: r' =>
                if (c =? 101) || (c =? 69)
                then
                  let '(eneg, t) :=
                    match r' with
                    | [] => (false, r')
                    | c' :: t =>
                        if c' =? 43 then (false, t)
                        else if c' =? 45 then (true, t) else (false, r')
                    end in
                  let '(d, t') := span_digits t in
                  (if eneg then - digits_value d else digits_value d,
                   match d with [] => false | _ :: _ => true end, t')
                else (0, true, r2)
            end) as [[ex exp_ok] r3] eqn:Hexp.
  assert (Hr3 : (length r3 <= length r2)%nat).
  { destruct r2 as [|c r']; [inversion Hexp; subst; lia|].
    destruct ((c =? 101) || (c =? 69)); [|inversion Hexp; subst; lia].
    destruct (match r' with
              | [] => (false, r')
              | c' :: t =>
                  if c' =? 43 then (false, t)
                  else if c' =? 45 then (true, t) else (false, r')
              end) as [eneg t] eqn:Hsg.
    assert (Ht : (length t <= length r')%nat).
    { destruct r' as [|c' t']; [inversion Hsg; subst; lia|].
      destruct (c' =? 43); [inversion Hsg; subst; simpl; lia|].
      destruct (c' =? 45); inversion Hsg; subst; simpl; lia. }
    destruct (span_digits t) as [d t'] eqn:Hd. apply span_digits_length in Hd.
    inversion Hexp; subst. simpl. lia. }
  destruct ip as [|d0 ip'];
    [cbn [andb] in H; discriminate|].
  destruct (_ && _ && _); [|discriminate].
  inversion H; subst. simpl in Hip. lia.
Qed.

Lemma skip_ws_length (s : jsstring) : (length (skip_ws s) <= length s)%nat.
Proof. apply drop_while_length. Qed.

(** A parser that returns with some fuel has consumed input, and twice
    the number of units it consumed is fuel enough. *)
Lemma parse_bound (f : nat) :
  (forall s v r, parse_value f s = Some (v, r) ->
     (length r < length s)%nat
     /\ parse_value (2 * (length s - length r)) s = Some (v, r))
  /\ (forall acc s v r, parse_elements f acc s = Some (v, r) ->
        (length r < length s)%nat
        /\ parse_elements (2 * (length s - length r)) acc s = Some (v, r))
  /\ (forall acc s v r, parse_members f acc s = Some (v, r) ->
        (length r < length s)%nat
        /\ parse_members (2 * (length s - length r)) acc s = Some (v, r)).
Proof.
  induction f as [|f (IHv & IHe & IHm)].
  - repeat split; intros; discriminate.
  - split; [|split].
    + intros s v r H. cbn [parse_value] in H.
      pose proof (skip_ws_length s) as Hs.
      destruct (skip_ws s) as [|c r0] eqn:Hskip; [discriminate|].
      cbn [length] in Hs.
      assert (Hfin : (length r < length s)%nat ->
                (forall g, (2 * (length s - length r) = S g)%nat ->
                           parse_value (S g) s = Some (v, r)) ->
                (length r < length s)%nat
                /\ parse_value (2 * (length s - length r)) s = Some (v, r)).
      { intros Hlt Hg. split; [exact Hlt|].
        destruct (2 * (length s - length r))%nat as [|g] eqn:Hn; [lia|].
        now apply Hg. }
      destruct (c =? 123) eqn:Hc1.
      { destruct (skip_ws r0) as [|c2 r2] eqn:Hskip2; [discriminate|].
        pose proof (skip_ws_length r0) as Hs2. rewrite Hskip2 in Hs2.
        cbn [length] in Hs2.
        destruct (c2 =? 125) eqn:Hc2.
        - inversion H; subst. apply Hfin; [lia|]. intros g Hg.
          cbn [parse_value]. now rewrite Hskip, Hc1, Hskip2, Hc2.
        - apply IHm in H as [Hlt Hb]. apply Hfin; [lia|]. intros g Hg.
          cbn [parse_value]. rewrite Hskip, Hc1, Hskip2, Hc2.
          apply (proj2 (proj2 (@parse_fuel_mono (2 * (length r0 - length r)) g
                                 ltac:(lia)))). exact Hb. }
      destruct (c =? 91) eqn:Hc3.
      { destruct (skip_ws r0) as [|c2 r2] eqn:Hskip2; [discriminate|].
        pose proof (skip_ws_length r0) as Hs2. rewrite Hskip2 in Hs2.
        cbn [length] in Hs2.
        destruct (c2 =? 93) eqn:Hc2.
        - inversion H; subst. apply Hfin; [lia|]. intros g Hg.
          cbn [parse_value]. now rewrite Hskip, Hc1, Hc3, Hskip2, Hc2.
        - apply IHe in H as [Hlt Hb]. apply Hfin; [lia|]. intros g Hg.
          cbn [parse_value]. rewrite Hskip, Hc1, Hc3, Hskip2, Hc2.
          apply (proj1 (proj2 (@parse_fuel_mono (2 * (length r0 - length r)) g
                                 ltac:(lia)))). exact Hb. }
      assert (Hlt : (length r < length s)%nat).
      { destruct (c =? 34).
        - destruct (parse_string_body r0) as [[t rest]|] eqn:Hp; [|discriminate].
          inversion H; subst. apply parse_string_body_consumes in Hp. lia.
        - destruct (strip_prefix (u "true") (c :: r0)) as [rest|] eqn:Ht.
          { inversion H; subst. apply strip_prefix_length in Ht.
            simpl in Ht. lia. }
          destruct (strip_prefix (u "false") (c :: r0)) as [rest|] eqn:Hf.
          { inversion H; subst. apply strip_prefix_length in Hf.
            simpl in Hf. lia. }
          destruct (strip_prefix (u "null") (c :: r0)) as [rest|] eqn:Hn.
          { inversion H; subst. apply strip_prefix_length in Hn.
            simpl in Hn. lia. }
          destruct (parse_json_number (c :: r0)) as [[n rest]|] eqn:Hnum;
            [|discriminate].
          inversion H; subst. apply parse_json_number_consumes in Hnum.
          simpl in Hnum. lia. }
      apply Hfin; [exact Hlt|]. intros g Hg.
      cbn [parse_value]. rewrite Hskip, Hc1, Hc3. exact H.
    + intros acc s v r H. cbn [parse_elements] in H.
      destruct (parse_value f s) as [[v1 r1]|] eqn:Hv; [|discriminate].
      apply IHv in Hv as [Hlt1 Hb1].
      destruct (skip_ws r1) as [|c r'] eqn:Hskip; [discriminate|].
      pose proof (skip_ws_length r1) as Hs1. rewrite Hskip in Hs1.
      cbn [length] in Hs1.
      destruct (c =? 44) eqn:Hc.
      * apply IHe in H as [Hlt Hb]. split; [lia|].
        destruct (2 * (length s - length r))%nat as [|g] eqn:Hn; [lia|].
        cbn [parse_elements].
        rewrite (proj1 (@parse_fuel_mono (2 * (length s - length r1)) g
                          ltac:(lia)) _ _ _ Hb1).
        rewrite Hskip, Hc.
        apply (proj1 (proj2 (@parse_fuel_mono (2 * (length r' - length r)) g
                               ltac:(lia)))). exact Hb.
      * destruct (c =? 93) eqn:Hc'; [|discriminate].
        inversion H; subst. split; [lia|].
        destruct (2 * (length s - length r))%nat as [|g] eqn:Hn; [lia|].
        cbn [parse_elements].
        rewrite (proj1 (@parse_fuel_mono (2 * (length s - length r1)) g
                          ltac:(lia)) _ _ _ Hb1).
        now rewrite Hskip, Hc, Hc'.
    + intros acc s v r H. cbn [parse_members] in H.
      destruct (skip_ws s) as [|c r0] eqn:Hskip; [discriminate|].
      pose proof (skip_ws_length s) as Hs. rewrite Hskip in Hs.
      cbn [length] in Hs.
      destruct (c =? 34) eqn:Hc; [|discriminate].
      destruct (parse_string_body r0) as [[k r1]|] eqn:Hk; [|discriminate].
      pose proof (parse_string_body_consumes _ Hk) as Hlk.
      destruct (skip_ws r1) as [|c1 r2] eqn:Hskip1; [discriminate|].
      pose proof (skip_ws_length r1) as Hs1. rewrite Hskip1 in Hs1.
      cbn [length] in Hs1.
      destruct (c1 =? 58) eqn:Hc1; [|discriminate].
      destruct (parse_value f r2) as [[v1 r3]|] eqn:Hv; [|discriminate].
      apply IHv in Hv as [Hlt3 Hb3].
      destruct (skip_ws r3) as [|c3 r4] eqn:Hskip3; [discriminate|].
      pose proof (skip_ws_length r3) as Hs3. rewrite Hskip3 in Hs3.
      cbn [length] in Hs3.
      destruct (c3 =? 44) eqn:Hc3.
      * apply IHm in H as [Hlt Hb]. split; [lia|].
        destruct (2 * (length s - length r))%nat as [|g] eqn:Hn; [lia|].
        cbn [parse_members]. rewrite Hskip, Hc, Hk, Hskip1, Hc1.
        rewrite (proj1 (@parse_fuel_mono (2 * (length r2 - length r3)) g
                          ltac:(lia)) _ _ _ Hb3).
        rewrite Hskip3, Hc3.
        apply (proj2 (proj2 (@parse_fuel_mono (2 * (length r4 - length r)) g
                               ltac:(lia)))). exact Hb.
      * destruct (c3 =? 125) eqn:Hc3'; [|discriminate].
        inversion H; subst. split; [lia|].
        destruct (2 * (length s - length r))%nat as [|g] eqn:Hn; [lia|].
        cbn [parse_members]. rewrite Hskip, Hc, Hk, Hskip1, Hc1.
        rewrite (proj1 (@parse_fuel_mono (2 * (length r2 - length r3)) g
                          ltac:(lia)) _ _ _ Hb3).
        now rewrite Hskip3, Hc3, Hc3'.
Qed.

(** The fuel of [JSON_parse_text] is enough: a text that parses with
    any fuel parses with the fuel the function takes. *)
Lemma JSON_parse_text_fuel (s : jsstring) (f : nat) (v : JsVal)
  (rest : jsstring) :
  parse_value f s = Some (v, rest) ->
  parse_value (2 * length s + 2) s = Some (v, rest).
Proof.
  intros H. destruct (parse_bound f) as (Hb & _ & _).
  destruct (Hb _ _ _ H) as [Hlt Hp].
  apply (proj1 (@parse_fuel_mono (2 * (length s - length rest))
                  (2 * length s + 2) ltac:(lia))). exact Hp.
Qed.

End JsonFacts.

(* ===================================================================== *)
(** * The validator *)
(* ===================================================================== *)

Module ValidatorFacts.
Import Js Settings Examples JsFacts.




End ValidatorFacts.

(* ===================================================================== *)
(** * The request monad and the database calls *)
(* ===================================================================== *)

Module MonadFacts.
Import Js Encryption Settings JsFacts.

(** Two different string literals. *)
Ltac lit_neq := let H := fresh in intro H; vm_compute in H; discriminate.

(** Inverting a [bind] that returned: its first computation returned. *)
Ltac bind_ok H :=
  unfold bind in H;
  match type of H with
  | (let (_, _) := ?x in _) = _ =>
      let a := fresh "a" in
      let e := fresh "e" in
      let w := fresh "w" in
      let Hx := fresh "Hrun" in
      destruct x as [[a|e] w] eqn:Hx; [|discriminate]
  end.

Lemma map_m_ok {A B : Type} (f : A -> M B) (l : list A) :
  forall w bs w',
    map_m f l w = (Ok bs, w') ->
    Forall2 (fun a b => exists w1 w2, f a w1 = (Ok b, w2)) l bs.
Proof.
  induction l as [|a l IH]; intros w bs w' H; simpl in H.
  - inversion H. constructor.
  - bind_ok H. bind_ok H.
    inversion H; subst. constructor; eauto.
Qed.

Lemma db_call_ok {A : Type} (E : Env) (act : World -> A * World) w a w' :
  db_call E act w = (Ok a, w') ->
  fails E (calls w) = None
  /\ act (mkWorld (committed w) (pending w) (held w) (S (calls w))) = (a, w').
Proof.
  unfold db_call. destruct (fails E (calls w)); [discriminate|].
  destruct (act _) as [a1 w1]. intros H. inversion H. auto.
Qed.

Lemma getConnection_ok (E : Env) w a w' :
  getConnection E w = (Ok a, w') ->
  w' = mkWorld (committed w) (pending w) (S (held w)) (S (calls w)).
Proof.
  unfold getConnection. intros H. apply db_call_ok in H as [_ H].
  now inversion H.
Qed.

Lemma conn_query_ok {A : Type} (E : Env) (q : DB -> A * DB) w a w' :
  conn_query E q w = (Ok a, w') -> a = fst (q (current w)).
Proof.
  unfold conn_query. intros H. apply db_call_ok in H as [_ H].
  unfold current in *. simpl in H.
  destruct (pending w); destruct (q _); inversion H; reflexivity.
Qed.

(** ** Rules for [post] *)

Lemma post_ret {A : Type} (a : A) w Q : Q (Ok a) w -> post (ret a) w Q.
Proof. exact (fun H => H). Qed.

Lemma post_throw {A : Type} e w (Q : Outcome A -> World -> Prop) :
  Q (Throw e) w -> post (throw e) w Q.
Proof. exact (fun H => H). Qed.

Lemma post_bind {A B : Type} (m : M A) (k : A -> M B) w Q :
  post m w (fun o w' =>
    match o with
    | Ok a => post (k a) w' Q
    | Throw e => Q (Throw e) w'
    end) ->
  post (bind m k) w Q.
Proof.
  unfold post, bind. destruct (m w) as [[a|e] w']; simpl; auto.
Qed.

Lemma post_try {A : Type} (m : M A) (h : jsstring -> M A) w Q :
  post m w (fun o w' =>
    match o with
    | Ok a => Q (Ok a) w'
    | Throw e => post (h e) w' Q
    end) ->
  post (try_catch m h) w Q.
Proof.
  unfold post, try_catch. destruct (m w) as [[a|e] w']; simpl; auto.
Qed.

Lemma post_lift {A : Type} msg (o : option A) w Q :
  match o with
  | Some a => Q (Ok a) w
  | None => Q (Throw msg) w
  end ->
  post (lift msg o) w Q.
Proof. destruct o; exact (fun H => H). Qed.

Lemma post_mono {A : Type} (m : M A) w (Q Q' : Outcome A -> World -> Prop) :
  post m w Q -> (forall o w', Q o w' -> Q' o w') -> post m w Q'.
Proof. unfold post. auto. Qed.

Lemma post_run {A : Type} (m : M A) w Q :
  post m w Q -> forall o w', m w = (o, w') -> Q o w'.
Proof. unfold post. intros H o w' Hm. now rewrite Hm in H. Qed.

Lemma post_db_call {A : Type} E (act : World -> A * World) w Q :
  match fails E (calls w) with
  | Some msg => Q (Throw msg) (tick w)
  | None => Q (Ok (fst (act (tick w)))) (snd (act (tick w)))
  end ->
  post (db_call E act) w Q.
Proof.
  unfold post, db_call, tick. destruct (fails E (calls w)); [auto|].
  destruct (act _); auto.
Qed.

Lemma post_release w Q :
  Q (Ok tt) (mkWorld (committed w) (pending w) (pred (held w)) (calls w)) ->
  post release w Q.
Proof. exact (fun H => H). Qed.

Lemma post_getConnection E w Q :
  match fails E (calls w) with
  | Some msg => Q (Throw msg) (tick w)
  | None =>
      Q (Ok tt) (mkWorld (committed w) (pending w) (S (held w)) (S (calls w)))
  end ->
  post (getConnection E) w Q.
Proof. intros H. apply post_db_call. exact H. Qed.

Lemma post_beginTransaction E w Q :
  match fails E (calls w) with
  | Some msg => Q (Throw msg) (tick w)
  | None =>
      Q (Ok tt)
        (mkWorld (current w) (Some (current w)) (held w) (S (calls w)))
  end ->
  post (beginTransaction E) w Q.
Proof. intros H. apply post_db_call. exact H. Qed.

Lemma post_commit E w Q :
  match fails E (calls w) with
  | Some msg => Q (Throw msg) (tick w)
  | None => Q (Ok tt) (mkWorld (current w) None (held w) (S (calls w)))
  end ->
  post (commit E) w Q.
Proof. intros H. apply post_db_call. exact H. Qed.

Lemma post_rollback E w Q :
  match fails E (calls w) with
  | Some msg => Q (Throw msg) (tick w)
  | None => Q (Ok tt) (mkWorld (committed w) None (held w) (S (calls w)))
  end ->
  post (rollback E) w Q.
Proof. intros H. apply post_db_call. exact H. Qed.

(** A statement inside a transaction acts on the uncommitted state. *)
Lemma post_query_in_txn {A : Type} E (q : DB -> A * DB) w p Q :
  pending w = Some p ->
  match fails E (calls w) with
  | Some msg => Q (Throw msg) (tick w)
  | None =>
      Q (Ok (fst (q p)))
        (mkWorld (committed w) (Some (snd (q p))) (held w) (S (calls w)))
  end ->
  post (conn_query E q) w Q.
Proof.
  intros Hp H. apply post_db_call. destruct (fails E (calls w)); [exact H|].
  unfold current, tick. cbn [pending committed held calls]. rewrite Hp.
  destruct (q p). exact H.
Qed.

(** Outside of a transaction it commits at once. *)
Lemma post_query_autocommit {A : Type} E (q : DB -> A * DB) w Q :
  pending w = None ->
  match fails E (calls w) with
  | Some msg => Q (Throw msg) (tick w)
  | None =>
      Q (Ok (fst (q (committed w))))
        (mkWorld (snd (q (committed w))) None (held w) (S (calls w)))
  end ->
  post (conn_query E q) w Q.
Proof.
  intros Hp H. apply post_db_call. destruct (fails E (calls w)); [exact H|].
  unfold current, tick. cbn [pending committed held calls]. rewrite Hp.
  destruct (q (committed w)). exact H.
Qed.

Ltac world := cbn [tick committed pending held calls current fst snd].

(** One step of a handler: the rule of its next call. *)
Ltac call :=
  first [apply post_bind | idtac];
  first [ apply post_getConnection | apply post_beginTransaction
        | apply post_commit | apply post_rollback
        | eapply post_query_in_txn; [first [reflexivity | eassumption]|]
        | apply post_query_autocommit; [first [reflexivity | eassumption]|]
        | apply post_release | apply post_lift | apply post_ret
        | apply post_throw ];
  world.

(** The inner [catch]: whether or not the rollback goes through, the
    committed database stays and the error goes on. *)
Lemma post_cleanup {A : Type} E e w (Q : Outcome A -> World -> Prop) :
  (forall e' w', committed w' = committed w -> Q (Throw e') w') ->
  post (rollback E ;;; release ;;; throw e)%req w Q.
Proof.
  intros HQ. call.
  destruct (fails E (calls w)); [now apply HQ|].
  call. call. now apply HQ.
Qed.

Lemma post_conj {A : Type} (m : M A) w (Q1 Q2 : Outcome A -> World -> Prop) :
  post m w Q1 -> post m w Q2 -> post m w (fun o w' => Q1 o w' /\ Q2 o w').
Proof. unfold post. auto. Qed.

(** A failed step whose cleanup leaves the committed database alone. *)
Ltac cleanup := apply post_cleanup; intros; apply post_ret; assumption.

End MonadFacts.

(* ===================================================================== *)
(** * Secrets in listings *)
(* ===================================================================== *)

Module MaskingFacts.
Import Js Encryption Settings Examples JsFacts MonadFacts.

Lemma mask_key_row_ok (key : obj) w o w' :
  mask_key_row key w = (Ok o, w') ->
  get (u "display_key") o = VStr (maskApiKey (get (u "api_key") key))
  /\ get (u "masked_key") o = VStr (maskApiKey (get (u "api_key") key)).
Proof.
  unfold mask_key_row. intros H.
  bind_ok H. bind_ok H.
  unfold ret in H. inversion H; subst o w'.
  unfold spread_with. cbn [fold_left fst snd].
  split; rewrite !get_set_other by lit_neq; apply get_set_same.
Qed.

Lemma mask_webhook_row_ok (webhook : obj) w o w' :
  mask_webhook_row webhook w = (Ok o, w') ->
  exists m,
    maskSecret (get (u "secret") webhook) = Some m
    /\ get (u "masked_secret") o = VStr m
    /\ get (u "display_secret") o = VStr m.
Proof.
  unfold mask_webhook_row. intros H.
  bind_ok H. bind_ok H.
  unfold ret in H. inversion H; subst o w'.
  unfold lift in Hrun0. destruct (maskSecret _) as [m|]; [|discriminate].
  unfold ret in Hrun0. inversion Hrun0; subst.
  exists a0. unfold spread_with. cbn [fold_left fst snd].
  split; [reflexivity|]. split.
  - rewrite !get_set_other by lit_neq. apply get_set_same.
  - apply get_set_same.
Qed.




End MaskingFacts.

(* ===================================================================== *)
(** * Generated keys *)
(* ===================================================================== *)

Module GenerationFacts.
Import Js Encryption Settings Examples JsFacts MonadFacts.

Lemma includes_app (c : Z) (a b : jsstring) :
  includes c (a ++ b) = includes c a || includes c b.
Proof. unfold includes. apply existsb_app. Qed.

Lemma includes_flat_map {A : Type} (c : Z) (f : A -> jsstring) (l : list A) :
  (forall a, includes c (f a) = false) ->
  includes c (flat_map f l) = false.
Proof.
  intros Hf. induction l as [|a l IH]; simpl; [reflexivity|].
  now rewrite includes_app, Hf, IH.
Qed.

Lemma charAt_alphanumeric_no_underscore (i : nat) :
  includes 95 (charAt i alphanumeric) = false.
Proof.
  unfold charAt. destruct (nth_error alphanumeric i) as [c|] eqn:Hc;
    [|reflexivity].
  apply nth_error_In in Hc.
  assert (Hall : forallb (fun x => negb (x =? 95)) alphanumeric = true)
    by reflexivity.
  rewrite forallb_forall in Hall. specialize (Hall c Hc).
  apply negb_true_iff in Hall. simpl. now rewrite Hall.
Qed.

(** With a prefix that is not a number the length falls back to 24. *)
Lemma generateRandomString_pk (E : Env) :
  generateRandomString E (VStr (u "pk"))
  = Some (flat_map (fun i => charAt (math_random E i) alphanumeric)
            (seq 0 24)).
Proof. reflexivity. Qed.

Lemma generateRandomString_pk_no_underscore (E : Env) (key : jsstring) :
  generateRandomString E (VStr (u "pk")) = Some key ->
  includes 95 key = false.
Proof.
  rewrite generateRandomString_pk. intros H.
  assert (Hk : key = flat_map (fun i => charAt (math_random E i) alphanumeric)
                       (seq 0 24)) by congruence.
  rewrite Hk. apply includes_flat_map. intros i. apply charAt_alphanumeric_no_underscore.
Qed.

Lemma key_form_has_underscore (prefix key : jsstring) :
  Spec.has_key_form prefix key -> includes 95 key = true.
Proof.
  intros (r & -> & _). rewrite !includes_app.
  replace (includes 95 (u "_")) with true by reflexivity.
  now rewrite orb_true_r.
Qed.

(** C4: whatever the random draws, the key that
    [POST /api-key/generate] returns and stores for the default prefix
    [pk] is a bare run of characters of the alphabet drawn through
    [Math.random]: it holds no underscore, so it is not [pk_] followed by
    24 characters, and its mask is the placeholder. *)
Theorem api_key_generate_drops_prefix (draws : nat -> nat) (db : DB) :
  let E := env_of (fun _ => None) draws in
  exists key resp w data row,
    run (post_api_key_generate E) generate_ci db = (Ok resp, w)
    /\ status resp = 201
    /\ get (u "data") (body resp) = VObj data
    /\ get (u "api_key") data = VStr key
    /\ get (u "masked_key") data = VStr (u "...")
    /\ api_keys (committed w) = api_keys db ++ [row]
    /\ get (u "api_key") row = VStr key
    /\ key = flat_map (fun i => charAt (draws i) alphanumeric) (seq 0 24)
    /\ includes 95 key = false
    /\ ~ Spec.has_key_form (u "pk") key.
Proof.
  intros E.
  assert (Hkey : generateRandomString E (VStr (u "pk"))
                 = Some (flat_map (fun i => charAt (draws i) alphanumeric)
                           (seq 0 24))) by apply generateRandomString_pk.
  pose proof (generateRandomString_pk_no_underscore Hkey) as Hno.
  set (key := flat_map (fun i => charAt (draws i) alphanumeric) (seq 0 24)) in *.
  assert (Hmask : maskApiKey (VStr key) = u "...").
  { unfold maskApiKey. destruct (negb (truthy (VStr key))); [reflexivity|].
    assert (Hsplit : forall s, includes 95 s = false -> split 95 s = [s]).
    { induction s as [|c s IH]; simpl; intros Hs; [reflexivity|].
      apply orb_false_iff in Hs as [Hc Hs]. rewrite Hc, (IH Hs). reflexivity. }
    now rewrite (Hsplit key Hno). }
  unfold run, post_api_key_generate, try_catch, generate_ci, request.
  cbn [req_body].
  change (get (u "prefix") [(u "key_name", VStr (u "ci"))]) with VUndefined.
  change (get (u "key_name") [(u "key_name", VStr (u "ci"))])
    with (VStr (u "ci")).
  cbn [default_to truthy negb]. unfold bind at 1. cbn [lift].
  rewrite Hkey. cbn [lift ret]. rewrite Hmask.
  do 5 eexists. split; [reflexivity|].
  split; [reflexivity|]. split; [reflexivity|]. split; [reflexivity|].
  split; [reflexivity|]. split; [reflexivity|]. split; [reflexivity|].
  split; [reflexivity|]. split; [exact Hno|].
  intros Hform. apply key_form_has_underscore in Hform. congruence.
Qed.

End GenerationFacts.

(* ===================================================================== *)
(** * Fetching one setting, and the pool *)
(* ===================================================================== *)

Module FetchFacts.
Import Js Encryption Settings Examples JsFacts MonadFacts.

(** C5: [GET /settings/:id] compares the path parameter with the
    [setting_key] column.  On the worked database the setting with id 1
    exists, [GET /settings/1] answers 404, and [GET /settings/site_name]
    returns the setting with id 1. *)
Theorem get_by_id_selects_on_the_key :
  In site_name (system_settings shop)
  /\ get (u "id") site_name = VInt 1
  /\ run (get_setting_by_id calm) get_1 shop
     = (Ok (failure 404 (u "Setting not found")), mkWorld shop None 0 2)
  /\ run (get_setting_by_id calm) get_site_name shop
     = (Ok (success_data 200 None (VObj site_name)), mkWorld shop None 0 2).
Proof.
  split; [now left|]. split; [reflexivity|].
  split; vm_compute; reflexivity.
Qed.

(** C6: when the [SELECT] of [GET /settings] or of [GET /settings/:id]
    rejects, the handler answers 500 and the connection it acquired is
    still held; the update handler, on the same failure, releases it. *)
Theorem get_handlers_leak_on_query_error (req : Request) (db : DB) :
  let E := failing_at 1 in
  (exists resp w,
      run (get_settings E) req db = (Ok resp, w)
      /\ status resp = 500 /\ held w = 1%nat)
  /\ (exists resp w,
        run (get_setting_by_id E) req db = (Ok resp, w)
        /\ status resp = 500 /\ held w = 1%nat)
  /\ (exists resp w,
        run (put_setting_by_id (failing_at 2)) put_2_false db = (Ok resp, w)
        /\ status resp = 500 /\ held w = 0%nat).
Proof.
  intros E. split; [|split]; do 2 eexists; (split; [reflexivity|]);
    split; reflexivity.
Qed.

End FetchFacts.

(* ===================================================================== *)
(** * Updating and creating a setting *)
(* ===================================================================== *)

Module UpdateFacts.
Import Js Encryption Settings Examples JsFacts MonadFacts.

Lemma is_undefined_false (v : JsVal) :
  v <> VUndefined -> is_undefined v = false.
Proof. destruct v; simpl; congruence. Qed.

(** What [both_persist] leaves in the two tables. *)
Lemma both_persist_tables (E : Env) (db : DB)
  (settingId oldValue newValue who why : JsVal) :
  let db' := Spec.both_persist E db settingId oldValue newValue who why in
  system_settings db'
  = map (fun row =>
           if col_eq E (u "id") settingId row
           then obj_set (u "updated_at") (sql_now E)
                  (obj_set (u "setting_value") newValue row)
           else row)
        (system_settings db)
  /\ settings_history db'
     = settings_history db
       ++ [history_row settingId oldValue newValue who why]
  /\ api_keys db' = api_keys db /\ webhooks db' = webhooks db.
Proof. repeat split. Qed.

Section Update.

Variable E : Env.

(** Both update handlers, step by step. *)
Ltac update_steps :=
  apply post_try;
  destruct (is_undefined _); [apply post_ret; reflexivity|];
  call; destruct (fails E 0); [apply post_ret; reflexivity|];
  call; destruct (fails E 1); [apply post_ret; reflexivity|];
  apply post_try; call;
  destruct (fails E 2); [cleanup|];
  match goal with
  | |- context [fst (select_settings E ?c ?p ?db)] =>
      destruct (fst (select_settings E c p db)) as [|cur rest]
  end;
  [ call; destruct (fails E 3); [cleanup|]; call; call; reflexivity |];
  call;
  match goal with
  | |- context [prepareValueForStorage E ?c ?v] =>
      destruct (prepareValueForStorage E c v) as [newValue|]
  end; [|cleanup];
  call; destruct (fails E 3); [cleanup|];
  call; destruct (fails E 4); [cleanup|];
  call; destruct (fails E 5); [cleanup|];
  call; call;
  match goal with
  | |- context [processSettingValue E ?c ?v] =>
      destruct (processSettingValue E c v)
  end; [|cleanup];
  apply post_ret; reflexivity.

Lemma put_by_id_post (req : Request) (db : DB) :
  post (put_setting_by_id E req) (fresh db)
    (fun _ w =>
       Spec.update_outcome E req db (u "id") (get (u "id") (params req))
         (fun _ => get (u "id") (params req)) w).
Proof.
  unfold Spec.update_outcome, put_setting_by_id, update_transaction, fresh.
  update_steps.
Qed.

Lemma put_by_key_post (req : Request) (db : DB) :
  post (put_setting_by_key E req) (fresh db)
    (fun _ w =>
       Spec.update_outcome E req db (u "setting_key")
         (get (u "key") (params req)) (get (u "id")) w).
Proof.
  unfold Spec.update_outcome, put_setting_by_key, update_transaction, fresh.
  update_steps.
Qed.

Lemma post_setting_post (req : Request) (db : DB) :
  let key := get (u "setting_key") (req_body req) in
  post (post_setting E req) (fresh db)
    (fun o w =>
       fst (select_settings E (u "setting_key") key db) <> [] ->
       committed w = db
       /\ (truthy key = true ->
           truthy (get (u "setting_category") (req_body req)) = true ->
           truthy (get (u "setting_name") (req_body req)) = true ->
           fails E 0 = None -> fails E 1 = None ->
           o = Ok (failure 409 (u "Setting key already exists"))
           /\ w = mkWorld db None 0 2)).
Proof.
  intros key. subst key. unfold post_setting, fresh.
  apply post_try.
  destruct (truthy (get (u "setting_key") (req_body req))),
    (truthy (get (u "setting_category") (req_body req))),
    (truthy (get (u "setting_name") (req_body req)));
    cbn [negb orb];
    try (apply post_ret; intros _; split; [reflexivity | discriminate]).
  call. destruct (fails E 0).
  { apply post_ret. intros _. split; [reflexivity | discriminate]. }
  call. destruct (fails E 1).
  { apply post_ret. intros _. split; [reflexivity | discriminate]. }
  destruct (fst (select_settings E _ _ db)) as [|row rows] eqn:Hsel.
  { call. unfold insert_setting. world. destruct (fails E 2).
    - apply post_ret. intros Hne. exfalso. apply Hne. reflexivity.
    - call. call. intros Hne. exfalso. apply Hne. reflexivity. }
  call. call. intros _. split; [reflexivity|]. intros. split; reflexivity.
Qed.

End Update.





End UpdateFacts.

(* ===================================================================== *)
(** * Bulk update *)
(* ===================================================================== *)

Module BulkFacts.
Import Js Encryption Settings Examples JsFacts MonadFacts UpdateFacts.

Section Bulk.
Variable E : Env.

Lemma same_row_refl r : Spec.same_row r r.
Proof. intros c _ _. reflexivity. Qed.

Lemma same_identity_refl db : Spec.same_identity db db.
Proof.
  unfold Spec.same_identity. induction (system_settings db); constructor;
    auto using same_row_refl.
Qed.

Lemma same_row_update r r' v t :
  Spec.same_row r r' ->
  Spec.same_row r (obj_set (u "updated_at") t (obj_set (u "setting_value") v r')).
Proof.
  intros H c Hv Ht. rewrite !get_set_other by congruence. now apply H.
Qed.

Lemma same_identity_both_persist db dbw id old new who why :
  Spec.same_identity db dbw ->
  Spec.same_identity db (Spec.both_persist E dbw id old new who why).
Proof.
  unfold Spec.same_identity, Spec.both_persist, insert_history,
    update_setting_value. cbn [fst snd system_settings].
  intros H. induction H as [|r r' l l' Hr Hl IH]; simpl; constructor; auto.
  destruct (col_eq E (u "id") id r'); [now apply same_row_update | exact Hr].
Qed.

Lemma Forall2_filter {A} (R : A -> A -> Prop) (p : A -> bool) l l' :
  Forall2 R l l' -> (forall a b, R a b -> p a = p b) ->
  Forall2 R (filter p l) (filter p l').
Proof.
  intros H Hp. induction H as [|a b l l' Hab Hl IH]; simpl; [constructor|].
  rewrite (Hp a b Hab). destruct (p b); [constructor|]; auto.
Qed.

Lemma found_same db dbw k :
  Spec.same_identity db dbw ->
  Forall2 Spec.same_row (Spec.found E k db) (Spec.found E k dbw).
Proof.
  intros H. unfold Spec.found, select_settings. cbn [fst].
  apply Forall2_filter; [exact H|].
  intros a b Hab. unfold col_eq. rewrite (Hab (u "setting_key")); [reflexivity| |];
    lit_neq.
Qed.

Lemma item_fails_same db dbw item :
  Spec.same_identity db dbw ->
  Spec.item_fails E dbw item = Spec.item_fails E db item.
Proof.
  intros H. unfold Spec.item_fails.
  pose proof (found_same (Spec.item_key item) H) as Hf.
  destruct Hf; reflexivity.
Qed.

Lemma prepare_string cur s :
  prepareValueForStorage E cur (VStr s) <> None.
Proof.
  unfold prepareValueForStorage, simpleEncrypt, useSimpleEncryption.
  destruct (truthy (get (u "is_encrypted") cur) && truthy (VStr s));
    [|discriminate].
  destruct (negb (truthy (VStr s))); discriminate.
Qed.

Lemma prepare_item_stored cur item :
  prepareValueForStorage E cur (VStr (valueToStore cur (Spec.item_value item)))
  = Some (Spec.item_stored E cur item).
Proof.
  unfold Spec.item_stored.
  destruct (prepareValueForStorage E cur _) eqn:H; [reflexivity|].
  now apply prepare_string in H.
Qed.

Lemma item_stored_same cur cur' item :
  Spec.same_row cur cur' ->
  Spec.item_stored E cur' item = Spec.item_stored E cur item.
Proof.
  intros H. unfold Spec.item_stored, prepareValueForStorage, valueToStore.
  rewrite (H (u "is_encrypted")) by lit_neq.
  rewrite (H (u "data_type")) by lit_neq. reflexivity.
Qed.

Lemma apply_bulk_cons reason item items dbw :
  Spec.apply_bulk E reason (item :: items) dbw
  = Spec.apply_bulk E reason items (Spec.apply_item E reason dbw item).
Proof. reflexivity. Qed.

Lemma item_error_missing item k v :
  get_prop (u "setting_key") item = Some k ->
  get_prop (u "setting_value") item = Some v ->
  negb (truthy k) || is_undefined v = true ->
  Spec.item_error item
  = bulk_error (js_or k (VStr (u "unknown"))) (u "Missing key or value").
Proof.
  intros Hk Hv Hm.
  unfold Spec.item_error, Spec.missing_key_or_value, Spec.item_key,
    Spec.item_value. now rewrite Hk, Hv, Hm.
Qed.

Lemma item_error_not_found item k v :
  get_prop (u "setting_key") item = Some k ->
  get_prop (u "setting_value") item = Some v ->
  negb (truthy k) || is_undefined v = false ->
  Spec.item_error item = bulk_error k (u "Setting not found").
Proof.
  intros Hk Hv Hm.
  unfold Spec.item_error, Spec.missing_key_or_value, Spec.item_key,
    Spec.item_value. now rewrite Hk, Hv, Hm.
Qed.

Lemma item_fails_cases db item k v :
  get_prop (u "setting_key") item = Some k ->
  get_prop (u "setting_value") item = Some v ->
  Spec.item_fails E db item
  = (negb (truthy k) || is_undefined v)
    || match Spec.found E k db with [] => true | _ :: _ => false end.
Proof.
  intros Hk Hv.
  unfold Spec.item_fails, Spec.missing_key_or_value, Spec.item_key,
    Spec.item_value. now rewrite Hk, Hv.
Qed.


(** The loop from a state inside the transaction: the committed database
    and the pool are left alone; a loop that returns has itemized the
    failing items and applied the others. *)
Lemma bulk_loop_post reason db : forall items w dbw results errors,
  pending w = Some dbw -> Spec.same_identity db dbw ->
  post (bulk_loop E reason items results errors) w (fun o w' =>
    committed w' = committed w /\ held w' = held w /\
    match o with
    | Throw _ => exists p, pending w' = Some p
    | Ok (res, errs) =>
        res = results ++ map (Spec.item_result E db)
                           (filter (fun i => negb (Spec.item_fails E db i)) items)
        /\ errs = errors ++ map Spec.item_error
                              (filter (Spec.item_fails E db) items)
        /\ pending w' = Some (Spec.apply_bulk E reason items dbw)
    end).
Proof.
  induction items as [|item items IH]; intros w dbw results errors Hp Hsame.
  - simpl. apply post_ret. rewrite !app_nil_r. auto.
  - cbn [bulk_loop]. rewrite apply_bulk_cons.
    pose proof (item_fails_same item Hsame) as Hfs.
    destruct (get_prop (u "setting_key") item) as [k|] eqn:Hk.
    2:{ apply post_throw. eauto. }
    destruct (get_prop (u "setting_value") item) as [v|] eqn:Hv.
    2:{ apply post_throw. eauto. }
    pose proof (item_fails_cases db item Hk Hv) as Hcases.
    destruct (negb (truthy k) || is_undefined v) eqn:Hmiss.
    + cbn [orb] in Hcases.
      unfold Spec.apply_item. rewrite Hfs, Hcases.
      cbn [filter]. rewrite Hcases. cbn [negb map].
      eapply post_mono; [apply (IH w dbw); assumption|].
      intros o w' (Hc & Hh & Ho). split; [exact Hc|]. split; [exact Hh|].
      destruct o as [[res errs]|e]; [|exact Ho].
      destruct Ho as (Hr & He & Hpend). split; [exact Hr|]. split; [|exact Hpend].
      rewrite He, <- app_assoc. f_equal. simpl. f_equal.
      symmetry. now apply item_error_missing with (v := v).
    + cbn [orb] in Hcases.
      call. destruct (fails E (calls w)); [eauto|].
      change (fst (select_settings E (u "setting_key") k dbw))
        with (Spec.found E k dbw).
      pose proof (found_same k Hsame) as Hfound.
      unfold Spec.apply_item. rewrite Hfs, Hcases.
      cbn [filter]. rewrite Hcases.
      replace (Spec.item_key item) with k
        by (unfold Spec.item_key; now rewrite Hk).
      destruct (Spec.found E k db) as [|cur rest] eqn:Hfdb;
        destruct (Spec.found E k dbw) as [|cur' rest'] eqn:Hfdbw;
        inversion Hfound as [|? ? ? ? Hcur Hrest]; subst.
      * cbn [negb map].
        eapply post_mono; [eapply IH; [reflexivity | exact Hsame]|].
        intros o w' (Hc & Hh & Ho). split; [exact Hc|]. split; [exact Hh|].
        destruct o as [[res errs]|e]; [|exact Ho].
        destruct Ho as (Hr & He & Hpend). split; [exact Hr|]. split; [|exact Hpend].
        rewrite He, <- app_assoc. f_equal. simpl. f_equal.
        symmetry. now apply item_error_not_found with (v := v).
      * cbn [negb map hd].
        replace v with (Spec.item_value item)
          by (unfold Spec.item_value; now rewrite Hv).
        rewrite prepare_item_stored.
        call. call. destruct (fails E (S (calls w))); [eauto|].
        call. destruct (fails E (S (S (calls w)))); [eauto|].
        eapply post_mono.
        { eapply IH; [reflexivity|].
          apply same_identity_both_persist. exact Hsame. }
        intros o w' (Hc & Hh & Ho). split; [exact Hc|]. split; [exact Hh|].
        destruct o as [[res errs]|e]; [|exact Ho].
        destruct Ho as (Hr & He & Hpend). split; [|split; [exact He | exact Hpend]].
        rewrite Hr, <- app_assoc. f_equal. simpl. f_equal.
        unfold Spec.item_result.
        assert (Hkey : Spec.item_key item = k)
          by (unfold Spec.item_key; now rewrite Hk).
        rewrite Hkey, Hfdb. cbn [hd].
        now rewrite (Hcur (u "id")) by lit_neq.
Qed.

Lemma get_prop_not_null k item :
  Spec.not_null item = true -> get_prop k item <> None.
Proof. destruct item; simpl; congruence. Qed.

(** With no rejected call and no [null] element the loop returns. *)
Lemma bulk_loop_returns reason : forall items w results errors,
  post (bulk_loop E reason items results errors) w (fun o _ =>
    (forall n, fails E n = None) -> forallb Spec.not_null items = true ->
    exists r, o = Ok r).
Proof.
  induction items as [|item items IH]; intros w results errors.
  - apply post_ret. eauto.
  - cbn [bulk_loop forallb].
    destruct (get_prop (u "setting_key") item) as [k|] eqn:Hk.
    2:{ apply post_throw. intros _ Hnn. apply andb_prop in Hnn as [Hnn _].
        now apply (get_prop_not_null (u "setting_key")) in Hnn. }
    destruct (get_prop (u "setting_value") item) as [v|] eqn:Hv.
    2:{ apply post_throw. intros _ Hnn. apply andb_prop in Hnn as [Hnn _].
        now apply (get_prop_not_null (u "setting_value")) in Hnn. }
    assert (Hrec : forall w' res errs,
               post (bulk_loop E reason items res errs) w' (fun o _ =>
                 (forall n, fails E n = None) ->
                 Spec.not_null item && forallb Spec.not_null items = true ->
                 exists r, o = Ok r)).
    { intros w' res errs. eapply post_mono; [apply IH|].
      intros o w0 H Hcalm Hnn. apply andb_prop in Hnn as [_ Hnn]. auto. }
    destruct (negb (truthy k) || is_undefined v); [apply Hrec|].
    apply post_bind. apply post_db_call.
    destruct (fails E (calls w)) eqn:Hf.
    { intros Hcalm. rewrite Hcalm in Hf. discriminate. }
    destruct (fst _) as [|cur rest]; [apply Hrec|].
    replace v with (Spec.item_value item)
      by (unfold Spec.item_value; now rewrite Hv).
    rewrite prepare_item_stored.
    call. apply post_bind. apply post_db_call.
    match goal with |- context [fails E ?n] => destruct (fails E n) eqn:Hf1 end.
    { intros Hcalm. rewrite Hcalm in Hf1. discriminate. }
    apply post_bind. apply post_db_call.
    match goal with |- context [fails E ?n] => destruct (fails E n) eqn:Hf2 end.
    { intros Hcalm. rewrite Hcalm in Hf2. discriminate. }
    apply Hrec.
Qed.


Lemma put_bulk_update_post req db items :
  get (u "settings") (req_body req) = VArr items -> items <> [] ->
  let reason := get (u "change_reason") (req_body req) in
  let failing := filter (Spec.item_fails E db) items in
  let passing := filter (fun i => negb (Spec.item_fails E db i)) items in
  post (put_bulk_update E req) (fresh db) (fun o w =>
    match failing with
    | _ :: _ => committed w = db
    | [] => committed w = db \/ committed w = Spec.apply_bulk E reason items db
    end
    /\ ((forall n, fails E n = None) -> forallb Spec.not_null items = true ->
        match failing with
        | _ :: _ =>
            o = Ok (Spec.bulk_400 (map (Spec.item_result E db) passing)
                      (map Spec.item_error failing))
        | [] =>
            o = Ok (Spec.bulk_200 (map (Spec.item_result E db) passing))
            /\ committed w = Spec.apply_bulk E reason items db
        end)).
Proof.
  intros Hsettings Hne reason failing passing.
  unfold put_bulk_update, fresh. rewrite Hsettings.
  destruct items as [|item0 items0]; [congruence|].
  set (items := item0 :: items0) in *.
  assert (Hdone : forall w, committed w = db ->
            match failing with
            | _ :: _ => committed w = db
            | [] => committed w = db
                    \/ committed w = Spec.apply_bulk E reason items db
            end) by (intros; destruct failing; auto).
  apply post_try.
  call. destruct (fails E 0) eqn:F0.
  { apply post_ret. split; [apply Hdone; reflexivity|].
    intros Hc. rewrite Hc in F0. discriminate. }
  call. destruct (fails E 1) eqn:F1.
  { apply post_ret. split; [apply Hdone; reflexivity|].
    intros Hc. rewrite Hc in F1. discriminate. }
  apply post_try. apply post_bind.
  eapply post_mono.
  { apply post_conj.
    - apply (@bulk_loop_post reason db items _ db [] []);
        [reflexivity | apply same_identity_refl].
    - apply (bulk_loop_returns reason items). }
  cbn beta. intros o w [(Hc & Hh & Ho) Hret].
  cbn [committed held] in Hc, Hh.
  destruct o as [[res errs]|e].
  2:{ apply post_cleanup. intros e' w' Hw'. apply post_ret.
      split; [apply Hdone; congruence|].
      intros Hcalm Hnn. destruct (Hret Hcalm Hnn) as [r Hr]. discriminate. }
  destruct Ho as (Hres & Herrs & Hpend). cbn [app] in Hres, Herrs.
  fold reason failing passing in Hres, Herrs, Hpend. subst res errs.
  destruct failing as [|f fs] eqn:Hfail; cbn [map].
  - call. destruct (fails E (calls w)) eqn:Fc.
    { apply post_cleanup. intros e' w' Hw'. apply post_ret.
      split; [left; unfold tick in Hw'; cbn [committed] in Hw'; congruence|].
      intros Hcalm. rewrite Hcalm in Fc. discriminate. }
    call. call. unfold current. rewrite Hpend.
    split; [now right|]. intros _ _. split; reflexivity.
  - call. destruct (fails E (calls w)) eqn:Fc.
    { apply post_cleanup. intros e' w' Hw'. apply post_ret.
      split; [unfold tick in Hw'; cbn [committed] in Hw'; congruence|].
      intros Hcalm. rewrite Hcalm in Fc. discriminate. }
    call. call. split; [exact Hc|]. intros _ _. reflexivity.
Qed.

End Bulk.

Lemma filter_all {A} (p : A -> bool) (l : list A) :
  filter (fun a => negb (p a)) l = [] -> filter p l = l.
Proof.
  induction l as [|a l IH]; simpl; [reflexivity|].
  destruct (p a); simpl; [intros H; now rewrite IH | discriminate].
Qed.

Lemma filter_none {A} (p : A -> bool) (l : list A) :
  filter p l = [] -> filter (fun a => negb (p a)) l = l.
Proof.
  induction l as [|a l IH]; simpl; [reflexivity|].
  destruct (p a); simpl; [discriminate | intros H; now rewrite IH].
Qed.




(** An unencrypted setting stores the value it is handed. *)
Lemma prepare_plain (E : Env) cur v :
  truthy (get (u "is_encrypted") cur) = false ->
  prepareValueForStorage E cur v = Some v.
Proof. intros H. unfold prepareValueForStorage. now rewrite H. Qed.



End BulkFacts.

(* ===================================================================== *)
(** * The codecs *)
(* ===================================================================== *)

Module CodecFacts.
Import Js Encryption Examples JsFacts GenerationFacts.

Ltac dm := Z.to_euclidean_division_equations; lia.

(** Settling the comparisons of the goal by linear arithmetic. *)
Ltac settle :=
  repeat match goal with
  | |- context [?a <=? ?b] =>
      first [ replace (a <=? b) with true by (symmetry; apply Z.leb_le; lia)
            | replace (a <=? b) with false by (symmetry; apply Z.leb_gt; lia) ]
  | |- context [?a <? ?b] =>
      first [ replace (a <? b) with true by (symmetry; apply Z.ltb_lt; lia)
            | replace (a <? b) with false by (symmetry; apply Z.ltb_ge; lia) ]
  | |- context [?a =? ?b] =>
      first [ replace (a =? b) with true by (symmetry; apply Z.eqb_eq; lia)
            | replace (a =? b) with false by (symmetry; apply Z.eqb_neq; lia) ]
  end.

Ltac decode_step :=
  cbn [app utf8_decode_from andb d_lo d_hi d_cp d_need]; unfold utf8_start;
  settle; cbn [app andb d_lo d_hi d_cp d_need].

Lemma utf8_cp_roundtrip (cp : Z) (rest : bytes) :
  0 <= cp < 1114112 -> ~ (55296 <= cp <= 57343) ->
  utf8_decode_from None (utf8_of_cp cp ++ rest)
  = utf16_of_cp cp ++ utf8_decode_from None rest.
Proof.
  intros Hcp Hsur. unfold utf8_of_cp.
  destruct (Z.ltb_spec cp 128); [|destruct (Z.ltb_spec cp 2048);
                                  [|destruct (Z.ltb_spec cp 65536)]].
  - unfold utf16_of_cp. decode_step. reflexivity.
  - assert (Hq : cp = 64 * (cp / 64) + cp mod 64) by dm.
    assert (Hr : 0 <= cp mod 64 < 64) by dm.
    set (q := cp / 64) in *. set (r := cp mod 64) in *. clearbody q r.
    decode_step. decode_step.
    replace (((192 + q - 192) * 64 + (128 + r - 128))) with cp by lia.
    reflexivity.
  - assert (Hq : cp = 4096 * (cp / 4096) + 64 * ((cp / 64) mod 64) + cp mod 64)
      by dm.
    assert (Hb : 0 <= (cp / 64) mod 64 < 64) by dm.
    assert (Hr : 0 <= cp mod 64 < 64) by dm.
    set (a := cp / 4096) in *. set (b := (cp / 64) mod 64) in *.
    set (r := cp mod 64) in *. clearbody a b r.
    decode_step.
    destruct (Z.eqb_spec (224 + a) 224); destruct (Z.eqb_spec (224 + a) 237);
      try lia; decode_step; decode_step;
      replace ((((224 + a - 224) * 64 + (128 + b - 128)) * 64 + (128 + r - 128)))
        with cp by lia; reflexivity.
  - assert (Hq : cp = 262144 * (cp / 262144) + 4096 * ((cp / 4096) mod 64)
                      + 64 * ((cp / 64) mod 64) + cp mod 64) by dm.
    assert (Ha : 0 <= (cp / 4096) mod 64 < 64) by dm.
    assert (Hb : 0 <= (cp / 64) mod 64 < 64) by dm.
    assert (Hr : 0 <= cp mod 64 < 64) by dm.
    set (t := cp / 262144) in *. set (a := (cp / 4096) mod 64) in *.
    set (b := (cp / 64) mod 64) in *. set (r := cp mod 64) in *.
    clearbody t a b r.
    decode_step.
    destruct (Z.eqb_spec (240 + t) 240); destruct (Z.eqb_spec (240 + t) 244);
      try lia; decode_step; decode_step; decode_step;
      replace (((((240 + t - 240) * 64 + (128 + a - 128)) * 64
                 + (128 + b - 128)) * 64 + (128 + r - 128)))
        with cp by lia; reflexivity.
Qed.

Lemma utf8_of_cp_bytes (cp : Z) :
  0 <= cp < 1114112 -> Forall is_byte (utf8_of_cp cp).
Proof.
  intros Hcp. unfold utf8_of_cp, is_byte.
  destruct (Z.ltb_spec cp 128); [|destruct (Z.ltb_spec cp 2048);
                                  [|destruct (Z.ltb_spec cp 65536)]];
    repeat constructor; dm.
Qed.

Lemma is_high_range c : is_high c = true <-> 55296 <= c <= 56319.
Proof. unfold is_high. rewrite andb_true_iff, !Z.leb_le. tauto. Qed.

Lemma is_low_range c : is_low c = true <-> 56320 <= c <= 57343.
Proof. unfold is_low. rewrite andb_true_iff, !Z.leb_le. tauto. Qed.

Lemma is_high_false c : is_high c = false <-> ~ (55296 <= c <= 56319).
Proof. rewrite <- is_high_range. destruct (is_high c); intuition congruence. Qed.

Lemma is_low_false c : is_low c = false <-> ~ (56320 <= c <= 57343).
Proof. rewrite <- is_low_range. destruct (is_low c); intuition congruence. Qed.

Lemma pair_cp_range hi lo :
  is_high hi = true -> is_low lo = true ->
  65536 <= pair_cp hi lo < 1114112.
Proof.
  rewrite is_high_range, is_low_range. unfold pair_cp. lia.
Qed.

Lemma utf16_of_pair hi lo :
  is_high hi = true -> is_low lo = true ->
  utf16_of_cp (pair_cp hi lo) = [hi; lo].
Proof.
  rewrite is_high_range, is_low_range. intros Hh Hl.
  unfold utf16_of_cp, pair_cp.
  replace (65536 + (hi - 55296) * 1024 + (lo - 56320) <? 65536) with false
    by (symmetry; apply Z.ltb_ge; lia).
  f_equal; [|f_equal]; dm.
Qed.

(** The two facts by induction on a bound of the length, so that a
    surrogate pair can be taken off in one step. *)
Lemma utf8_round_trip_bounded (n : nat) : forall s,
  (length s <= n)%nat -> well_formed s = true ->
  utf8_decode (utf8_encode s) = s /\ Forall is_byte (utf8_encode s).
Proof.
  unfold utf8_decode.
  induction n as [|n IH]; intros s Hlen Hwf.
  - destruct s; [split; [reflexivity | constructor] | simpl in Hlen; lia].
  - destruct s as [|c r]; [split; [reflexivity | constructor]|].
    cbn [well_formed] in Hwf. cbn [utf8_encode].
    apply andb_prop in Hwf as [Hrange Hwf].
    apply andb_prop in Hrange as [H0 H1].
    apply Z.leb_le in H0. apply Z.ltb_lt in H1.
    destruct (is_high c) eqn:Hhigh.
    + destruct r as [|d r']; [discriminate|].
      apply andb_prop in Hwf as [Hlow Hwf]. rewrite Hlow.
      destruct (IH r') as [IHd IHb]; [simpl in Hlen; lia | exact Hwf |].
      pose proof (pair_cp_range c d Hhigh Hlow) as Hp.
      split.
      * rewrite utf8_cp_roundtrip by lia.
        now rewrite utf16_of_pair, IHd.
      * apply Forall_app. split; [apply utf8_of_cp_bytes; lia | exact IHb].
    + apply andb_prop in Hwf as [Hlow Hwf].
      apply negb_true_iff in Hlow. rewrite Hlow.
      destruct (IH r) as [IHd IHb]; [simpl in Hlen; lia | exact Hwf |].
      apply is_high_false in Hhigh. apply is_low_false in Hlow.
      split.
      * rewrite utf8_cp_roundtrip by lia. rewrite IHd.
        unfold utf16_of_cp.
        replace (c <? 65536) with true by (symmetry; apply Z.ltb_lt; lia).
        reflexivity.
      * apply Forall_app. split; [apply utf8_of_cp_bytes; lia | exact IHb].
Qed.

Lemma utf8_round_trip (s : jsstring) :
  well_formed s = true -> utf8_decode (utf8_encode s) = s.
Proof. intros H. now apply (utf8_round_trip_bounded (n := length s)). Qed.

Lemma utf8_encode_bytes (s : jsstring) :
  well_formed s = true -> Forall is_byte (utf8_encode s).
Proof. intros H. now apply (utf8_round_trip_bounded (n := length s)). Qed.

(** ** Base64 *)

Lemma b64_char_value (i : Z) :
  0 <= i < 64 ->
  b64_value (b64_char i) = Some i /\ (b64_char i =? 61) = false.
Proof.
  intros Hi.
  assert (Hall : forallb
            (fun k => match b64_value (b64_char (Z.of_nat k)) with
                      | Some v => v =? Z.of_nat k
                      | None => false
                      end && negb (b64_char (Z.of_nat k) =? 61))
            (seq 0 64) = true) by (vm_compute; reflexivity).
  rewrite forallb_forall in Hall.
  specialize (Hall (Z.to_nat i)). rewrite Z2Nat.id in Hall by lia.
  assert (Hin : In (Z.to_nat i) (seq 0 64)) by (apply in_seq; lia).
  apply Hall in Hin. apply andb_prop in Hin as [Hv Hp].
  apply negb_true_iff in Hp. split; [|exact Hp].
  destruct (b64_value (b64_char i)) as [v|]; [|discriminate].
  apply Z.eqb_eq in Hv. now subst.
Qed.

Lemma sextets_char (i : Z) (s : jsstring) :
  0 <= i < 64 -> b64_sextets (b64_char i :: s) = i :: b64_sextets s.
Proof.
  intros Hi. destruct (b64_char_value Hi) as [Hv Hp].
  cbn [b64_sextets]. now rewrite Hp, Hv.
Qed.

Lemma base64_round_trip_bounded (n : nat) : forall bs,
  (length bs <= n)%nat -> Forall is_byte bs ->
  forall fuel,
    (length (b64_sextets (base64_encode bs)) < fuel)%nat ->
    b64_bytes fuel (b64_sextets (base64_encode bs)) = bs.
Proof.
  unfold is_byte.
  induction n as [|n IH]; intros bs Hlen Hb fuel Hfuel.
  - destruct bs; [|simpl in Hlen; lia]. destruct fuel; reflexivity.
  - destruct bs as [|a [|b [|c r]]].
    + destruct fuel; reflexivity.
    + inversion Hb as [|? ? Ha _]; subst.
      cbn [base64_encode] in *.
      rewrite !sextets_char in * by dm.
      destruct fuel; [simpl in Hfuel; lia|].
      cbn. f_equal. dm.
    + inversion Hb as [|? ? Ha Hb']; subst.
      inversion Hb' as [|? ? Hb0 _]; subst.
      cbn [base64_encode] in *.
      rewrite !sextets_char in * by dm.
      destruct fuel; [simpl in Hfuel; lia|].
      cbn. f_equal; [dm|]. f_equal. dm.
    + inversion Hb as [|? ? Ha Hb']; subst.
      inversion Hb' as [|? ? Hb0 Hb'']; subst.
      inversion Hb'' as [|? ? Hc Hr]; subst.
      cbn [base64_encode] in *.
      rewrite !sextets_char in * by dm.
      destruct fuel; [simpl in Hfuel; lia|].
      cbn [b64_bytes]. cbn [length] in Hfuel.
      rewrite IH; [|simpl in Hlen; lia | exact Hr | lia].
      f_equal; [dm|]. f_equal; [dm|]. f_equal. dm.
Qed.

Lemma base64_round_trip (bs : bytes) :
  Forall is_byte bs -> base64_decode (base64_encode bs) = bs.
Proof.
  intros Hb. unfold base64_decode.
  apply (base64_round_trip_bounded (n := length bs)); auto.
Qed.

(** ** Hex *)

Lemma hex_digit_value (n : Z) :
  0 <= n < 16 -> digit_value 16 (hex_digit n) = Some n.
Proof.
  intros Hn. unfold hex_digit, digit_value.
  destruct (Z.ltb_spec n 10); settle; cbn [andb]; settle; f_equal; lia.
Qed.

Lemma hex_digit_not_colon (n : Z) :
  0 <= n < 16 -> (hex_digit n =? 58) = false.
Proof.
  intros Hn. unfold hex_digit. destruct (Z.ltb_spec n 10);
    apply Z.eqb_neq; lia.
Qed.

Lemma hex_round_trip_fuel (bs : bytes) : forall fuel,
  Forall is_byte bs -> (length bs <= fuel)%nat ->
  hex_decode_n fuel (hex_encode bs) = bs.
Proof.
  unfold is_byte.
  induction bs as [|b bs IH]; intros fuel Hb Hfuel.
  - destruct fuel; reflexivity.
  - inversion Hb as [|? ? Hb0 Hbs]; subst.
    destruct fuel; [simpl in Hfuel; lia|].
    cbn [hex_encode flat_map app hex_decode_n].
    rewrite !hex_digit_value by dm.
    f_equal; [dm|]. apply IH; [exact Hbs | simpl in Hfuel; lia].
Qed.

Lemma hex_encode_length (bs : bytes) :
  length (hex_encode bs) = (2 * length bs)%nat.
Proof.
  induction bs as [|b bs IH]; [reflexivity|].
  cbn [hex_encode flat_map app length]. fold (hex_encode bs). lia.
Qed.

Lemma hex_round_trip (bs : bytes) :
  Forall is_byte bs -> hex_decode (hex_encode bs) = bs.
Proof.
  intros Hb. unfold hex_decode. apply hex_round_trip_fuel; [exact Hb|].
  rewrite hex_encode_length. lia.
Qed.

Lemma hex_encode_no_colon (bs : bytes) :
  Forall is_byte bs -> includes 58 (hex_encode bs) = false.
Proof.
  unfold is_byte. induction 1 as [|b bs Hb Hbs IH]; [reflexivity|].
  cbn [hex_encode flat_map app includes existsb].
  rewrite !hex_digit_not_colon by dm. exact IH.
Qed.

(** ** Splitting at a separator *)

Lemma split_no_sep (sep : Z) (s : jsstring) :
  includes sep s = false -> split sep s = [s].
Proof.
  induction s as [|c s IH]; [reflexivity|].
  cbn [includes existsb split]. intros H.
  apply orb_false_iff in H as [Hc Hs]. rewrite Hc.
  unfold includes in IH. now rewrite (IH Hs).
Qed.

Lemma split_app (sep : Z) (a r : jsstring) :
  includes sep a = false -> split sep (a ++ sep :: r) = a :: split sep r.
Proof.
  induction a as [|c a IH]; cbn [includes existsb app split].
  - intros _. now rewrite Z.eqb_refl.
  - intros H. apply orb_false_iff in H as [Hc Ha]. rewrite Hc.
    unfold includes in IH. now rewrite (IH Ha).
Qed.

(** ** The two codecs *)

Lemma simpleEncrypt_string bf (p : jsstring) :
  simpleEncrypt bf (VStr p) = Some (base64_encode (utf8_encode p)).
Proof. destruct p; reflexivity. Qed.

Lemma simpleDecrypt_string bf (c : jsstring) :
  simpleDecrypt bf (VStr c) = Some (utf8_decode (base64_decode c)).
Proof. destruct c; reflexivity. Qed.

Section Authenticated.

Variable seal : bytes -> bytes -> bytes -> bytes * bytes.
Variable open : bytes -> bytes -> bytes -> bytes -> option bytes.
Variable K : option jsstring.

Hypothesis seal_bytes : forall k iv pt,
  Forall is_byte pt ->
  Forall is_byte (fst (seal k iv pt)) /\ Forall is_byte (snd (seal k iv pt)).
Hypothesis open_seal : forall k iv pt,
  open k iv (snd (seal k iv pt)) (fst (seal k iv pt)) = Some pt.

Lemma decrypt_encrypt (iv : bytes) (p : jsstring) :
  Forall is_byte iv -> well_formed p = true ->
  decrypt open K (encrypt seal K iv p) = p.
Proof.
  intros Hiv Hwf. destruct p as [|c p]; [reflexivity|].
  unfold encrypt.
  destruct (length (utf8_encode (normalizeKey (secretKey K))) =? 32)%nat eqn:Hk.
  - destruct (seal _ iv (utf8_encode (c :: p))) as [ct tag] eqn:Hseal.
    pose proof (seal_bytes (utf8_encode (normalizeKey (secretKey K))) iv
                  (utf8_encode_bytes (c :: p) Hwf)) as [Hct Htag].
    pose proof (open_seal (utf8_encode (normalizeKey (secretKey K))) iv
                  (utf8_encode (c :: p))) as Hopen.
    rewrite Hseal in Hct, Htag, Hopen. cbn [fst snd] in Hct, Htag, Hopen.
    set (e := hex_encode iv ++ u ":" ++ hex_encode tag ++ u ":" ++ hex_encode ct).
    assert (Hsplit : split 58 e = [hex_encode iv; hex_encode tag; hex_encode ct]).
    { subst e. change (u ":") with [58]. cbn [app].
      rewrite split_app by now apply hex_encode_no_colon.
      rewrite split_app by now apply hex_encode_no_colon.
      now rewrite split_no_sep by now apply hex_encode_no_colon. }
    assert (Hinc : includes 58 e = true).
    { subst e. change (u ":") with [58]. rewrite !includes_app.
      cbn. now rewrite orb_true_r. }
    assert (Hne : e <> []).
    { intros He. rewrite He in Hinc. discriminate. }
    unfold decrypt. destruct e as [|x e']; [congruence|].
    rewrite Hinc, Hsplit. cbn [negb orb length Nat.eqb].
    rewrite Hk, !hex_round_trip by assumption.
    rewrite Hopen. now apply utf8_round_trip.
  - unfold decrypt.
    destruct (negb (includes 58 (c :: p))
              || negb (length (split 58 (c :: p)) =? 3)%nat); [reflexivity|].
    destruct (split 58 (c :: p)) as [|p0 [|p1 [|p2 [|p3 ps]]]]; try reflexivity.
    now rewrite Hk.
Qed.

End Authenticated.

(** C8, as stated, fails: a string holding an unpaired surrogate does not
    come back from the fallback codec. *)
Lemma simple_codec_loses_lone_surrogate :
  exists c,
    simpleEncrypt (fun _ => None) (VStr [55296]) = Some c
    /\ simpleDecrypt (fun _ => None) (VStr c) = Some [65533]
    /\ simpleDecrypt (fun _ => None) (VStr c) <> Some [55296].
Proof.
  eexists. split; [reflexivity|]. split; [reflexivity | discriminate].
Qed.

(** C8, amended: for every string [p] without unpaired surrogates,
    [simpleDecrypt(simpleEncrypt(p)) = p], and, for a cipher whose
    [open] undoes its [seal], [decrypt(encrypt(p)) = p], whatever the
    configured key and the nonce. *)
Theorem codecs_round_trip (p : jsstring) :
  well_formed p = true ->
  (forall bf, exists c,
      simpleEncrypt bf (VStr p) = Some c /\ simpleDecrypt bf (VStr c) = Some p)
  /\ (forall seal open K iv,
        (forall k i pt, Forall is_byte pt ->
                        Forall is_byte (fst (seal k i pt))
                        /\ Forall is_byte (snd (seal k i pt))) ->
        (forall k i pt, open k i (snd (seal k i pt)) (fst (seal k i pt))
                        = Some pt) ->
        Forall is_byte iv ->
        decrypt open K (encrypt seal K iv p) = p).
Proof.
  intros Hwf. split.
  - intros bf. exists (base64_encode (utf8_encode p)).
    split; [apply simpleEncrypt_string|].
    rewrite simpleDecrypt_string, base64_round_trip
      by now apply utf8_encode_bytes.
    now rewrite utf8_round_trip.
  - intros seal open K iv Hbytes Hopen Hiv.
    now apply decrypt_encrypt.
Qed.

(** The amended claim on the text [hello], with the toy cipher. *)
Lemma codecs_round_trip_witness :
  (exists c,
      simpleEncrypt (fun _ => None) (VStr (u "hello")) = Some c
      /\ simpleDecrypt (fun _ => None) (VStr c) = Some (u "hello"))
  /\ decrypt toy_open None (encrypt toy_seal None (repeat 1 16) (u "hello"))
     = u "hello".
Proof.
  destruct (@codecs_round_trip (u "hello") eq_refl) as [Hsimple Hauth].
  split; [apply Hsimple|].
  apply Hauth.
  - intros k i pt Hpt. split; [exact Hpt|].
    unfold toy_seal, is_byte. cbn [snd]. apply Forall_forall.
    intros x Hx. apply repeat_spec in Hx. lia.
  - intros k i pt. reflexivity.
  - unfold is_byte. apply Forall_forall.
    intros x Hx. apply repeat_spec in Hx. lia.
Defined.

End CodecFacts.

(* ===================================================================== *)
(** * Splitting, joining and masking *)
(* ===================================================================== *)

Module SplitFacts.
Import Js Settings JsFacts CodecFacts.

Lemma split_nonempty (sep : Z) (s : jsstring) : split sep s <> [].
Proof.
  destruct s as [|c r]; cbn [split]; [discriminate|].
  destruct (c =? sep); [discriminate|].
  destruct (split sep r); discriminate.
Qed.

Lemma join_cons (sep p : jsstring) (ps : list jsstring) :
  ps <> [] -> join sep (p :: ps) = p ++ sep ++ join sep ps.
Proof. destruct ps; [congruence | reflexivity]. Qed.

(** Joining the parts of a split gives the string back. *)
Lemma join_split (sep : Z) (s : jsstring) : join [sep] (split sep s) = s.
Proof.
  induction s as [|c r IH]; [reflexivity|].
  cbn [split]. destruct (Z.eqb_spec c sep) as [->|Hne].
  - rewrite join_cons by apply split_nonempty. now rewrite IH.
  - destruct (split sep r) as [|p ps] eqn:Hs.
    + now apply split_nonempty in Hs.
    + destruct ps as [|q qs].
      * cbn [join] in *. now subst.
      * rewrite join_cons by discriminate.
        rewrite join_cons in IH by discriminate.
        rewrite <- IH. reflexivity.
Qed.

Lemma maskApiKey_parts (p body : jsstring) :
  includes 95 p = false ->
  maskApiKey (VStr (p ++ u "_" ++ body))
  = p ++ u "_..."
    ++ (if (length body <=? 6)%nat then []
        else substring_from (length body - 6) body).
Proof.
  intros Hp. unfold maskApiKey.
  assert (Ht : truthy (VStr (p ++ u "_" ++ body)) = true)
    by (destruct p; reflexivity).
  rewrite Ht. cbn [negb].
  change (u "_" ++ body) with (95 :: body).
  rewrite split_app by exact Hp.
  destruct (split 95 body) as [|q qs] eqn:Hs; [now apply split_nonempty in Hs|].
  rewrite <- Hs. change (u "_") with [95]. rewrite join_split.
  destruct (length body <=? 6)%nat; [now rewrite app_nil_r | reflexivity].
Qed.

(** X4: for a key [p_body] whose prefix [p] holds no underscore,
    [maskApiKey] returns [p_...] followed by the last six characters of
    [body], and by nothing when [body] has at most six characters; a
    string without an underscore and a value that is not a string are
    masked as [...]; so two keys with the same prefix and the same last
    six characters have the same mask. *)
Theorem maskApiKey_shows_prefix_and_last_six :
  (forall p body,
      includes 95 p = false ->
      maskApiKey (VStr (p ++ u "_" ++ body))
      = p ++ u "_..."
        ++ (if (length body <=? 6)%nat then []
            else substring_from (length body - 6) body))
  /\ (forall s, includes 95 s = false -> maskApiKey (VStr s) = u "...")
  /\ (forall v, is_string v = false -> maskApiKey v = u "...")
  /\ (forall p body body',
        includes 95 p = false ->
        (6 < length body)%nat -> (6 < length body')%nat ->
        substring_from (length body - 6) body
        = substring_from (length body' - 6) body' ->
        maskApiKey (VStr (p ++ u "_" ++ body))
        = maskApiKey (VStr (p ++ u "_" ++ body'))).
Proof.
  split; [exact maskApiKey_parts|]. split; [|split].
  - intros s Hs. unfold maskApiKey.
    destruct (negb (truthy (VStr s))); [reflexivity|].
    now rewrite split_no_sep.
  - intros v Hv. destruct v; try reflexivity. discriminate.
  - intros p body body' Hp Hb Hb' Heq.
    rewrite !maskApiKey_parts by exact Hp.
    apply Nat.leb_gt in Hb, Hb'. rewrite Hb, Hb'. now rewrite Heq.
Qed.

(** A key with the prefix [pk], and its random part alone. *)
Lemma maskApiKey_shows_prefix_and_last_six_witness :
  maskApiKey (VStr (u "pk" ++ u "_" ++ u "9f8e7d6c5b4a39281706abcd"))
  = u "pk_...06abcd"
  /\ maskApiKey (VStr (u "9f8e7d6c5b4a39281706abcd")) = u "...".
Proof.
  split.
  - exact (proj1 maskApiKey_shows_prefix_and_last_six
             (u "pk") (u "9f8e7d6c5b4a39281706abcd") eq_refl).
  - exact (proj1 (proj2 maskApiKey_shows_prefix_and_last_six)
             (u "9f8e7d6c5b4a39281706abcd") eq_refl).
Defined.

End SplitFacts.

(* ===================================================================== *)
(** * The key of the cipher *)
(* ===================================================================== *)

Module KeyFacts.
Import Js Encryption Settings Examples JsFacts CodecFacts SplitFacts.

Lemma secretKey_nonempty K : secretKey K <> [].
Proof. unfold secretKey. destruct K as [[|c k]|]; discriminate. Qed.

Lemma normalizeKey_eq (key : jsstring) :
  key <> [] ->
  normalizeKey key = firstn 32 key ++ repeat 48 (32 - length key).
Proof.
  intros Hne. unfold normalizeKey, padEnd, substring_to.
  destruct key as [|c k]; [congruence|].
  set (s := c :: k) in *.
  destruct (Nat.ltb_spec (length s) 32).
  - rewrite firstn_all2 by lia. reflexivity.
  - destruct (Nat.ltb_spec 32 (length s)).
    + replace (32 - length s)%nat with 0%nat by lia. cbn [repeat].
      now rewrite app_nil_r.
    + replace (32 - length s)%nat with 0%nat by lia. cbn [repeat].
      rewrite app_nil_r. rewrite firstn_all2 by lia. reflexivity.
Qed.

Lemma normalizeKey_length (key : jsstring) :
  key <> [] -> length (normalizeKey key) = 32%nat.
Proof.
  intros Hne. rewrite normalizeKey_eq by exact Hne.
  rewrite length_app, length_firstn, repeat_length. lia.
Qed.

(** X1: [normalizeKey] turns every non-empty key into its first 32
    characters, padded at the end with [0] up to 32 characters: the
    result has 32 characters, and normalizing it again changes nothing. *)
Theorem normalizeKey_pads_or_truncates (key : jsstring) :
  key <> [] ->
  normalizeKey key = firstn 32 key ++ repeat 48 (32 - length key)
  /\ length (normalizeKey key) = 32%nat
  /\ normalizeKey (normalizeKey key) = normalizeKey key.
Proof.
  intros Hne. split; [now apply normalizeKey_eq|].
  pose proof (normalizeKey_length Hne) as Hlen. split; [exact Hlen|].
  assert (Hn : normalizeKey key <> []).
  { intros H. rewrite H in Hlen. discriminate. }
  rewrite (normalizeKey_eq Hn), Hlen. cbn [repeat Nat.sub].
  rewrite app_nil_r. apply firstn_all2. lia.
Qed.

(** A key of three characters. *)
Lemma normalizeKey_pads_or_truncates_witness :
  normalizeKey (u "k3y") = firstn 32 (u "k3y") ++ repeat 48 (32 - 3)
  /\ length (normalizeKey (u "k3y")) = 32%nat
  /\ normalizeKey (normalizeKey (u "k3y")) = normalizeKey (u "k3y").
Proof.
  apply (@normalizeKey_pads_or_truncates (u "k3y")). discriminate.
Defined.

(** ** The bytes of the key *)

Lemma utf8_of_cp_length cp :
  length (utf8_of_cp cp)
  = if cp <? 128 then 1%nat else if cp <? 2048 then 2%nat
    else if cp <? 65536 then 3%nat else 4%nat.
Proof.
  unfold utf8_of_cp.
  destruct (cp <? 128), (cp <? 2048), (cp <? 65536); reflexivity.
Qed.

(** An ASCII string is its own UTF-8 encoding. *)
Lemma utf8_encode_ascii (s : jsstring) :
  Forall (fun c => c < 128) s -> utf8_encode s = s.
Proof.
  induction 1 as [|c s Hc Hs IH]; [reflexivity|].
  cbn [utf8_encode].
  replace (is_high c) with false
    by (symmetry; apply is_high_false; lia).
  replace (is_low c) with false
    by (symmetry; apply is_low_false; lia).
  unfold utf8_of_cp.
  replace (c <? 128) with true by (symmetry; apply Z.ltb_lt; lia).
  cbn [app]. now rewrite IH.
Qed.

(** Encoding never shortens, and keeps the length of ASCII only. *)
Lemma utf8_encode_grows (n : nat) : forall s,
  (length s <= n)%nat ->
  (length s <= length (utf8_encode s))%nat
  /\ (length (utf8_encode s) = length s -> Forall (fun c => c < 128) s).
Proof.
  induction n as [|n IH]; intros s Hlen.
  - destruct s; [split; [reflexivity | constructor] | simpl in Hlen; lia].
  - destruct s as [|c r]; [split; [reflexivity | constructor]|].
    cbn [utf8_encode]. cbn [length] in Hlen.
    destruct (is_high c) eqn:Hh.
    + apply is_high_range in Hh.
      destruct r as [|d r'].
      * cbn. split; [lia | intros; lia].
      * destruct (is_low d) eqn:Hl.
        -- destruct (IH r') as [Hle _]; [cbn [length] in Hlen; lia|].
           apply is_low_range in Hl.
           rewrite length_app, utf8_of_cp_length.
           unfold pair_cp.
           replace (_ <? 128) with false by (symmetry; apply Z.ltb_ge; lia).
           replace (_ <? 2048) with false by (symmetry; apply Z.ltb_ge; lia).
           replace (_ <? 65536) with false by (symmetry; apply Z.ltb_ge; lia).
           cbn [length]. split; [lia | intros; lia].
        -- destruct (IH (d :: r')) as [Hle _]; [lia|].
           rewrite length_app. cbn [length utf8_of_cp] in *.
           change (length (utf8_of_cp 65533)) with 3%nat.
           split; [lia | intros; lia].
    + destruct (IH r) as [Hle Heq]; [lia|].
      destruct (is_low c) eqn:Hl.
      * rewrite length_app. change (length (utf8_of_cp 65533)) with 3%nat.
        cbn [length]. split; [lia | intros; lia].
      * rewrite length_app, utf8_of_cp_length. cbn [length].
        destruct (Z.ltb_spec c 128).
        -- split; [lia|]. intros H1. constructor; [lia|]. apply Heq. lia.
        -- destruct (c <? 2048), (c <? 65536); split; try lia; intros; lia.
Qed.

Lemma utf8_encode_same_length (s : jsstring) :
  length (utf8_encode s) = length s <-> Forall (fun c => c < 128) s.
Proof.
  split.
  - apply (utf8_encode_grows (n := length s)). lia.
  - intros H. now rewrite utf8_encode_ascii.
Qed.

(** X2: the normalized key always has 32 characters, but the cipher
    takes its UTF-8 bytes.  When the 32 characters are ASCII the key is
    its own 32 bytes and [encrypt] returns the three hex fields
    [iv:tag:ciphertext]; when one of them is not, the key is longer than
    32 bytes, [createCipheriv] throws, and [encrypt] returns the text as
    it is, as [decrypt] does. *)
Theorem encrypt_needs_ascii_key
  (seal : bytes -> bytes -> bytes -> bytes * bytes)
  (open : bytes -> bytes -> bytes -> bytes -> option bytes)
  (K : option jsstring) (iv : bytes) (text : jsstring) :
  let key := normalizeKey (secretKey K) in
  text <> [] ->
  length key = 32%nat
  /\ (Forall (fun c => c < 128) key ->
      utf8_encode key = key
      /\ encrypt seal K iv text
         = hex_encode iv ++ u ":"
           ++ hex_encode (snd (seal key iv (utf8_encode text))) ++ u ":"
           ++ hex_encode (fst (seal key iv (utf8_encode text))))
  /\ (~ Forall (fun c => c < 128) key ->
      encrypt seal K iv text = text /\ decrypt open K text = text).
Proof.
  intros key Hne.
  assert (Hlen : length key = 32%nat)
    by (apply normalizeKey_length, secretKey_nonempty).
  split; [exact Hlen|]. split.
  - intros Hascii. pose proof (utf8_encode_ascii Hascii) as Henc.
    split; [exact Henc|].
    unfold encrypt. destruct text as [|c t]; [congruence|].
    fold key. rewrite Henc, Hlen. cbn [Nat.eqb].
    now destruct (seal key iv (utf8_encode (c :: t))).
  - intros Hbad.
    assert (Hk : (length (utf8_encode key) =? 32)%nat = false).
    { apply Nat.eqb_neq. intros H. apply Hbad.
      apply utf8_encode_same_length. congruence. }
    split.
    + unfold encrypt. destruct text; [congruence|]. fold key. now rewrite Hk.
    + unfold decrypt. destruct text as [|c t]; [congruence|].
      destruct (negb (includes 58 (c :: t))
                || negb (length (split 58 (c :: t)) =? 3)%nat); [reflexivity|].
      destruct (split 58 (c :: t)) as [|p0 [|p1 [|p2 [|p3 ps]]]];
        try reflexivity.
      fold key. now rewrite Hk.
Qed.

(** With the key [é] the text [secret] is stored as it is. *)
Lemma encrypt_needs_ascii_key_witness :
  encrypt toy_seal (Some [233]) (repeat 1 16) (u "secret") = u "secret"
  /\ decrypt toy_open (Some [233]) (u "secret") = u "secret".
Proof.
  apply (encrypt_needs_ascii_key toy_seal toy_open (Some [233]) (repeat 1 16)
           (text := u "secret")).
  - discriminate.
  - intros H. inversion H; subst. lia.
Defined.

(** ** What [decrypt] hands back *)

Lemma b64_char_not_colon (i : Z) : 0 <= i < 64 -> (b64_char i =? 58) = false.
Proof.
  intros Hi.
  assert (Hall : forallb (fun k => negb (b64_char (Z.of_nat k) =? 58))
                   (seq 0 64) = true) by (vm_compute; reflexivity).
  rewrite forallb_forall in Hall.
  specialize (Hall (Z.to_nat i)). rewrite Z2Nat.id in Hall by lia.
  apply negb_true_iff, Hall, in_seq. lia.
Qed.

Lemma base64_no_colon_bounded (n : nat) : forall bs,
  (length bs <= n)%nat -> Forall is_byte bs ->
  includes 58 (base64_encode bs) = false.
Proof.
  unfold is_byte.
  induction n as [|n IH]; intros bs Hlen Hb.
  - destruct bs; [reflexivity | simpl in Hlen; lia].
  - destruct bs as [|a [|b [|c r]]]; [reflexivity| | |].
    + inversion Hb as [|? ? Ha _]; subst.
      cbn [base64_encode includes existsb].
      rewrite !b64_char_not_colon by dm. reflexivity.
    + inversion Hb as [|? ? Ha Hb']; subst.
      inversion Hb' as [|? ? Hb0 _]; subst.
      cbn [base64_encode includes existsb].
      rewrite !b64_char_not_colon by dm. reflexivity.
    + inversion Hb as [|? ? Ha Hb']; subst.
      inversion Hb' as [|? ? Hb0 Hb'']; subst.
      inversion Hb'' as [|? ? Hc Hr]; subst.
      cbn [base64_encode includes existsb].
      rewrite !b64_char_not_colon by dm. cbn [orb].
      apply IH; [cbn [length] in Hlen; lia | exact Hr].
Qed.

Lemma split_three_join (s p0 p1 p2 : jsstring) :
  split 58 s = [p0; p1; p2] -> s = p0 ++ u ":" ++ p1 ++ u ":" ++ p2.
Proof.
  intros Hs. rewrite <- (join_split 58 s), Hs. reflexivity.
Qed.

(** X3: [decrypt] returns its argument unchanged when it holds no colon,
    when it does not split into exactly three fields at the colons, and
    in particular on every Base64 text, so on everything the fallback
    mode stored; whenever it returns something else, the argument is
    three fields [iv:tag:ciphertext] that the cipher opened, and the
    result is the UTF-8 text of the opened bytes. *)
Theorem decrypt_degrades_to_identity
  (open : bytes -> bytes -> bytes -> bytes -> option bytes)
  (K : option jsstring) :
  (forall s, includes 58 s = false -> decrypt open K s = s)
  /\ (forall s, length (split 58 s) <> 3%nat -> decrypt open K s = s)
  /\ (forall bs, Forall is_byte bs ->
                 decrypt open K (base64_encode bs) = base64_encode bs)
  /\ (forall s,
        decrypt open K s <> s ->
        exists p0 p1 p2 pt,
          s = p0 ++ u ":" ++ p1 ++ u ":" ++ p2
          /\ open (utf8_encode (normalizeKey (secretKey K)))
               (hex_decode p0) (hex_decode p1) (hex_decode p2) = Some pt
          /\ decrypt open K s = utf8_decode pt).
Proof.
  assert (H1 : forall s, includes 58 s = false -> decrypt open K s = s).
  { intros s Hs. unfold decrypt. destruct s; [reflexivity|]. now rewrite Hs. }
  split; [exact H1|]. split; [|split].
  - intros s Hs. unfold decrypt. destruct s as [|c s]; [reflexivity|].
    apply Nat.eqb_neq in Hs. rewrite Hs. cbn [negb].
    now rewrite orb_true_r.
  - intros bs Hb. apply H1.
    now apply (base64_no_colon_bounded (n := length bs)).
  - intros s Hs. unfold decrypt in *. destruct s as [|c s]; [congruence|].
    destruct (negb (includes 58 (c :: s))
              || negb (length (split 58 (c :: s)) =? 3)%nat); [congruence|].
    destruct (split 58 (c :: s)) as [|p0 [|p1 [|p2 [|p3 ps]]]] eqn:Hsplit;
      try congruence.
    destruct (length (utf8_encode (normalizeKey (secretKey K))) =? 32)%nat;
      [|congruence].
    destruct (open _ _ _ _) as [pt|] eqn:Hopen; [|congruence].
    exists p0, p1, p2, pt. split; [now apply split_three_join|].
    split; [exact Hopen | reflexivity].
Qed.

End KeyFacts.

(* ===================================================================== *)
(** * Generated strings *)
(* ===================================================================== *)

Module SecretFacts.
Import Js Encryption Settings Examples JsFacts GenerationFacts SplitFacts.

(** A loop that appends one unit per round. *)
Lemma flat_map_units {A : Type} (P : Z -> Prop) (f : A -> jsstring)
  (l : list A) :
  (forall a, In a l -> exists c, f a = [c] /\ P c) ->
  length (flat_map f l) = length l /\ Forall P (flat_map f l).
Proof.
  induction l as [|a l IH]; intros H; [split; [reflexivity | constructor]|].
  destruct (H a (or_introl eq_refl)) as (c & Hc & HP).
  destruct IH as [IHl IHP]; [intros b Hb; apply H; now right|].
  cbn [flat_map]. rewrite Hc. cbn [app length].
  split; [now rewrite IHl | now constructor].
Qed.

Lemma charAt_alphanumeric (i : nat) :
  (i < 62)%nat -> exists c, charAt i alphanumeric = [c] /\ In c alphanumeric.
Proof.
  intros Hi. unfold charAt.
  destruct (nth_error alphanumeric i) as [c|] eqn:Hc.
  - exists c. split; [reflexivity|]. eapply nth_error_In; eauto.
  - apply nth_error_None in Hc. change (length alphanumeric) with 62%nat in Hc.
    lia.
Qed.

Lemma generateAlphanumericString_shape (E : Env) (n : nat) :
  length (randomBytes E n) = n ->
  length (generateAlphanumericString E n) = n
  /\ Forall (fun c => In c alphanumeric) (generateAlphanumericString E n).
Proof.
  intros Hlen. unfold generateAlphanumericString.
  match goal with
  | |- context [flat_map ?f ?l] =>
      destruct (@flat_map_units nat (fun c => In c alphanumeric) f l)
        as [Hl Ha]; [|rewrite length_seq in Hl; now split]
  end.
  intros i Hi. apply in_seq in Hi.
  destruct (nth_error (randomBytes E n) i) as [b|] eqn:Hb.
  - apply charAt_alphanumeric.
    assert (0 <= b mod 62 < 62) by (apply Z.mod_pos_bound; lia). lia.
  - apply nth_error_None in Hb. lia.
Qed.

(** X5: when [crypto.randomBytes(32)] delivers its 32 bytes,
    [generateWebhookSecret] returns [whsec_] followed by 32 characters
    of the alphabet, 38 characters in all; the mask of a generated
    secret is the constant [whsec_...], which shows none of the random
    characters. *)
Theorem generated_webhook_secret_shape (E : Env) :
  length (randomBytes E 32) = 32%nat ->
  exists r,
    generateWebhookSecret E = u "whsec_" ++ r
    /\ length r = 32%nat
    /\ Forall (fun c => In c alphanumeric) r
    /\ maskSecret (VStr (generateWebhookSecret E)) = Some (u "whsec_...").
Proof.
  intros Hlen. exists (generateAlphanumericString E 32).
  destruct (generateAlphanumericString_shape E Hlen) as [Hl Ha].
  split; [reflexivity|]. split; [exact Hl|]. split; [exact Ha|].
  reflexivity.
Qed.

(** The secret drawn from 32 zero bytes. *)
Lemma generated_webhook_secret_shape_witness :
  exists r,
    generateWebhookSecret calm = u "whsec_" ++ r
    /\ length r = 32%nat
    /\ Forall (fun c => In c alphanumeric) r
    /\ maskSecret (VStr (generateWebhookSecret calm)) = Some (u "whsec_...").
Proof. apply (generated_webhook_secret_shape calm). reflexivity. Defined.

(** ** [generateRandomString] *)

Lemma random_run_shape (E : Env) (n : nat) :
  (forall i, (math_random E i < 62)%nat) ->
  let s := flat_map (fun i => charAt (math_random E i) alphanumeric) (seq 0 n) in
  length s = n /\ Forall (fun c => In c alphanumeric) s.
Proof.
  intros Hr s. subst s.
  match goal with
  | |- context [flat_map ?f ?l] =>
      destruct (@flat_map_units nat (fun c => In c alphanumeric) f l)
        as [Hl Ha]; [|rewrite length_seq in Hl; now split]
  end.
  intros i _. apply charAt_alphanumeric, Hr.
Qed.

Lemma pow10_pos k : 0 <= k -> 0 < pow10 k.
Proof. intros Hk. unfold pow10. apply Z.pow_pos_nonneg; lia. Qed.

(** The loop runs as many rounds as the least integer that is not below
    its bound. *)
Lemma loop_rounds_ceiling (m : N) (e n : Z) :
  m <> 0%N ->
  (0 <= e -> n = Z.of_N m * 10 ^ e) ->
  (e < 0 -> (n - 1) * 10 ^ (- e) < Z.of_N m <= n * 10 ^ (- e)) ->
  loop_rounds (Fin false m e) = Some n.
Proof.
  intros Hm Hpos Hneg. unfold loop_rounds.
  destruct (Z.leb_spec 0 e) as [He|He].
  - now rewrite (Hpos He).
  - f_equal. specialize (Hneg He). unfold pow10.
    pose proof (@pow10_pos (- e) ltac:(lia)) as Hd. unfold pow10 in Hd.
    set (d := 10 ^ (- e)) in *. clearbody d.
    symmetry. apply Z.div_unique with (r := Z.of_N m + d - 1 - d * n); lia.
Qed.



Lemma forallb_includes (l s : jsstring) :
  Forall (fun c => In c l) s -> forallb (fun c => includes c l) s = true.
Proof.
  induction 1 as [|c s Hc Hs IH]; [reflexivity|].
  cbn [forallb]. rewrite IH, andb_true_r.
  unfold includes. apply existsb_exists. exists c.
  split; [exact Hc | apply Z.eqb_refl].
Qed.

(** X7: with [Math.random] drawing inside the alphabet,
    [generateApiKey(p)] returns [p], an underscore and 24 characters of
    the alphabet, the form the specification asks of a key, with [pk]
    for [p] when no prefix is given; when [p] holds no underscore the
    mask of that key is [p_...] followed by the last six of the 24
    characters. *)
Theorem generateApiKey_has_key_form (E : Env) (p : jsstring) :
  (forall i, (math_random E i < 62)%nat) ->
  exists key r,
    generateApiKey E (VStr p) = Some key
    /\ key = p ++ u "_" ++ r
    /\ Spec.has_key_form p key
    /\ (includes 95 p = false ->
        maskApiKey (VStr key) = p ++ u "_..." ++ substring_from 18 r)
    /\ generateApiKey E VUndefined = Some (u "pk" ++ u "_" ++ r).
Proof.
  intros Hr.
  set (r := flat_map (fun i => charAt (math_random E i) alphanumeric)
              (seq 0 24)).
  destruct (random_run_shape E 24 Hr) as [Hl Ha]. fold r in Hl, Ha.
  exists (p ++ u "_" ++ r), r.
  split; [reflexivity|]. split; [reflexivity|]. split; [|split].
  - exists r. split; [reflexivity|]. split; [exact Hl|].
    now apply forallb_includes.
  - intros Hp. rewrite maskApiKey_parts by exact Hp. rewrite Hl. reflexivity.
  - reflexivity.
Qed.

(** The key generated for the prefix [sk]. *)
Lemma generateApiKey_has_key_form_witness :
  exists key r,
    generateApiKey zero_draws (VStr (u "sk")) = Some key
    /\ key = u "sk" ++ u "_" ++ r
    /\ Spec.has_key_form (u "sk") key
    /\ (includes 95 (u "sk") = false ->
        maskApiKey (VStr key) = u "sk" ++ u "_..." ++ substring_from 18 r)
    /\ generateApiKey zero_draws VUndefined = Some (u "pk" ++ u "_" ++ r).
Proof.
  apply (generateApiKey_has_key_form zero_draws (u "sk")).
  intros i. cbn. lia.
Defined.

End SecretFacts.

(* ===================================================================== *)
(** * The listing of settings *)
(* ===================================================================== *)

Module GroupFacts.
Import Js Encryption Settings Examples JsFacts MonadFacts.

Lemma group_push_step (grouped : obj) (done : list obj) (s : obj) :
  (forall k, lookup k grouped = Spec.group_of k done) ->
  forall k, lookup k (group_push grouped s) = Spec.group_of k (done ++ [s]).
Proof.
  intros Inv k. unfold group_push, Spec.group_of in *.
  rewrite filter_app. cbn [filter].
  set (c := js_String (get (u "setting_category") s)).
  destruct (str_eqb c k) eqn:Hck.
  - apply str_eqb_eq in Hck. subst k. specialize (Inv c).
    destruct (filter _ done) as [|x l] eqn:Hf.
    + rewrite Inv. now rewrite lookup_set_same.
    + rewrite Inv. rewrite lookup_set_same. cbn [app map].
      now rewrite map_app.
  - apply str_eqb_neq in Hck. rewrite app_nil_r.
    destruct (lookup c grouped) as [[]|];
      rewrite lookup_set_other by exact Hck; apply Inv.
Qed.

Lemma group_fold (settings : list obj) : forall grouped done,
  (forall k, lookup k grouped = Spec.group_of k done) ->
  forall k, lookup k (fold_left group_push settings grouped)
            = Spec.group_of k (done ++ settings).
Proof.
  induction settings as [|s l IH]; intros grouped done Inv k; cbn [fold_left].
  - rewrite app_nil_r. apply Inv.
  - replace (done ++ s :: l) with ((done ++ [s]) ++ l)
      by (rewrite <- app_assoc; reflexivity).
    apply IH. now apply group_push_step.
Qed.

(** Decoding a row touches its value and its two JSON columns only. *)
Lemma decode_row_columns (E : Env) (row setting : obj) w w' :
  decode_row E row w = (Ok setting, w') ->
  forall c, c <> u "setting_value" -> c <> u "options" ->
            c <> u "extra_config" -> get c setting = get c row.
Proof.
  unfold decode_row. intros H c H1 H2 H3.
  bind_ok H. bind_ok H.
  assert (Ha0 : get c a0 = get c row).
  { destruct (truthy (get (u "options") row)).
    - bind_ok Hrun0. inversion Hrun0; subst.
      now rewrite !get_set_other by congruence.
    - inversion Hrun0; subst. now rewrite get_set_other by congruence. }
  destruct (truthy (get (u "extra_config") row)).
  - bind_ok H. inversion H; subst.
    rewrite get_set_other by congruence. exact Ha0.
  - inversion H; subst. exact Ha0.
Qed.

(** Decoding leaves the state alone. *)
Lemma decode_rows_post (E : Env) (rows : list obj) : forall w,
  post (decode_rows E rows) w (fun o w' =>
    w' = w
    /\ match o with
       | Ok settings =>
           Forall2 (fun row s =>
                      forall c, c <> u "setting_value" -> c <> u "options" ->
                                c <> u "extra_config" -> get c s = get c row)
             rows settings
       | Throw _ => True
       end).
Proof.
  induction rows as [|row rows IH]; intros w; cbn [decode_rows].
  - apply post_ret. split; [reflexivity | constructor].
  - apply post_bind. unfold post at 1.
    destruct (decode_row E row w) as [[s|e] w1] eqn:Hrow; cbn [fst snd].
    + assert (Hw1 : w1 = w).
      { unfold decode_row, bind, lift, ret, throw in Hrow.
        destruct (processSettingValue E row _); [|discriminate].
        destruct (truthy (get (u "options") row));
          destruct (truthy (get (u "extra_config") row));
          try destruct (JSON_parse (get (u "options") row));
          try destruct (JSON_parse (get (u "extra_config") row));
          now inversion Hrow. }
      pose proof (decode_row_columns _ _ _ Hrow) as Hcols. subst w1.
      apply post_bind. eapply post_mono; [apply IH|].
      intros [ss|e] w2 [Hw2 Hss]; subst w2.
      * apply post_ret. split; [reflexivity|]. now constructor.
      * split; [reflexivity | exact I].
    + assert (Hw1 : w1 = w).
      { unfold decode_row, bind, lift, ret, throw in Hrow.
        destruct (processSettingValue E row _); [|now inversion Hrow].
        destruct (truthy (get (u "options") row));
          destruct (truthy (get (u "extra_config") row));
          try destruct (JSON_parse (get (u "options") row));
          try destruct (JSON_parse (get (u "extra_config") row));
          now inversion Hrow. }
      split; [exact Hw1 | exact I].
Qed.

(** X9: when [GET /settings] answers 200 (no category being a name
    that the grouping object inherits), the settings it returns are the
    rows of the query, decoded one by one with their other columns as
    they are; [count] is their number; [data] holds, under each category
    that occurs, the array of the settings of that category in the order
    of the query, and nothing under any other name; and the connection
    is back in the pool. *)
Theorem get_settings_groups_by_category (E : Env) (req : Request) (db : DB)
  (resp : Response) (w : World) :
  let rows :=
    sql_order E (u "setting_category, sort_order, setting_name")
      (filter (fun row =>
         (if truthy (get (u "category") (query req))
          then col_eq E (u "setting_category")
                 (get (u "category") (query req)) row
          else true)
         && (if truthy (get (u "key") (query req))
             then col_eq E (u "setting_key") (get (u "key") (query req)) row
             else true)
         && (if negb (truthy (get (u "include_inactive") (query req)))
                || is_str (u "false") (get (u "include_inactive") (query req))
             then is_active_row E row else true))
         (system_settings db)) in
  Forall (fun row => ~ In (js_String (get (u "setting_category") row))
                          Spec.object_prototype_names) (system_settings db) ->
  run (get_settings E) req db = (Ok resp, w) -> status resp = 200 ->
  exists settings grouped,
    Forall2 (fun row s =>
               forall c, c <> u "setting_value" -> c <> u "options" ->
                         c <> u "extra_config" -> get c s = get c row)
      rows settings
    /\ get (u "count") (body resp) = VInt (Z.of_nat (length settings))
    /\ get (u "data") (body resp) = VObj grouped
    /\ (forall k, lookup k grouped = Spec.group_of k settings)
    /\ held w = 0%nat.
Proof.
  intros rows _ H Hst.
  assert (Hpost : post (get_settings E req) (fresh db) (fun o w0 =>
            forall r, o = Ok r -> status r = 200 ->
            exists settings grouped,
              Forall2 (fun row s =>
                         forall c, c <> u "setting_value" ->
                                   c <> u "options" ->
                                   c <> u "extra_config" ->
                                   get c s = get c row)
                rows settings
              /\ get (u "count") (body r) = VInt (Z.of_nat (length settings))
              /\ get (u "data") (body r) = VObj grouped
              /\ (forall k, lookup k grouped = Spec.group_of k settings)
              /\ held w0 = 0%nat)).
  { unfold get_settings, fresh. apply post_try.
    call. destruct (fails E 0).
    { apply post_ret. intros r Hr Hs. inversion Hr; subst. discriminate. }
    call. destruct (fails E 1).
    { apply post_ret. intros r Hr Hs. inversion Hr; subst. discriminate. }
    call. apply post_bind. fold rows.
    eapply post_mono; [apply decode_rows_post|].
    intros [settings|e] w0 [Hw0 Hcols]; subst w0.
    - apply post_ret. intros r Hr _. inversion Hr; subst r.
      exists settings, (fold_left group_push settings []).
      split; [exact Hcols|]. split; [reflexivity|]. split; [reflexivity|].
      split; [|reflexivity].
      intros k. apply (group_fold settings [] []). reflexivity.
    - apply post_ret. intros r Hr Hs. inversion Hr; subst. discriminate. }
  apply (@post_run _ _ _ _ Hpost _ _ H); [reflexivity | exact Hst].
Qed.

(** The two settings of the worked database, each under its category. *)
Lemma get_settings_groups_by_category_witness :
  exists resp w settings grouped,
    run (get_settings calm) (request [] [] []) shop = (Ok resp, w)
    /\ Forall2 (fun row s =>
                  forall c, c <> u "setting_value" -> c <> u "options" ->
                            c <> u "extra_config" -> get c s = get c row)
         [site_name; enable_sms] settings
    /\ get (u "count") (body resp) = VInt (Z.of_nat (length settings))
    /\ get (u "data") (body resp) = VObj grouped
    /\ (forall k, lookup k grouped = Spec.group_of k settings)
    /\ held w = 0%nat.
Proof.
  assert (Hrun : exists resp w,
             run (get_settings calm) (request [] [] []) shop = (Ok resp, w)
             /\ status resp = 200).
  { do 2 eexists. split; [vm_compute; reflexivity | reflexivity]. }
  destruct Hrun as (resp & w & Hr & Hs).
  assert (Hnames : Forall
            (fun row => ~ In (js_String (get (u "setting_category") row))
                             Spec.object_prototype_names)
            (system_settings shop)).
  { repeat constructor; intros Hin; vm_compute in Hin;
      repeat (destruct Hin as [Hin|Hin]; [discriminate|]); exact Hin. }
  destruct (@get_settings_groups_by_category calm (request [] [] []) shop
              resp w Hnames Hr Hs)
    as (settings & grouped & Hrows & Hrest).
  exists resp, w, settings, grouped. split; [exact Hr|].
  split; [exact Hrows | exact Hrest].
Defined.

End GroupFacts.

(* ===================================================================== *)
(** * [JSON.parse] after [JSON.stringify] *)
(* ===================================================================== *)

Module JsonRoundTrip.
Import Js Encryption Settings Examples JsFacts JsonFacts CodecFacts.

Lemma hex4_round_trip (c : Z) :
  0 <= c < 65536 ->
  hex4 (hex_digit (c / 4096)) (hex_digit ((c / 256) mod 16))
       (hex_digit ((c / 16) mod 16)) (hex_digit (c mod 16)) = Some c.
Proof.
  intros Hc. unfold hex4. cbn [radix_value].
  assert (H1 : 0 <= c / 4096 < 16) by dm.
  assert (H2 : 0 <= (c / 256) mod 16 < 16) by dm.
  assert (H3 : 0 <= (c / 16) mod 16 < 16) by dm.
  assert (H4 : 0 <= c mod 16 < 16) by dm.
  rewrite (hex_digit_value H1), (hex_digit_value H2), (hex_digit_value H3),
    (hex_digit_value H4).
  f_equal. dm.
Qed.

(** An escape [\uXXXX] reads back as the unit it was written for. *)
Lemma parse_unicode_escape (c : Z) (t rest tail : jsstring) :
  0 <= c < 65536 ->
  parse_string_body tail = Some (t, rest) ->
  parse_string_body (u "\u" ++ hex4_of c ++ tail) = Some (c :: t, rest).
Proof.
  intros Hc Ht. unfold hex4_of. change (u "\u") with [92; 117].
  cbn [app]. cbn [parse_string_body].
  change (92 =? 34) with false. change (92 <? 32) with false.
  change (92 =? 92) with true. cbv iota.
  change (117 =? 34) with false. change (117 =? 92) with false.
  change (117 =? 47) with false. change (117 =? 98) with false.
  change (117 =? 102) with false. change (117 =? 110) with false.
  change (117 =? 114) with false. change (117 =? 116) with false.
  change (117 =? 117) with true. cbv iota.
  rewrite hex4_round_trip by exact Hc. now rewrite Ht.
Qed.

Lemma parse_simple_escape (e x : Z) (t rest tail : jsstring) :
  In (e, x) [(34, 34); (92, 92); (98, 8); (102, 12); (110, 10); (114, 13);
             (116, 9)] ->
  parse_string_body tail = Some (t, rest) ->
  parse_string_body (92 :: e :: tail) = Some (x :: t, rest).
Proof.
  intros Hin Ht. cbn [parse_string_body].
  change (92 =? 34) with false. change (92 <? 32) with false.
  change (92 =? 92) with true. cbv iota.
  cbn [In] in Hin.
  repeat (destruct Hin as [Hin|Hin];
          [injection Hin as <- <-; cbn; now rewrite Ht|]).
  contradiction.
Qed.

Lemma parse_raw_unit (c : Z) (t rest tail : jsstring) :
  32 <= c -> c <> 34 -> c <> 92 ->
  parse_string_body tail = Some (t, rest) ->
  parse_string_body (c :: tail) = Some (c :: t, rest).
Proof.
  intros H1 H2 H3 Ht. cbn [parse_string_body].
  replace (c =? 34) with false by (symmetry; now apply Z.eqb_neq).
  replace (c <? 32) with false by (symmetry; apply Z.ltb_ge; lia).
  replace (c =? 92) with false by (symmetry; now apply Z.eqb_neq).
  now rewrite Ht.
Qed.

Lemma parse_quote_units_bounded (n : nat) : forall s rest,
  (length s <= n)%nat -> Spec.valid_units s = true ->
  parse_string_body (quote_units s ++ 34 :: rest) = Some (s, rest).
Proof.
  induction n as [|n IH]; intros s rest Hlen Hv.
  - destruct s; [reflexivity | simpl in Hlen; lia].
  - destruct s as [|c r]; [reflexivity|].
    cbn [Spec.valid_units forallb] in Hv.
    apply andb_prop in Hv as [Hc Hr].
    apply andb_prop in Hc as [Hc0 Hc1].
    apply Z.leb_le in Hc0. apply Z.ltb_lt in Hc1.
    cbn [length] in Hlen.
    assert (IHr : parse_string_body (quote_units r ++ 34 :: rest)
                  = Some (r, rest)) by (apply IH; [lia | exact Hr]).
    cbn [quote_units].
    destruct (Z.eqb_spec c 34) as [->|H34].
    { change ([92; 34] ++ quote_units r) with (92 :: 34 :: quote_units r).
      cbn [app]. apply parse_simple_escape; [cbn; tauto | exact IHr]. }
    destruct (Z.eqb_spec c 92) as [->|H92].
    { change (u "\\") with [92; 92]. cbn [app].
      apply parse_simple_escape; [cbn; tauto | exact IHr]. }
    destruct (Z.eqb_spec c 8) as [->|H8].
    { change (u "\b") with [92; 98]. cbn [app].
      apply parse_simple_escape; [cbn; tauto | exact IHr]. }
    destruct (Z.eqb_spec c 9) as [->|H9].
    { change (u "\t") with [92; 116]. cbn [app].
      apply parse_simple_escape; [cbn; tauto | exact IHr]. }
    destruct (Z.eqb_spec c 10) as [->|H10].
    { change (u "\n") with [92; 110]. cbn [app].
      apply parse_simple_escape; [cbn; tauto | exact IHr]. }
    destruct (Z.eqb_spec c 12) as [->|H12].
    { change (u "\f") with [92; 102]. cbn [app].
      apply parse_simple_escape; [cbn; tauto | exact IHr]. }
    destruct (Z.eqb_spec c 13) as [->|H13].
    { change (u "\r") with [92; 114]. cbn [app].
      apply parse_simple_escape; [cbn; tauto | exact IHr]. }
    destruct (Z.ltb_spec c 32) as [Hlt|Hge].
    { rewrite <- !app_assoc. apply parse_unicode_escape; [lia | exact IHr]. }
    destruct (is_high c) eqn:Hh.
    { destruct r as [|d r'].
      - rewrite <- !app_assoc. cbn [app].
        change (u "\u" ++ hex4_of c ++ [34] ++ rest)
          with (u "\u" ++ hex4_of c ++ 34 :: rest).
        apply parse_unicode_escape; [lia | reflexivity].
      - destruct (is_low d) eqn:Hl.
        + cbn [Spec.valid_units forallb] in Hr.
          apply andb_prop in Hr as [Hd Hr'].
          apply is_low_range in Hl.
          cbn [app]. apply parse_raw_unit; try lia.
          apply parse_raw_unit; try lia.
          apply IH; [cbn [length] in Hlen; lia | exact Hr'].
        + rewrite <- !app_assoc.
          apply parse_unicode_escape; [lia | exact IHr]. }
    destruct (is_low c) eqn:Hl.
    { rewrite <- !app_assoc. apply parse_unicode_escape; [lia | exact IHr]. }
    cbn [app]. apply parse_raw_unit; try lia. exact IHr.
Qed.

Lemma parse_quote (s rest : jsstring) :
  Spec.valid_units s = true ->
  parse_string_body (quote_units s ++ 34 :: rest) = Some (s, rest).
Proof. apply (parse_quote_units_bounded (n := length s)). lia. Qed.

(** ** Arrays and objects *)

Lemma JsVal_nested_ind (P : JsVal -> Prop) :
  P VUndefined -> P VNull -> (forall b, P (VBool b)) ->
  (forall n, P (VNum n)) -> (forall s, P (VStr s)) ->
  (forall items, Forall P items -> P (VArr items)) ->
  (forall props, Forall (fun kv => P (snd kv)) props -> P (VObj props)) ->
  forall v, P v.
Proof.
  intros Hu Hn Hb Hnum Hs Ha Ho.
  fix IH 1. intros [| |b|n|s|items|props].
  - exact Hu.
  - exact Hn.
  - apply Hb.
  - apply Hnum.
  - apply Hs.
  - apply Ha. induction items as [|x xs IHl]; constructor; [apply IH | exact IHl].
  - apply Ho. induction props as [|[k x] ps IHl]; constructor;
      [apply IH | exact IHl].
Qed.

Lemma stringify_arr (items : list JsVal) :
  stringify (VArr items) = u "[" ++ join (u ",") (map stringify items) ++ u "]".
Proof.
  cbn [stringify]. do 2 f_equal.
  induction items as [|x [|y r] IH]; [reflexivity | reflexivity |].
  cbn [map join] in *. now rewrite IH.
Qed.

Lemma json_plain_arr (items : list JsVal) :
  Spec.json_plain (VArr items) = true
  <-> Forall (fun x => Spec.json_plain x = true) items.
Proof.
  cbn [Spec.json_plain].
  induction items as [|x r IH].
  - split; [constructor | reflexivity].
  - rewrite andb_true_iff, IH. split.
    + intros [Hx Hr]. now constructor.
    + intros H. inversion H; subst. auto.
Qed.

Lemma json_plain_obj (props : obj) :
  Spec.json_plain (VObj props) = true
  <-> Spec.distinct_keys props = true
      /\ Forall (fun kv => Spec.valid_units (fst kv) = true
                           /\ Spec.json_plain (snd kv) = true) props.
Proof.
  cbn [Spec.json_plain]. rewrite andb_true_iff.
  apply and_iff_compat_l.
  induction props as [|[k x] r IH].
  - split; [constructor | reflexivity].
  - rewrite !andb_true_iff, IH. split.
    + intros [[Hk Hx] Hr]. now constructor.
    + intros H. inversion H as [|? ? [Hk Hx] Hr]; subst. auto.
Qed.

Lemma stringify_obj (props : obj) :
  Forall (fun kv => Spec.json_plain (snd kv) = true) props ->
  stringify (VObj props)
  = u "{" ++ join (u ",")
               (map (fun kv => quote (fst kv) ++ u ":" ++ stringify (snd kv))
                  props)
    ++ u "}".
Proof.
  intros Hp. cbn [stringify]. do 2 f_equal.
  assert (Hfalse : forall l,
            Forall (fun kv => Spec.json_plain (snd kv) = true) l ->
            l <> [] ->
            (fix members (first : bool) (l : list (jsstring * JsVal))
               : jsstring :=
               match l with
               | [] => []
               | (k, x) :: r =>
                   match x with
                   | VUndefined => members first r
                   | _ =>
                       (if first then [] else u ",")
                       ++ quote k ++ u ":" ++ stringify x ++ members false r
                   end
               end) false l
            = u "," ++ join (u ",")
                (map (fun kv => quote (fst kv) ++ u ":" ++ stringify (snd kv))
                   l)).
  { induction l as [|[k x] r IH]; intros Hl Hne; [congruence|].
    inversion Hl as [|? ? Hx Hr]; subst. cbn [snd] in Hx.
    destruct r as [|p r'].
    - destruct x; try discriminate; cbn [map join fst snd];
        now rewrite ?app_nil_r, <- ?app_assoc.
    - specialize (IH Hr ltac:(discriminate)).
      destruct x; try discriminate;
        rewrite IH; cbn [map join fst snd]; now rewrite <- ?app_assoc. }
  destruct props as [|[k x] r]; [reflexivity|].
  inversion Hp as [|? ? Hx Hr]; subst. cbn [snd] in Hx.
  destruct r as [|p r'].
  - destruct x; try discriminate; cbn [map join fst snd app];
      now rewrite ?app_nil_r.
  - rewrite (Hfalse (p :: r') Hr ltac:(discriminate)).
    destruct x; try discriminate; cbn [map join fst snd app];
      now rewrite <- ?app_assoc.
Qed.

(** The first unit of a stringified value opens a value. *)
Lemma stringify_head (v : JsVal) :
  Spec.json_plain v = true ->
  exists c t, stringify v = c :: t /\ is_json_ws c = false
              /\ (c =? 93) = false /\ (c =? 125) = false.
Proof.
  destruct v as [| |[]|n|s|items|props]; intros Hv; try discriminate;
    try (do 2 eexists; split; [reflexivity | repeat split]).
Qed.

Lemma skip_ws_head (c : Z) (t : jsstring) :
  is_json_ws c = false -> skip_ws (c :: t) = c :: t.
Proof. intros H. unfold skip_ws. cbn [drop_while]. now rewrite H. Qed.

Lemma parse_elements_items (items : list JsVal) :
  Forall Spec.reads_back items -> items <> [] ->
  exists F, forall f acc rest,
    (F <= f)%nat ->
    parse_elements f acc (join (u ",") (map stringify items) ++ 93 :: rest)
    = Some (VArr (rev acc ++ items), rest).
Proof.
  induction 1 as [|x xs [Fx Hx] Hxs IH]; intros Hne; [congruence|].
  destruct xs as [|y ys].
  - exists (S Fx). intros f acc rest Hf.
    destruct f as [|f]; [lia|]. cbn [map join parse_elements].
    rewrite Hx by lia. rewrite skip_ws_head by reflexivity.
    change (93 =? 44) with false. change (93 =? 93) with true. cbv iota.
    reflexivity.
  - destruct (IH ltac:(discriminate)) as [Fxs Hrest].
    exists (S (Nat.max Fx Fxs)). intros f acc rest Hf.
    destruct f as [|f]; [lia|].
    change (join (u ",") (map stringify (x :: y :: ys)))
      with (stringify x ++ u "," ++ join (u ",") (map stringify (y :: ys))).
    rewrite <- !app_assoc. cbn [parse_elements].
    rewrite Hx by lia. change (u "," ++ ?t) with (44 :: t).
    rewrite skip_ws_head by reflexivity.
    change (44 =? 44) with true. cbv iota.
    rewrite Hrest by lia. cbn [rev]. now rewrite <- app_assoc.
Qed.

Lemma obj_set_fresh (k : jsstring) (v : JsVal) (o : obj) :
  lookup k o = None -> obj_set k v o = o ++ [(k, v)].
Proof.
  induction o as [|[k' v'] o IH]; [reflexivity|].
  cbn [lookup obj_set]. destruct (str_eqb k' k); [discriminate|].
  intros H. cbn [app]. now rewrite IH.
Qed.

Lemma lookup_app_none (k : jsstring) (a b : obj) :
  lookup k (a ++ b) = None <-> lookup k a = None /\ lookup k b = None.
Proof.
  induction a as [|[k' v'] a IH]; cbn [app lookup].
  - tauto.
  - destruct (str_eqb k' k); [|exact IH]. split; [discriminate | tauto].
Qed.

Lemma parse_members_props (props : obj) :
  Forall (fun kv => Spec.valid_units (fst kv) = true /\ Spec.reads_back (snd kv))
    props ->
  props <> [] ->
  exists F, forall f acc rest,
    (F <= f)%nat ->
    Spec.distinct_keys props = true ->
    (forall kv, In kv props -> lookup (fst kv) acc = None) ->
    parse_members f acc
      (join (u ",")
         (map (fun kv => quote (fst kv) ++ u ":" ++ stringify (snd kv)) props)
       ++ 125 :: rest)
    = Some (VObj (acc ++ props), rest).
Proof.
  induction 1 as [|[k x] ps [Hk [Fx Hx]] Hps IH]; intros Hne; [congruence|].
  cbn [fst snd] in Hk, Hx.
  assert (Hmember : forall f acc tail,
            (Fx <= f)%nat ->
            lookup k acc = None ->
            parse_members (S f) acc
              ((quote k ++ u ":" ++ stringify x) ++ tail)
            = match skip_ws tail with
              | c3 :: r4 =>
                  if c3 =? 44 then parse_members f (acc ++ [(k, x)]) r4
                  else if c3 =? 125 then Some (VObj (acc ++ [(k, x)]), r4)
                  else None
              | [] => None
              end).
  { intros f acc tail Hf Hacc. unfold quote.
    rewrite <- !app_assoc. change ([34] ++ ?t) with (34 :: t).
    cbn [parse_members]. rewrite skip_ws_head by reflexivity.
    change (34 =? 34) with true. cbv iota.
    change ([34] ++ u ":" ++ stringify x ++ tail)
      with (34 :: 58 :: stringify x ++ tail).
    rewrite parse_quote by exact Hk.
    rewrite skip_ws_head by reflexivity.
    change (58 =? 58) with true. cbv iota.
    rewrite Hx by lia. now rewrite obj_set_fresh by exact Hacc. }
  destruct ps as [|p ps'].
  - exists (S Fx). intros f acc rest Hf _ Hacc.
    destruct f as [|f]; [lia|]. cbn [map join fst snd].
    rewrite Hmember; [|lia | apply (Hacc (k, x)); now left].
    rewrite skip_ws_head by reflexivity.
    change (125 =? 44) with false. change (125 =? 125) with true.
    reflexivity.
  - destruct (IH ltac:(discriminate)) as [Fps Hrest].
    exists (S (Nat.max Fx Fps)). intros f acc rest Hf Hd Hacc.
    destruct f as [|f]; [lia|].
    cbn [Spec.distinct_keys] in Hd. apply andb_prop in Hd as [Hfresh Hd].
    apply negb_true_iff in Hfresh.
    set (member := fun kv : jsstring * JsVal =>
                     quote (fst kv) ++ u ":" ++ stringify (snd kv)) in *.
    change (join (u ",") (map member ((k, x) :: p :: ps')))
      with ((quote k ++ u ":" ++ stringify x)
            ++ u "," ++ join (u ",") (map member (p :: ps'))).
    rewrite <- (app_assoc (quote k ++ u ":" ++ stringify x)).
    rewrite Hmember; [|lia | apply (Hacc (k, x)); now left].
    rewrite <- app_assoc. change (u "," ++ ?t) with (44 :: t).
    rewrite skip_ws_head by reflexivity.
    change (44 =? 44) with true. cbv iota.
    rewrite Hrest; [now rewrite <- app_assoc | lia | exact Hd |].
    intros kv Hin. apply lookup_app_none. split.
    + apply Hacc. now right.
    + cbn [lookup]. destruct (str_eqb k (fst kv)) eqn:Hkk; [|reflexivity].
      assert (Hex : existsb (fun kv0 => str_eqb (fst kv0) k) (p :: ps') = true).
      { apply existsb_exists. exists kv. split; [exact Hin|].
        now rewrite str_eqb_sym. }
      congruence.
Qed.

Lemma plain_values_read_back (v : JsVal) :
  Spec.json_plain v = true -> Spec.reads_back v.
Proof.
  induction v as [| |b|n|s|items IH|props IH] using JsVal_nested_ind;
    intros Hv; try discriminate.
  - exists 1%nat. intros f rest Hf. destruct f as [|f]; [lia | reflexivity].
  - exists 1%nat. intros f rest Hf. destruct f as [|f]; [lia|].
    destruct b; reflexivity.
  - exists 1%nat. intros f rest Hf. destruct f as [|f]; [lia|].
    cbn [stringify]. unfold quote. rewrite <- !app_assoc.
    change ([34] ++ ?t) with (34 :: t).
    cbn [parse_value]. rewrite skip_ws_head by reflexivity.
    change (34 =? 123) with false. change (34 =? 91) with false.
    change (34 =? 34) with true. cbv iota.
    change ([34] ++ rest) with (34 :: rest).
    now rewrite parse_quote by exact Hv.
  - apply json_plain_arr in Hv.
    assert (Hall : Forall Spec.reads_back items).
    { clear -IH Hv. induction IH as [|x xs Hx _ IHl]; [constructor|].
      inversion Hv; subst. constructor; auto. }
    unfold Spec.reads_back. rewrite stringify_arr.
    destruct items as [|x xs].
    { exists 1%nat. intros f rest Hf. destruct f as [|f]; [lia | reflexivity]. }
    destruct (parse_elements_items Hall ltac:(discriminate)) as [F HF].
    exists (S F). intros f rest Hf. destruct f as [|f]; [lia|].
    rewrite <- !app_assoc. change (u "[" ++ ?t) with (91 :: t).
    change (u "]" ++ rest) with (93 :: rest).
    cbn [parse_value]. rewrite skip_ws_head by reflexivity.
    change (91 =? 123) with false. change (91 =? 91) with true. cbv iota.
    inversion Hv as [|? ? Hx _]; subst.
    destruct (stringify_head x Hx) as (c & t & Hc & Hws & H93 & _).
    assert (Hskip : exists t', skip_ws (join (u ",") (map stringify (x :: xs))
                                          ++ 93 :: rest) = c :: t').
    { destruct xs; cbn [map join]; rewrite Hc; cbn [app];
        rewrite skip_ws_head by exact Hws; eauto. }
    destruct Hskip as [t' ->]. rewrite H93.
    now rewrite HF by lia.
  - apply json_plain_obj in Hv as [Hd Hv].
    assert (Hall : Forall (fun kv => Spec.valid_units (fst kv) = true
                                     /\ Spec.reads_back (snd kv)) props).
    { clear -IH Hv. induction IH as [|kv ps Hx _ IHl]; [constructor|].
      inversion Hv as [|? ? [Hk Hp] Hr]; subst. constructor; auto. }
    unfold Spec.reads_back. rewrite stringify_obj
      by (eapply Forall_impl; [|exact Hv]; intros kv [_ H]; exact H).
    destruct props as [|[k x] ps].
    { exists 1%nat. intros f rest Hf. destruct f as [|f]; [lia | reflexivity]. }
    destruct (parse_members_props Hall ltac:(discriminate)) as [F HF].
    exists (S F). intros f rest Hf. destruct f as [|f]; [lia|].
    rewrite <- !app_assoc. change (u "{" ++ ?t) with (123 :: t).
    change (u "}" ++ rest) with (125 :: rest).
    cbn [parse_value]. rewrite skip_ws_head by reflexivity.
    change (123 =? 123) with true. cbv iota.
    assert (Hskip : exists t',
               skip_ws (join (u ",")
                          (map (fun kv => quote (fst kv) ++ u ":"
                                          ++ stringify (snd kv))
                             ((k, x) :: ps)) ++ 125 :: rest) = 34 :: t').
    { destruct ps; cbn [map join fst snd]; unfold quote;
        rewrite <- ?app_assoc; change ([34] ++ ?t) with (34 :: t);
        cbn [app]; rewrite skip_ws_head by reflexivity; eauto. }
    destruct Hskip as [t' ->]. change (34 =? 125) with false. cbv iota.
    rewrite HF; [reflexivity | lia | exact Hd | reflexivity].
Qed.

Lemma stringify_reads_back (v : JsVal) :
  Spec.json_plain v = true -> JSON_parse (JSON_stringify v) = Some v.
Proof.
  intros Hv. destruct (plain_values_read_back v Hv) as [F HF].
  assert (Hs : JSON_stringify v = VStr (stringify v))
    by (destruct v; try reflexivity; discriminate).
  rewrite Hs. unfold JSON_parse, JSON_parse_text. cbn [js_String].
  specialize (HF F [] (Nat.le_refl F)). rewrite app_nil_r in HF.
  rewrite (JSON_parse_text_fuel _ _ HF). reflexivity.
Qed.

Lemma stringify_truthy (v : JsVal) :
  Spec.json_plain v = true -> truthy (JSON_stringify v) = true.
Proof.
  intros Hv. destruct (stringify_head v Hv) as (c & t & Hc & _).
  destruct v; try discriminate; cbn [JSON_stringify truthy]; now rewrite Hc.
Qed.

(** A JSON column written from a value reads back as the value. *)
Lemma json_column_reads_back (x : JsVal) :
  truthy x = false \/ Spec.json_plain x = true ->
  let cell := if truthy x then JSON_stringify x else VNull in
  (truthy cell = true -> JSON_parse cell <> None)
  /\ (if truthy cell
      then match JSON_parse cell with Some p => p | None => VUndefined end
      else cell) = (if truthy x then x else VNull).
Proof.
  intros Hx cell. subst cell.
  destruct (truthy x) eqn:Ht.
  - destruct Hx as [Hx|Hx]; [discriminate|].
    rewrite (stringify_truthy x Hx), (stringify_reads_back x Hx).
    split; [discriminate | reflexivity].
  - split; [discriminate | reflexivity].
Qed.

(** X8: for every value built of [null], booleans, strings, arrays and
    objects (with no property name twice), [JSON.stringify] writes a
    non-empty text, which the handlers' test for a truthy column lets
    through, and [JSON.parse] gives the value back from that text: the
    options and extra configuration of a setting, the permissions of an
    API key and the events of a webhook are read back as they were
    stored. *)
Theorem JSON_parse_stringify (v : JsVal) :
  Spec.json_plain v = true ->
  (exists c t, JSON_stringify v = VStr (c :: t))
  /\ truthy (JSON_stringify v) = true
  /\ JSON_parse (JSON_stringify v) = Some v.
Proof.
  intros Hv. split; [|split].
  - destruct (stringify_head v Hv) as (c & t & Hc & _).
    exists c, t. destruct v; try discriminate; cbn [JSON_stringify];
      now rewrite Hc.
  - now apply stringify_truthy.
  - now apply stringify_reads_back.
Qed.

(** The events of a webhook, and an object of options. *)
Lemma JSON_parse_stringify_witness :
  JSON_parse (JSON_stringify
                (VArr [VStr (u "order.created"); VStr (u "order.paid")]))
  = Some (VArr [VStr (u "order.created"); VStr (u "order.paid")])
  /\ JSON_parse (JSON_stringify
                   (VObj [(u "choices", VArr [VStr (u "a"); VNull]);
                          (u "multiple", VBool false)]))
     = Some (VObj [(u "choices", VArr [VStr (u "a"); VNull]);
                   (u "multiple", VBool false)]).
Proof.
  split; apply JSON_parse_stringify; reflexivity.
Defined.

End JsonRoundTrip.

(* ===================================================================== *)
(** * Writing a setting and reading it back *)
(* ===================================================================== *)

Module RoundTripFacts.
Import Js Encryption Settings Examples JsFacts JsonFacts MonadFacts.
Import CodecFacts UpdateFacts JsonRoundTrip.


Lemma filter_map_stable {A : Type} (p : A -> bool) (f : A -> A) (l : list A) :
  (forall x, p (f x) = p x) -> filter p (map f l) = map f (filter p l).
Proof.
  intros Hp. induction l as [|x l IH]; [reflexivity|].
  cbn [map filter]. rewrite Hp. destruct (p x); cbn [map]; now rewrite IH.
Qed.

Lemma filter_andb {A : Type} (p q : A -> bool) (l : list A) :
  filter (fun x => p x && q x) l = filter q (filter p l).
Proof.
  induction l as [|x l IH]; [reflexivity|].
  cbn [filter]. destruct (p x); cbn [andb filter]; [|exact IH].
  destruct (q x); now rewrite IH.
Qed.

Section Stored.

Variable E : Env.

Lemma with_value_get (newValue : JsVal) (row : obj) (c : jsstring) :
  c <> u "setting_value" -> c <> u "updated_at" ->
  get c (Spec.with_value E newValue row) = get c row.
Proof.
  intros H1 H2. unfold Spec.with_value.
  rewrite !get_set_other by congruence. reflexivity.
Qed.

Lemma with_value_value (newValue : JsVal) (row : obj) :
  get (u "setting_value") (Spec.with_value E newValue row) = newValue.
Proof.
  unfold Spec.with_value. rewrite get_set_other by lit_neq.
  apply get_set_same.
Qed.

(** What [simpleEncrypt] stores for a string comes back from
    [simpleDecrypt]. *)
Lemma process_prepare (cur row : obj) (v : JsVal) :
  get (u "is_encrypted") row = get (u "is_encrypted") cur ->
  (truthy (get (u "is_encrypted") cur) = true ->
   exists p, v = VStr p /\ well_formed p = true) ->
  exists stored,
    prepareValueForStorage E cur v = Some stored
    /\ processSettingValue E row stored = Some v.
Proof.
  intros Henc Hstr. unfold prepareValueForStorage, processSettingValue.
  rewrite Henc.
  destruct (truthy (get (u "is_encrypted") cur)) eqn:He; cbn [andb].
  - destruct (Hstr eq_refl) as (p & -> & Hwf).
    destruct p as [|c p].
    + exists (VStr []). split; reflexivity.
    + cbn [truthy useSimpleEncryption].
      rewrite simpleEncrypt_string. cbn [option_map].
      eexists. split; [reflexivity|].
      assert (Hne : truthy (VStr (base64_encode (utf8_encode (c :: p)))) = true).
      { cbn [truthy].
        destruct (base64_encode (utf8_encode (c :: p))) eqn:Hb; [|reflexivity].
        assert (Hx : utf8_encode (c :: p) = []).
        { rewrite <- (base64_round_trip (utf8_encode_bytes (c :: p) Hwf)).
          now rewrite Hb. }
        pose proof (utf8_round_trip (c :: p) Hwf) as Hu.
        rewrite Hx in Hu. discriminate. }
      rewrite Hne. rewrite simpleDecrypt_string. cbn [option_map].
      rewrite base64_round_trip by now apply utf8_encode_bytes.
      now rewrite utf8_round_trip.
  - exists v. split; reflexivity.
Qed.

End Stored.

Section Fetch.

Variable E : Env.
Hypothesis quiet : forall n, fails E n = None.

Lemma decode_row_ok (row : obj) (v : JsVal) :
  processSettingValue E row (get (u "setting_value") row) = Some v ->
  (forall c, In c [u "options"; u "extra_config"] ->
             truthy (get c row) = true -> JSON_parse (get c row) <> None) ->
  exists setting,
    (forall w, decode_row E row w = (Ok setting, w))
    /\ get (u "setting_value") setting = v
    /\ (forall c, In c [u "options"; u "extra_config"] ->
                  get c setting
                  = if truthy (get c row)
                    then match JSON_parse (get c row) with
                         | Some parsed => parsed
                         | None => VUndefined
                         end
                    else get c row)
    /\ (forall c, c <> u "setting_value" -> c <> u "options" ->
                  c <> u "extra_config" -> get c setting = get c row).
Proof.
  intros Hv Hjson. unfold decode_row. rewrite Hv.
  assert (Ho := Hjson (u "options") (or_introl eq_refl)).
  assert (Hx := Hjson (u "extra_config") (or_intror (or_introl eq_refl))).
  destruct (truthy (get (u "options") row)) eqn:Hto;
    destruct (truthy (get (u "extra_config") row)) eqn:Htx;
    try (destruct (JSON_parse (get (u "options") row)) as [po|] eqn:Hpo;
         [|now specialize (Ho eq_refl)]);
    try (destruct (JSON_parse (get (u "extra_config") row)) as [px|] eqn:Hpx;
         [|now specialize (Hx eq_refl)]);
    (eexists; split; [intros w; reflexivity|]; split; [|split]);
    try (rewrite ?get_set_other by lit_neq; apply get_set_same);
    try (intros c H1 H2 H3; rewrite !get_set_other by congruence;
         reflexivity);
    intros c [<-|[<-|[]]];
    rewrite ?Hto, ?Htx, ?Hpo, ?Hpx;
    rewrite ?get_set_same; try reflexivity;
    rewrite ?get_set_other by lit_neq;
    rewrite ?get_set_same; try reflexivity.
Qed.

Lemma get_by_key_found (req : Request) (db : DB) (row setting : obj)
  (rest : list obj) :
  filter (fun r => col_eq E (u "setting_key") (get (u "key") (params req)) r
                   && is_active_row E r) (system_settings db) = row :: rest ->
  (forall w, decode_row E row w = (Ok setting, w)) ->
  run (get_setting_by_key E) req db
  = (Ok (success_data 200 None (VObj setting)), mkWorld db None 0 2).
Proof.
  intros Hrows Hdec.
  unfold run, get_setting_by_key, try_catch, bind, getConnection, conn_query,
    db_call, release, fresh, current.
  cbn [calls committed pending held]. rewrite !quiet.
  cbn [calls committed pending held]. rewrite Hrows.
  rewrite Hdec. reflexivity.
Qed.

Lemma get_by_key_absent (req : Request) (db : DB) :
  filter (fun r => col_eq E (u "setting_key") (get (u "key") (params req)) r
                   && is_active_row E r) (system_settings db) = [] ->
  run (get_setting_by_key E) req db
  = (Ok (failure 404 (u "Setting not found")), mkWorld db None 0 2).
Proof.
  intros Hrows.
  unfold run, get_setting_by_key, try_catch, bind, getConnection, conn_query,
    db_call, release, fresh, current.
  cbn [calls committed pending held]. rewrite !quiet.
  cbn [calls committed pending held]. rewrite Hrows. reflexivity.
Qed.

End Fetch.

Lemma col_eq_with_value (E : Env) (c : jsstring) (param nv : JsVal) (row : obj) :
  c <> u "setting_value" -> c <> u "updated_at" ->
  col_eq E c param (Spec.with_value E nv row) = col_eq E c param row.
Proof. intros H1 H2. unfold col_eq. now rewrite with_value_get. Qed.

Lemma is_active_with_value (E : Env) (nv : JsVal) (row : obj) :
  is_active_row E (Spec.with_value E nv row) = is_active_row E row.
Proof. unfold is_active_row. now rewrite with_value_get by lit_neq. Qed.

(** X10: when no call rejects, the first setting with the key is active,
    its JSON columns parse and, if the setting is encrypted, the value
    is a string without unpaired surrogates, then after [PUT /key/:key]
    with a value, [GET /key/:key] answers 200 with that value as
    [setting_value], whether the setting is encrypted or not, and with
    the other columns of the setting as they were. *)
Theorem update_then_fetch (E : Env) (db : DB) (put fetch : Request)
  (cur : obj) (rest : list obj) :
  let k := get (u "key") (params put) in
  let v := get (u "setting_value") (req_body put) in
  (forall n, fails E n = None) ->
  v <> VUndefined ->
  get (u "key") (params fetch) = k ->
  fst (select_settings E (u "setting_key") k db) = cur :: rest ->
  is_active_row E cur = true ->
  sql_eq E (get (u "id") cur) (get (u "id") cur) = true ->
  (truthy (get (u "is_encrypted") cur) = true ->
   exists p, v = VStr p /\ well_formed p = true) ->
  (forall c, In c [u "options"; u "extra_config"] ->
             truthy (get c cur) = true -> JSON_parse (get c cur) <> None) ->
  let db' := committed (snd (run (put_setting_by_key E) put db)) in
  exists data,
    run (get_setting_by_key E) fetch db'
    = (Ok (success_data 200 None (VObj data)), mkWorld db' None 0 2)
    /\ get (u "setting_value") data = v
    /\ (forall c, c <> u "setting_value" -> c <> u "updated_at" ->
                  c <> u "options" -> c <> u "extra_config" ->
                  get c data = get c cur).
Proof.
  intros k v Hcalm Hv Hfetch Hsel Hact Hid Hstr Hjson db'.
  destruct (@process_prepare E cur cur v eq_refl Hstr) as (stored & Hprep & _).
  assert (Hdb : db' = Spec.both_persist E db (get (u "id") cur)
                        (get (u "setting_value") cur) stored (user_id put)
                        (js_or (get (u "change_reason") (req_body put))
                           (VStr (u "Updated via API")))).
  { pose proof (put_by_key_post E put db) as H.
    unfold post, Spec.update_outcome in H. rewrite !Hcalm in H.
    fold v k in H. rewrite (is_undefined_false Hv), Hsel, Hprep in H.
    exact H. }
  assert (Hrows : system_settings db'
                  = map (fun row => if col_eq E (u "id") (get (u "id") cur) row
                                    then Spec.with_value E stored row else row)
                        (system_settings db)).
  { rewrite Hdb. reflexivity. }
  set (upd := fun row => if col_eq E (u "id") (get (u "id") cur) row
                         then Spec.with_value E stored row else row) in Hrows.
  assert (Hfilter :
    filter (fun r => col_eq E (u "setting_key") (get (u "key") (params fetch)) r
                     && is_active_row E r) (system_settings db')
    = Spec.with_value E stored cur
      :: map upd (filter (is_active_row E) rest)).
  { rewrite Hrows, Hfetch. rewrite filter_map_stable.
    - rewrite filter_andb.
      unfold select_settings in Hsel. cbn [fst] in Hsel. rewrite Hsel.
      cbn [filter]. rewrite Hact. cbn [map]. f_equal.
      unfold upd, col_eq. now rewrite Hid.
    - intros row. unfold upd.
      destruct (col_eq E (u "id") (get (u "id") cur) row); [|reflexivity].
      rewrite col_eq_with_value by lit_neq.
      now rewrite is_active_with_value. }
  destruct (@process_prepare E cur (Spec.with_value E stored cur) v) as (st & Hp & Hproc).
  { apply with_value_get; lit_neq. }
  { exact Hstr. }
  assert (st = stored) by congruence. subst st.
  destruct (@decode_row_ok E (Spec.with_value E stored cur) v)
    as (data & Hdec & Hval & _ & Hcols).
  { now rewrite with_value_value. }
  { intros c Hc. rewrite with_value_get.
    - now apply Hjson.
    - destruct Hc as [<-|[<-|[]]]; lit_neq.
    - destruct Hc as [<-|[<-|[]]]; lit_neq. }
  exists data. split; [|split].
  - eapply get_by_key_found; eauto.
  - exact Hval.
  - intros c H1 H2 H3 H4. rewrite Hcols by assumption.
    now apply with_value_get.
Qed.



Section Create.

Variable E : Env.
Hypothesis quiet : forall n, fails E n = None.

Lemma post_setting_created (req : Request) (db : DB) :
  let b := req_body req in
  truthy (get (u "setting_key") b) = true ->
  truthy (get (u "setting_category") b) = true ->
  truthy (get (u "setting_name") b) = true ->
  fst (select_settings E (u "setting_key") (get (u "setting_key") b) db) = [] ->
  run (post_setting E) req db
  = (Ok (success_data 201 (Some (u "Setting created successfully"))
           (VObj (obj_lit
              [(u "id", insert_id E (system_settings db));
               (u "setting_key", get (u "setting_key") b);
               (u "setting_category", get (u "setting_category") b);
               (u "setting_name", get (u "setting_name") b)]))),
     mkWorld (snd (insert_setting E (Spec.new_setting_columns b) db)) None 0 3).
Proof.
  intros b Hk Hc Hn Hsel.
  unfold run, post_setting, try_catch. fold b.
  rewrite Hk, Hc, Hn. cbn [negb orb].
  unfold bind, getConnection, conn_query, db_call, release, fresh, current.
  cbn [calls committed pending held]. rewrite !quiet.
  cbn [calls committed pending held].
  unfold select_settings in *. cbn [fst] in Hsel. rewrite Hsel.
  rewrite !quiet. reflexivity.
Qed.

End Create.




Lemma prepare_depends_on_flag (E : Env) (row row' : obj) (v : JsVal) :
  get (u "is_encrypted") row' = get (u "is_encrypted") row ->
  prepareValueForStorage E row' v = prepareValueForStorage E row v.
Proof. intros H. unfold prepareValueForStorage. now rewrite H. Qed.

(** X12: when no call rejects, two [PUT /:id] requests on the same
    setting, one after the other, leave two more history rows, the
    second of which has for old value the new value of the first; and
    the setting ends with the second stored value, its other columns as
    they were. *)
Theorem successive_updates_chain (E : Env) (db : DB) (put1 put2 : Request)
  (cur : obj) (rest : list obj) (s1 s2 : JsVal) :
  let id := get (u "id") (params put1) in
  let v1 := get (u "setting_value") (req_body put1) in
  let v2 := get (u "setting_value") (req_body put2) in
  let reason (r : Request) :=
    js_or (get (u "change_reason") (req_body r)) (VStr (u "Updated via API")) in
  (forall n, fails E n = None) ->
  get (u "id") (params put2) = id ->
  v1 <> VUndefined -> v2 <> VUndefined ->
  fst (select_settings E (u "id") id db) = cur :: rest ->
  prepareValueForStorage E cur v1 = Some s1 ->
  prepareValueForStorage E cur v2 = Some s2 ->
  let db1 := committed (snd (run (put_setting_by_id E) put1 db)) in
  let db2 := committed (snd (run (put_setting_by_id E) put2 db1)) in
  settings_history db2
  = settings_history db
    ++ [history_row id (get (u "setting_value") cur) s1 (user_id put1)
          (reason put1);
        history_row id s1 s2 (user_id put2) (reason put2)]
  /\ exists cur2 rest2,
       fst (select_settings E (u "id") id db2) = cur2 :: rest2
       /\ get (u "setting_value") cur2 = s2
       /\ (forall c, c <> u "setting_value" -> c <> u "updated_at" ->
                     get c cur2 = get c cur).
Proof.
  intros id v1 v2 reason Hcalm Hid Hv1 Hv2 Hsel Hp1 Hp2 db1 db2.
  assert (Hcur : col_eq E (u "id") id cur = true).
  { assert (Hin : In cur (fst (select_settings E (u "id") id db)))
      by (rewrite Hsel; now left).
    unfold select_settings in Hin. cbn [fst] in Hin.
    apply filter_In in Hin. tauto. }
  assert (Hstep : forall (d : DB) (put : Request) c r s,
            get (u "id") (params put) = id ->
            get (u "setting_value") (req_body put) <> VUndefined ->
            fst (select_settings E (u "id") id d) = c :: r ->
            prepareValueForStorage E c (get (u "setting_value") (req_body put))
            = Some s ->
            committed (snd (run (put_setting_by_id E) put d))
            = Spec.both_persist E d id (get (u "setting_value") c) s
                (user_id put) (reason put)).
  { intros d put c r s Hi Hv Hs Hp.
    pose proof (put_by_id_post E put d) as H.
    unfold post, Spec.update_outcome in H. rewrite !Hcalm in H.
    rewrite Hi in H. rewrite (is_undefined_false Hv), Hs, Hp in H. exact H. }
  assert (Hdb1 : db1 = Spec.both_persist E db id (get (u "setting_value") cur)
                         s1 (user_id put1) (reason put1))
    by (eapply Hstep; eauto).
  assert (Hselect : forall d old nv who why,
            fst (select_settings E (u "id") id
                   (Spec.both_persist E d id old nv who why))
            = map (Spec.with_value E nv)
                (fst (select_settings E (u "id") id d))).
  { intros d old nv who why. unfold select_settings. cbn [fst].
    change (system_settings (Spec.both_persist E d id old nv who why))
      with (map (fun row => if col_eq E (u "id") id row
                            then Spec.with_value E nv row else row)
              (system_settings d)).
    rewrite filter_map_stable.
    - apply map_ext_in. intros row Hin.
      apply filter_In in Hin as [_ Hrow]. now rewrite Hrow.
    - intros row. destruct (col_eq E (u "id") id row) eqn:Hrow; [|exact Hrow].
      now rewrite col_eq_with_value by lit_neq. }
  assert (Hsel1 : fst (select_settings E (u "id") id db1)
                  = Spec.with_value E s1 cur :: map (Spec.with_value E s1) rest).
  { rewrite Hdb1, Hselect, Hsel. reflexivity. }
  assert (Hdb2 : db2 = Spec.both_persist E db1 id s1 s2 (user_id put2)
                         (reason put2)).
  { rewrite <- (with_value_value E s1 cur) at 1.
    eapply Hstep; eauto.
    rewrite (@prepare_depends_on_flag E cur) by (apply with_value_get; lit_neq).
    exact Hp2. }
  split.
  - rewrite Hdb2, Hdb1. cbn. now rewrite <- app_assoc.
  - exists (Spec.with_value E s2 (Spec.with_value E s1 cur)),
           (map (Spec.with_value E s2) (map (Spec.with_value E s1) rest)).
    split; [|split].
    + rewrite Hdb2, Hselect, Hsel1. reflexivity.
    + apply with_value_value.
    + intros c H1 H2. now rewrite !with_value_get.
Qed.

(** Storing [s3cret] in the encrypted setting and reading it back. *)
Lemma update_then_fetch_witness :
  let put := request [(u "key", VStr (u "smtp_password"))] []
               [(u "setting_value", VStr (u "s3cret"))] in
  let db' := committed (snd (run (put_setting_by_key calm) put vault)) in
  exists data,
    run (get_setting_by_key calm)
      (request [(u "key", VStr (u "smtp_password"))] [] []) db'
    = (Ok (success_data 200 None (VObj data)), mkWorld db' None 0 2)
    /\ get (u "setting_value") data = VStr (u "s3cret")
    /\ get (u "setting_value") (hd [] (system_settings db'))
       = VStr (u "czNjcmV0").
Proof.
  intros put db'.
  destruct (@update_then_fetch calm vault put
              (request [(u "key", VStr (u "smtp_password"))] [] [])
              smtp_password [])
    as (data & Hrun & Hval & _).
  - intros n. reflexivity.
  - discriminate.
  - reflexivity.
  - reflexivity.
  - reflexivity.
  - reflexivity.
  - intros _. exists (u "s3cret"). split; reflexivity.
  - intros c [<-|[<-|[]]] Ht; vm_compute in Ht; discriminate.
  - exists data. split; [exact Hrun|]. split; [exact Hval|].
    vm_compute. reflexivity.
Defined.


(** Two updates of [enable_sms]. *)
Lemma successive_updates_chain_witness :
  let put1 := put_2_false in
  let put2 := request [(u "id", VStr (u "2"))] []
                [(u "setting_value", VStr (u "true"))] in
  let db1 := committed (snd (run (put_setting_by_id calm) put1 shop)) in
  let db2 := committed (snd (run (put_setting_by_id calm) put2 db1)) in
  settings_history db2
  = [history_row (VStr (u "2")) (VStr (u "true")) (VStr (u "false"))
       (VStr (u "system")) (VStr (u "Updated via API"));
     history_row (VStr (u "2")) (VStr (u "false")) (VStr (u "true"))
       (VStr (u "system")) (VStr (u "Updated via API"))].
Proof.
  intros put1 put2 db1 db2.
  apply (@successive_updates_chain calm shop put1 put2 enable_sms []
           (VStr (u "false")) (VStr (u "true"))).
  - intros n. reflexivity.
  - reflexivity.
  - discriminate.
  - discriminate.
  - reflexivity.
  - reflexivity.
  - reflexivity.
Defined.

End RoundTripFacts.

(* ===================================================================== *)
(** * The connection of an update *)
(* ===================================================================== *)

Module PoolFacts.
Import Js Encryption Settings Examples JsFacts MonadFacts UpdateFacts.
Import BulkFacts.

Lemma single_fault_other (E : Env) (i j : nat) (msg : jsstring) :
  Spec.single_fault E -> fails E i = Some msg -> i <> j -> fails E j = None.
Proof.
  intros Hsf Hi Hne. destruct (fails E j) eqn:Hj; [|reflexivity].
  exfalso. apply Hne. apply Hsf; congruence.
Qed.

(** The inner [catch] when its rollback goes through. *)
Lemma post_cleanup_released {A : Type} (E : Env) e w
  (Q : Outcome A -> World -> Prop) :
  fails E (calls w) = None ->
  Q (Throw e) (mkWorld (committed w) None (pred (held w)) (S (calls w))) ->
  post (rollback E ;;; release ;;; throw e)%req w Q.
Proof.
  intros Hok HQ. call. rewrite Hok. call. call. exact HQ.
Qed.

Section Pool.

Variable E : Env.
Hypothesis one_fault : Spec.single_fault E.

Ltac other_call :=
  match goal with
  | H : fails E ?i = Some _ |- fails E ?j = None =>
      apply (single_fault_other (i := i) (j := j) one_fault H); lia
  end.

Ltac released :=
  apply post_cleanup_released; world; [other_call | reflexivity].

Lemma update_transaction_pool (req : Request) (column : jsstring)
  (param : JsVal) (idOf : obj -> JsVal) (w : World) (db : DB) :
  calls w = 2%nat -> held w = 1%nat -> pending w = Some db ->
  fails E 0 = None -> fails E 1 = None ->
  (forall row, In row (system_settings db) ->
      prepareValueForStorage E row (get (u "setting_value") (req_body req))
      <> None
      /\ processSettingValue E row (get (u "setting_value") row) <> None) ->
  post (update_transaction E req column param idOf) w
    (fun _ w' => held w' = 0%nat).
Proof.
  intros Hc Hh Hp H0 H1 Hrows. destruct w as [cm pd hd cl]. cbn in Hc, Hh, Hp.
  subst cl hd pd.
  unfold update_transaction. apply post_try.
  call. destruct (fails E 2) eqn:H2; [released|].
  destruct (fst (select_settings E column param db)) as [|cur rest] eqn:Hsel.
  - call. destruct (fails E 3) eqn:H3; [released|].
    call. call. reflexivity.
  - assert (Hin : In cur (system_settings db)).
    { assert (Hc : In cur (cur :: rest)) by now left.
      rewrite <- Hsel in Hc. unfold select_settings in Hc. cbn [fst] in Hc.
      apply filter_In in Hc. tauto. }
    destruct (Hrows cur Hin) as [Hprep Hproc].
    call. destruct (prepareValueForStorage E cur _) as [nv|]; [|congruence].
    call. destruct (fails E 3) eqn:H3; [released|].
    call. destruct (fails E 4) eqn:H4; [released|].
    call. destruct (fails E 5) eqn:H5; [released|].
    call. call.
    destruct (processSettingValue E cur _); [|congruence].
    apply post_ret. reflexivity.
Qed.

(** A statement, as far as the pool is concerned. *)
Lemma post_query_held {A : Type} (q : DB -> A * DB) w
  (Q : Outcome A -> World -> Prop) :
  match fails E (calls w) with
  | Some msg => Q (Throw msg) (tick w)
  | None =>
      forall a w', held w' = held w -> calls w' = S (calls w) -> Q (Ok a) w'
  end ->
  post (conn_query E q) w Q.
Proof.
  intros H. apply post_db_call. destruct (fails E (calls w)); [exact H|].
  apply H; unfold tick; cbn [current pending committed held calls];
    destruct (q _), (pending w); reflexivity.
Qed.

(** The loop holds on to the connection; when it throws, a call it made
    has rejected. *)
Lemma bulk_loop_pool (reason : JsVal) : forall items w results errors,
  forallb Spec.not_null items = true ->
  post (bulk_loop E reason items results errors) w (fun o w' =>
    held w' = held w
    /\ match o with
       | Throw _ => exists i msg, (i < calls w')%nat /\ fails E i = Some msg
       | Ok _ => True
       end).
Proof.
  induction items as [|item items IH]; intros w results errors Hnn.
  - apply post_ret. auto.
  - cbn [bulk_loop forallb] in *. apply andb_prop in Hnn as [Hitem Hnn].
    destruct (get_prop (u "setting_key") item) as [k|] eqn:Hk.
    2:{ now apply (get_prop_not_null (u "setting_key")) in Hitem. }
    destruct (get_prop (u "setting_value") item) as [v|] eqn:Hv.
    2:{ now apply (get_prop_not_null (u "setting_value")) in Hitem. }
    assert (Hrec : forall w' res errs,
               held w' = held w ->
               post (bulk_loop E reason items res errs) w' (fun o w'' =>
                 held w'' = held w
                 /\ match o with
                    | Throw _ =>
                        exists i msg, (i < calls w'')%nat /\ fails E i = Some msg
                    | Ok _ => True
                    end)).
    { intros w' res errs Hh. eapply post_mono; [apply IH; exact Hnn|].
      intros o w0 [H1 H2]. split; [congruence | exact H2]. }
    destruct (negb (truthy k) || is_undefined v); [now apply Hrec|].
    apply post_bind. apply post_query_held.
    destruct (fails E (calls w)) eqn:Hf.
    { split; [reflexivity|]. exists (calls w), j. cbn. split; [lia | exact Hf]. }
    intros rows w1 Hh1 Hc1. destruct rows as [|cur rest]; [now apply Hrec|].
    destruct (prepareValueForStorage E cur _) as [nv|] eqn:Hp.
    2:{ now apply prepare_string in Hp. }
    call. apply post_bind. apply post_query_held.
    destruct (fails E (calls w1)) eqn:Hf1.
    { split; [exact Hh1|]. exists (calls w1), j. cbn. split; [lia | exact Hf1]. }
    intros [] w2 Hh2 Hc2.
    apply post_bind. apply post_query_held.
    destruct (fails E (calls w2)) eqn:Hf2.
    { split; [cbn; congruence|]. exists (calls w2), j. cbn.
      split; [lia | exact Hf2]. }
    intros [] w3 Hh3 Hc3. apply Hrec. congruence.
Qed.

Lemma bulk_update_pool (req : Request) (db : DB) (items : list JsVal) :
  get (u "settings") (req_body req) = VArr items ->
  forallb Spec.not_null items = true ->
  post (put_bulk_update E req) (fresh db)
    (fun _ w =>
       held w = match items, fails E 1 with
                | _ :: _, Some _ => 1%nat
                | _, _ => 0%nat
                end).
Proof.
  intros Hitems Hnn. unfold put_bulk_update. rewrite Hitems.
  apply post_try.
  destruct items as [|item items]; [apply post_ret; reflexivity|].
  unfold fresh. call.
  destruct (fails E 0) eqn:H0.
  { apply post_ret. world.
    now rewrite (single_fault_other (i := 0) (j := 1) one_fault H0). }
  call. destruct (fails E 1) eqn:H1; [apply post_ret; reflexivity|].
  apply post_try. apply post_bind.
  eapply post_mono; [apply bulk_loop_pool; exact Hnn|].
  cbn beta. intros [[results errors]|e] w [Hh Ho]; cbn [held] in Hh.
  - destruct errors as [|err errors].
    + call. destruct (fails E (calls w)) eqn:Hc.
      { apply post_cleanup_released; world; [other_call|].
        apply post_ret. world. now rewrite Hh. }
      call. call. now rewrite Hh.
    + call. destruct (fails E (calls w)) eqn:Hc.
      { apply post_cleanup_released; world; [other_call|].
        apply post_ret. world. now rewrite Hh. }
      call. call. now rewrite Hh.
  - destruct Ho as (i & msg & Hi & Hfail).
    apply post_cleanup_released; [other_call|].
    apply post_ret. world. now rewrite Hh.
Qed.

Lemma single_updates_pool (req : Request) (db : DB) :
  let value := get (u "setting_value") (req_body req) in
  (forall row, In row (system_settings db) ->
      prepareValueForStorage E row value <> None
      /\ processSettingValue E row (get (u "setting_value") row) <> None) ->
  forall column param idOf,
    post (try_catch
            (if is_undefined value
             then ret (failure 400 (u "Setting value is required"))
             else (getConnection E ;;; beginTransaction E ;;;
                   update_transaction E req column param idOf)%req)
            (fun err => ret (failure_500 (u "Failed to update setting") err)))
      (fresh db)
      (fun _ w => held w = if is_undefined value then 0%nat
                           else match fails E 1 with
                                | Some _ => 1%nat
                                | None => 0%nat
                                end).
Proof.
  intros value Hrows column param idOf. apply post_try.
  destruct (is_undefined value); [apply post_ret; reflexivity|].
  unfold fresh. call.
  destruct (fails E 0) eqn:H0.
  { apply post_ret. world.
    now rewrite (single_fault_other (i := 0) (j := 1) one_fault H0). }
  call. destruct (fails E 1) eqn:H1; [apply post_ret; reflexivity|].
  eapply post_mono.
  - apply update_transaction_pool with (db := db); try reflexivity;
      assumption.
  - intros [r|e] w' Hw; [exact Hw | apply post_ret; exact Hw].
Qed.

End Pool.



End PoolFacts.

(* ===================================================================== *)
(** * Rows rewritten by a statement *)
(* ===================================================================== *)

Module RowFacts.
Import Js Encryption Settings JsFacts MonadFacts.

(** Rows a statement rewrites into rows a query rejects are, for that
    query, rows removed. *)
Lemma filter_hidden {A : Type} (q m : A -> bool) (g : A -> A) (rows : list A) :
  (forall row, m row = true -> q (g row) = false) ->
  filter q (map (fun row => if m row then g row else row) rows)
  = filter q (filter (fun row => negb (m row)) rows).
Proof.
  intros Hg. induction rows as [|row rows IH]; [reflexivity|].
  cbn [map filter]. destruct (m row) eqn:Hm; cbn [negb].
  - now rewrite (Hg row Hm).
  - cbn [filter]. destruct (q row); now rewrite IH.
Qed.

Lemma Forall2_map_same {A : Type} (R : A -> A -> Prop) (f : A -> A)
  (l : list A) :
  (forall x, In x l -> R x (f x)) -> Forall2 R l (map f l).
Proof.
  induction l as [|x l IH]; intros H; cbn [map]; constructor.
  - apply H. now left.
  - apply IH. intros y Hy. apply H. now right.
Qed.

Lemma get_spread_with_other (c : jsstring) (l : list (jsstring * JsVal)) :
  forall o, (forall kv, In kv l -> fst kv <> c) ->
            get c (spread_with o l) = get c o.
Proof.
  unfold spread_with.
  induction l as [|[k v] l IH]; intros o H; cbn [fold_left]; [reflexivity|].
  rewrite IH by (intros kv Hkv; apply H; now right).
  apply get_set_other. apply (H (k, v)). now left.
Qed.

Lemma map_m_pure {A B : Type} (f : A -> M B) (l : list A) :
  (forall a, exists o, forall w, f a w = (o, w)) ->
  exists o, forall w, map_m f l w = (o, w).
Proof.
  intros Hf. induction l as [|a l [o Ho]]; [eexists; reflexivity|].
  destruct (Hf a) as [o1 Ho1]. cbn [map_m]. unfold bind.
  destruct o1 as [b|e].
  - destruct o as [bs|e].
    + exists (Ok (b :: bs)). intros w. now rewrite Ho1, Ho.
    + exists (Throw e). intros w. now rewrite Ho1, Ho.
  - exists (Throw e). intros w. now rewrite Ho1.
Qed.

End RowFacts.

(* ===================================================================== *)
(** * Deactivating a setting *)
(* ===================================================================== *)

Module DeactivateFacts.
Import Js Encryption Settings Examples JsFacts JsonFacts MonadFacts.
Import UpdateFacts RowFacts.

Section Deactivate.

Variable E : Env.
Hypothesis false_is_not_true : sql_eq E (VBool false) (VBool true) = false.

Lemma deactivated_get (row : obj) (c : jsstring) :
  c <> u "is_active" -> c <> u "updated_at" ->
  get c (Spec.deactivated E row) = get c row.
Proof.
  intros H1 H2. unfold Spec.deactivated.
  rewrite !get_set_other by congruence. reflexivity.
Qed.

Lemma deactivated_inactive (row : obj) :
  is_active_row E (Spec.deactivated E row) = false.
Proof.
  unfold is_active_row, Spec.deactivated.
  rewrite get_set_other by lit_neq. now rewrite get_set_same.
Qed.


End Deactivate.

Section SoftDelete.

Variable E : Env.
Hypothesis quiet : forall n, fails E n = None.

Lemma delete_setting_run (req : Request) (db : DB) :
  let id := get (u "id") (params req) in
  run (delete_setting E) req db
  = match filter (col_eq E (u "id") id) (system_settings db) with
    | [] => (Ok (failure 404 (u "Setting not found")), mkWorld db None 0 2)
    | _ :: _ =>
        (Ok (mkResponse 200
               (obj_lit
                  [(u "success", VBool true);
                   (u "message",
                    VStr (u "Setting deactivated successfully"))])),
         mkWorld (snd (deactivate_setting E id db)) None 0 3)
    end.
Proof.
  intros id.
  unfold run, delete_setting, try_catch, bind, getConnection, conn_query,
    db_call, release, fresh, current.
  cbn [calls committed pending held]. rewrite !quiet.
  cbn [calls committed pending held]. fold id.
  unfold select_setting_ids.
  destruct (filter (col_eq E (u "id") id) (system_settings db)) as [|r rs];
    cbn [map]; [reflexivity|].
  rewrite !quiet. reflexivity.
Qed.

Lemma decode_row_pure (row : obj) :
  exists o, forall w, decode_row E row w = (o, w).
Proof.
  unfold decode_row, bind, lift, ret, throw.
  destruct (processSettingValue E row _); [|eexists; reflexivity].
  destruct (truthy (get (u "options") row));
    destruct (truthy (get (u "extra_config") row));
    try destruct (JSON_parse (get (u "options") row));
    try destruct (JSON_parse (get (u "extra_config") row));
    eexists; reflexivity.
Qed.

Lemma decode_rows_pure (rows : list obj) :
  exists o, forall w, decode_rows E rows w = (o, w).
Proof.
  induction rows as [|row rows [o Ho]]; [eexists; reflexivity|].
  destruct (decode_row_pure row) as [o1 Ho1].
  cbn [decode_rows]. unfold bind.
  destruct o1 as [s|e].
  - destruct o as [ss|e].
    + exists (Ok (s :: ss)). intros w. now rewrite Ho1, Ho.
    + exists (Throw e). intros w. now rewrite Ho1, Ho.
  - exists (Throw e). intros w. now rewrite Ho1.
Qed.

End SoftDelete.

(** X14: with no rejected call, [DELETE /:id] of an existing setting
    answers 200 and releases the connection; it removes no row and
    writes no history.  After it [GET /key/:key], and [GET /] unless
    [include_inactive] is set, answer as if the setting had been
    removed, while [POST /] with the setting's key still finds the key
    taken: it writes nothing and, its required fields present, answers
    409. *)
Theorem deactivation_hides_but_keeps (E : Env) (req : Request) (db : DB)
  (target : obj) :
  (forall n, fails E n = None) ->
  sql_eq E (VBool false) (VBool true) = false ->
  let id := get (u "id") (params req) in
  In target (system_settings db) ->
  col_eq E (u "id") id target = true ->
  let db' := committed (snd (run (delete_setting E) req db)) in
  (exists resp w,
      run (delete_setting E) req db = (Ok resp, w)
      /\ status resp = 200 /\ held w = 0%nat)
  /\ length (system_settings db') = length (system_settings db)
  /\ settings_history db' = settings_history db
  /\ (forall fetch,
        fst (run (get_setting_by_key E) fetch db')
        = fst (run (get_setting_by_key E) fetch
                 (Spec.without_setting E id db)))
  /\ (forall list,
        negb (truthy (get (u "include_inactive") (query list)))
        || is_str (u "false") (get (u "include_inactive") (query list))
        = true ->
        fst (run (get_settings E) list db')
        = fst (run (get_settings E) list (Spec.without_setting E id db)))
  /\ (forall create,
        sql_eq E (get (u "setting_key") target)
          (get (u "setting_key") (req_body create)) = true ->
        committed (snd (run (post_setting E) create db')) = db'
        /\ (truthy (get (u "setting_key") (req_body create)) = true ->
            truthy (get (u "setting_category") (req_body create)) = true ->
            truthy (get (u "setting_name") (req_body create)) = true ->
            fst (run (post_setting E) create db')
            = Ok (failure 409 (u "Setting key already exists")))).
Proof.
  intros quiet false_is_not_true id Hin Hid db'.
  pose proof (@delete_setting_run E quiet req db) as Hrun. cbv zeta in Hrun.
  fold id in Hrun.
  assert (Hne : filter (col_eq E (u "id") id) (system_settings db) <> []).
  { intros Hnil.
    assert (Hf : In target (filter (col_eq E (u "id") id) (system_settings db)))
      by (apply filter_In; now split).
    now rewrite Hnil in Hf. }
  destruct (filter (col_eq E (u "id") id) (system_settings db)) as [|r rs];
    [congruence|].
  assert (Hdb : db' = snd (deactivate_setting E id db))
    by (unfold db'; now rewrite Hrun).
  assert (Hrows : system_settings db'
                  = map (fun row => if col_eq E (u "id") id row
                                    then Spec.deactivated E row else row)
                      (system_settings db))
    by (rewrite Hdb; reflexivity).
  split; [|split; [|split; [|split; [|split]]]].
  - do 2 eexists. split; [exact Hrun|]. split; reflexivity.
  - rewrite Hrows. apply length_map.
  - rewrite Hdb. reflexivity.
  - intros fetch.
    unfold run, get_setting_by_key, try_catch, bind, getConnection, conn_query,
      db_call, release, fresh, current.
    cbn [calls committed pending held]. rewrite !quiet.
    cbn [calls committed pending held].
    rewrite Hrows.
    rewrite filter_hidden.
    2:{ intros row _.
        now rewrite (@deactivated_inactive E false_is_not_true), andb_false_r. }
    change (system_settings (Spec.without_setting E id db))
      with (filter (fun row => negb (col_eq E (u "id") id row))
              (system_settings db)).
    destruct (filter _ (filter _ (system_settings db))) as [|row rest];
      [reflexivity|].
    destruct (decode_row_pure E row) as [o Ho]. rewrite !Ho.
    destruct o; reflexivity.
  - intros list Hinc.
    unfold run, get_settings, try_catch, bind, getConnection, conn_query,
      db_call, release, fresh, current.
    cbn [calls committed pending held]. rewrite !quiet.
    cbn [calls committed pending held]. rewrite Hinc.
    rewrite Hrows.
    rewrite filter_hidden.
    2:{ intros row _.
        now rewrite (@deactivated_inactive E false_is_not_true), andb_false_r. }
    change (system_settings (Spec.without_setting E id db))
      with (filter (fun row => negb (col_eq E (u "id") id row))
              (system_settings db)).
    match goal with
    | |- context [decode_rows E ?rows] =>
        destruct (decode_rows_pure E rows) as [o Ho]
    end.
    rewrite !Ho. destruct o; reflexivity.
  - intros create Hkey.
    assert (Hsel : fst (select_settings E (u "setting_key")
                          (get (u "setting_key") (req_body create)) db') <> []).
    { unfold select_settings. cbn [fst]. intros Hnil.
      assert (Hf : In (Spec.deactivated E target)
                     (filter (col_eq E (u "setting_key")
                                (get (u "setting_key") (req_body create)))
                        (system_settings db'))).
      { apply filter_In. split.
        - rewrite Hrows. apply in_map_iff. exists target.
          now rewrite Hid.
        - unfold col_eq. now rewrite deactivated_get by lit_neq. }
      now rewrite Hnil in Hf. }
    pose proof (post_setting_post E create db') as H. unfold post in H.
    destruct (H Hsel) as [Hsame H409].
    split; [exact Hsame|]. intros Hk Hc Hn.
    destruct (H409 Hk Hc Hn (quiet 0%nat) (quiet 1%nat)) as [Ho _]. exact Ho.
Qed.

(** [DELETE /settings/2], then [GET /settings/key/enable_sms]. *)
Lemma deactivation_hides_but_keeps_witness :
  In enable_sms (system_settings shop)
  /\ fst (run (get_setting_by_key calm)
            (request [(u "key", VStr (u "enable_sms"))] [] [])
            (committed
               (snd (run (delete_setting calm)
                       (request [(u "id", VStr (u "2"))] [] []) shop))))
     = Ok (failure 404 (u "Setting not found")).
Proof.
  split; [right; left; reflexivity|].
  rewrite (proj1 (proj2 (proj2 (proj2
             (@deactivation_hides_but_keeps calm
                (request [(u "id", VStr (u "2"))] [] []) shop enable_sms
                (fun _ => eq_refl) eq_refl
                (or_intror (or_introl eq_refl)) eq_refl))))).
  reflexivity.
Defined.

End DeactivateFacts.

(* ===================================================================== *)
(** * The service test *)
(* ===================================================================== *)

Module ServiceFacts.
Import Js Encryption Settings Examples JsFacts MonadFacts.

(** X15: [POST /test/:service] never reads the configuration or the
    database: its answer is fixed by the [:service] parameter alone.
    It answers 200 with [success: true] for [email], [sms], [maps] and
    [payments], and 400 [Unsupported service type] for anything
    else. *)
Theorem service_test_ignores_config (req : Request) (w : World) :
  let service := get (u "service") (params req) in
  exists resp,
    post_test_service req w = (Ok resp, w)
    /\ (status resp = 200
        <-> In service [VStr (u "email"); VStr (u "sms"); VStr (u "maps");
                        VStr (u "payments")])
    /\ (status resp <> 200 ->
        resp = failure 400 (u "Unsupported service type"))
    /\ get (u "success") (body resp) = VBool (status resp =? 200)
    /\ (forall req',
          get (u "service") (params req') = service ->
          post_test_service req' w = (Ok resp, w)).
Proof.
  intros service.
  unfold post_test_service, try_catch. fold service.
  destruct (is_str (u "email") service) eqn:H1.
  { apply is_str_true in H1. eexists. split; [reflexivity|].
    split; [|split; [|split]].
    - rewrite H1. cbn. tauto.
    - cbn. congruence.
    - reflexivity.
    - intros req' ->. rewrite H1. reflexivity. }
  destruct (is_str (u "sms") service) eqn:H2.
  { apply is_str_true in H2. eexists. split; [reflexivity|].
    split; [|split; [|split]].
    - rewrite H2. cbn. tauto.
    - cbn. congruence.
    - reflexivity.
    - intros req' ->. rewrite H2. reflexivity. }
  destruct (is_str (u "maps") service) eqn:H3.
  { apply is_str_true in H3. eexists. split; [reflexivity|].
    split; [|split; [|split]].
    - rewrite H3. cbn. tauto.
    - cbn. congruence.
    - reflexivity.
    - intros req' ->. rewrite H3. reflexivity. }
  destruct (is_str (u "payments") service) eqn:H4.
  { apply is_str_true in H4. eexists. split; [reflexivity|].
    split; [|split; [|split]].
    - rewrite H4. cbn. tauto.
    - cbn. congruence.
    - reflexivity.
    - intros req' ->. rewrite H4. reflexivity. }
  apply is_str_false in H1, H2, H3, H4.
  eexists. split; [reflexivity|]. split; [|split; [|split]].
  - cbn [In status failure]. split; [discriminate|].
    intros [H|[H|[H|[H|[]]]]]; symmetry in H; contradiction.
  - reflexivity.
  - reflexivity.
  - intros req' ->.
    apply is_str_false in H1, H2, H3, H4. now rewrite H1, H2, H3, H4.
Qed.

End ServiceFacts.

(* ===================================================================== *)
(** * API keys: update and revocation *)
(* ===================================================================== *)

Module ApiKeyFacts.
Import Js Encryption Settings Examples JsFacts JsonFacts MonadFacts.
Import UpdateFacts RowFacts.

Lemma mask_key_row_pure (key : obj) :
  exists o, forall w, mask_key_row key w = (o, w).
Proof.
  unfold mask_key_row, bind, lift, ret, throw.
  destruct (truthy (get (u "api_key") key)).
  - destruct (get (u "api_key") key); try (eexists; reflexivity).
    destruct (truthy (get (u "permissions") key));
      [destruct (JSON_parse (get (u "permissions") key))|];
      eexists; reflexivity.
  - destruct (truthy (get (u "permissions") key));
      [destruct (JSON_parse (get (u "permissions") key))|];
      eexists; reflexivity.
Qed.

Section ApiKeys.

Variable E : Env.
Hypothesis quiet : forall n, fails E n = None.

Lemma put_api_key_run (req : Request) (db : DB) :
  let id := get (u "id") (params req) in
  run (put_api_key E) req db
  = match filter (col_eq E (u "id") id) (api_keys db) with
    | [] => (Ok (failure 404 (u "API key not found")), mkWorld db None 0 2)
    | _ :: _ =>
        match api_key_updates (req_body req) with
        | [] => (Ok (failure 400 (u "No fields to update")),
                 mkWorld db None 0 2)
        | updates =>
            (Ok (mkResponse 200
                   (obj_lit
                      [(u "success", VBool true);
                       (u "message",
                        VStr (u "API key updated successfully"))])),
             mkWorld (snd (update_api_key E updates id db)) None 0 3)
        end
    end.
Proof.
  intros id.
  unfold run, put_api_key, try_catch, bind, getConnection, conn_query,
    db_call, release, fresh, current.
  cbn [calls committed pending held]. rewrite !quiet.
  cbn [calls committed pending held]. fold id.
  unfold select_api_key_ids.
  destruct (filter (col_eq E (u "id") id) (api_keys db)) as [|r rs];
    cbn [map]; [reflexivity|].
  destruct (api_key_updates (req_body req)); [reflexivity|].
  rewrite !quiet. reflexivity.
Qed.

Lemma api_key_updates_row (b : obj) (row : obj) :
  let row' := spread_with row
                (api_key_updates b ++ [(u "updated_at", sql_now E)]) in
  (forall c, In c [u "key_name"; u "is_active"; u "description"] ->
             get c row' = if is_undefined (get c b) then get c row
                          else get c b)
  /\ get (u "permissions") row'
     = (if is_undefined (get (u "permissions") b)
        then get (u "permissions") row
        else JSON_stringify (get (u "permissions") b))
  /\ get (u "updated_at") row' = sql_now E
  /\ (forall c, ~ In c [u "key_name"; u "permissions"; u "is_active";
                        u "description"; u "updated_at"] ->
                get c row' = get c row).
Proof.
  intros row'. subst row'. unfold api_key_updates, push_if_defined.
  split; [|split; [|split]].
  - intros c Hc.
    destruct (is_undefined (get (u "key_name") b)) eqn:H1,
      (is_undefined (get (u "permissions") b)) eqn:H2,
      (is_undefined (get (u "is_active") b)) eqn:H3,
      (is_undefined (get (u "description") b)) eqn:H4;
      cbn [app]; unfold spread_with; cbn [fold_left fst snd];
      destruct Hc as [<-|[<-|[<-|[]]]];
      rewrite ?H1, ?H3, ?H4;
      repeat first [ rewrite get_set_same
                   | rewrite get_set_other by lit_neq ];
      reflexivity.
  - destruct (is_undefined (get (u "key_name") b)) eqn:H1,
      (is_undefined (get (u "permissions") b)) eqn:H2,
      (is_undefined (get (u "is_active") b)) eqn:H3,
      (is_undefined (get (u "description") b)) eqn:H4;
      cbn [app]; unfold spread_with; cbn [fold_left fst snd];
      repeat first [ rewrite get_set_same
                   | rewrite get_set_other by lit_neq ];
      reflexivity.
  - destruct (is_undefined (get (u "key_name") b)),
      (is_undefined (get (u "permissions") b)),
      (is_undefined (get (u "is_active") b)),
      (is_undefined (get (u "description") b));
      cbn [app]; unfold spread_with; cbn [fold_left fst snd];
      apply get_set_same.
  - intros c Hc. apply get_spread_with_other.
    intros kv Hkv Heq. apply Hc. subst c.
    destruct (is_undefined (get (u "key_name") b)),
      (is_undefined (get (u "permissions") b)),
      (is_undefined (get (u "is_active") b)),
      (is_undefined (get (u "description") b));
      cbn [app In] in Hkv; cbn [In];
      repeat (destruct Hkv as [<-|Hkv]; [cbn [fst]; tauto|]);
      contradiction.
Qed.


Lemma delete_api_key_run (req : Request) (db : DB) :
  let id := get (u "id") (params req) in
  let reason := js_or (get (u "reason") (req_body req))
                  (VStr (u "Revoked by admin")) in
  run (delete_api_key E) req db
  = match filter (col_eq E (u "id") id) (api_keys db) with
    | [] => (Ok (failure 404 (u "API key not found")), mkWorld db None 0 2)
    | _ :: _ =>
        (Ok (mkResponse 200
               (obj_lit
                  [(u "success", VBool true);
                   (u "message", VStr (u "API key revoked successfully"))])),
         mkWorld (snd (revoke_api_key E reason id db)) None 0 3)
    end.
Proof.
  intros id reason.
  unfold run, delete_api_key, try_catch, bind, getConnection, conn_query,
    db_call, release, fresh, current.
  cbn [calls committed pending held]. rewrite !quiet.
  cbn [calls committed pending held]. fold id.
  unfold select_api_key_ids.
  destruct (filter (col_eq E (u "id") id) (api_keys db)) as [|r rs];
    cbn [map]; [reflexivity|].
  rewrite !quiet. reflexivity.
Qed.

End ApiKeys.

(** X16: with no rejected call, the handler of [PUT api-key/:id] on an
    existing key answers 400 and writes nothing when the body carries
    none of [key_name], [permissions], [is_active] and [description].
    Otherwise it answers 200 and releases the connection; in the rows
    with that id each supplied field takes the body's value
    ([permissions] as JSON text), [updated_at] is set and every other
    column, the key itself included, is kept; no other row or table
    changes. *)
Theorem api_key_update_touches_supplied_fields (E : Env) (req : Request)
  (db : DB) (target : obj) :
  (forall n, fails E n = None) ->
  let id := get (u "id") (params req) in
  let b := req_body req in
  In target (api_keys db) ->
  col_eq E (u "id") id target = true ->
  (Forall (fun c => get c b = VUndefined)
     [u "key_name"; u "permissions"; u "is_active"; u "description"] ->
   run (put_api_key E) req db
   = (Ok (failure 400 (u "No fields to update")), mkWorld db None 0 2))
  /\ (Exists (fun c => get c b <> VUndefined)
        [u "key_name"; u "permissions"; u "is_active"; u "description"] ->
      exists resp w,
        run (put_api_key E) req db = (Ok resp, w)
        /\ status resp = 200 /\ held w = 0%nat
        /\ system_settings (committed w) = system_settings db
        /\ settings_history (committed w) = settings_history db
        /\ webhooks (committed w) = webhooks db
        /\ Forall2
             (fun row row' =>
                if col_eq E (u "id") id row then
                  (forall c,
                      In c [u "key_name"; u "is_active"; u "description"] ->
                      get c row' = if is_undefined (get c b) then get c row
                                   else get c b)
                  /\ get (u "permissions") row'
                     = (if is_undefined (get (u "permissions") b)
                        then get (u "permissions") row
                        else JSON_stringify (get (u "permissions") b))
                  /\ get (u "updated_at") row' = sql_now E
                  /\ (forall c,
                        ~ In c [u "key_name"; u "permissions"; u "is_active";
                                u "description"; u "updated_at"] ->
                        get c row' = get c row)
                else row' = row)
             (api_keys db) (api_keys (committed w))).
Proof.
  intros quiet id b Hin Hid.
  pose proof (@put_api_key_run E quiet req db) as Hrun. cbv zeta in Hrun.
  fold id b in Hrun.
  assert (Hne : filter (col_eq E (u "id") id) (api_keys db) <> []).
  { intros Hnil.
    assert (Hf : In target (filter (col_eq E (u "id") id) (api_keys db)))
      by (apply filter_In; now split).
    now rewrite Hnil in Hf. }
  destruct (filter (col_eq E (u "id") id) (api_keys db)) as [|r rs];
    [congruence|].
  split.
  - intros Hall. rewrite Hrun.
    inversion Hall as [|? ? H1 Hall1]; subst.
    inversion Hall1 as [|? ? H2 Hall2]; subst.
    inversion Hall2 as [|? ? H3 Hall3]; subst.
    inversion Hall3 as [|? ? H4 _]; subst.
    unfold api_key_updates, push_if_defined. now rewrite H1, H2, H3, H4.
  - intros Hsome.
    assert (Hupd : api_key_updates b <> []).
    { unfold api_key_updates, push_if_defined. intros Hnil.
      assert (Hd : forall v, v <> VUndefined -> is_undefined v = false)
        by (intros v Hv; destruct v; congruence || reflexivity).
      apply Exists_exists in Hsome as (c & Hc & Hv).
      cbn [In] in Hc.
      destruct Hc as [<-|[<-|[<-|[<-|[]]]]]; rewrite (Hd _ Hv) in Hnil;
        repeat match type of Hnil with
               | context [if ?x then _ else _] => destruct x
               end;
        discriminate. }
    destruct (api_key_updates b) as [|kv kvs] eqn:Hu; [congruence|].
    do 2 eexists. split; [exact Hrun|].
    split; [reflexivity|]. split; [reflexivity|].
    split; [reflexivity|]. split; [reflexivity|]. split; [reflexivity|].
    cbn [committed snd update_api_key api_keys].
    apply Forall2_map_same. intros row _.
    destruct (col_eq E (u "id") id row); [|reflexivity].
    rewrite <- Hu. apply (api_key_updates_row E).
Qed.

(** X17: with no rejected call, the handler of [DELETE api-key/:id] on
    an existing key answers 200 and releases the connection.  It
    deletes no row: the rows with that id become inactive and record
    the reason (the body's, or [Revoked by admin]) and the time, every
    other column kept.  After it [GET /api-key/list] answers as if the
    key had been removed. *)
Theorem revoked_key_leaves_listing (E : Env) (req : Request) (db : DB)
  (target : obj) :
  (forall n, fails E n = None) ->
  sql_eq E (VBool false) (VBool true) = false ->
  let id := get (u "id") (params req) in
  let reason := js_or (get (u "reason") (req_body req))
                  (VStr (u "Revoked by admin")) in
  In target (api_keys db) ->
  col_eq E (u "id") id target = true ->
  let db' := committed (snd (run (delete_api_key E) req db)) in
  (exists resp w,
      run (delete_api_key E) req db = (Ok resp, w)
      /\ status resp = 200 /\ held w = 0%nat)
  /\ Forall2
       (fun row row' =>
          if col_eq E (u "id") id row then
            get (u "is_active") row' = VBool false
            /\ get (u "revoke_reason") row' = reason
            /\ get (u "revoked_at") row' = sql_now E
            /\ (forall c,
                  ~ In c [u "is_active"; u "revoked_at"; u "revoke_reason";
                          u "updated_at"] ->
                  get c row' = get c row)
          else row' = row)
       (api_keys db) (api_keys db')
  /\ (forall list,
        fst (run (get_api_key_list E) list db')
        = fst (run (get_api_key_list E) list (Spec.without_api_key E id db))).
Proof.
  intros quiet false_is_not_true id reason Hin Hid db'.
  pose proof (@delete_api_key_run E quiet req db) as Hrun. cbv zeta in Hrun.
  fold id reason in Hrun.
  assert (Hne : filter (col_eq E (u "id") id) (api_keys db) <> []).
  { intros Hnil.
    assert (Hf : In target (filter (col_eq E (u "id") id) (api_keys db)))
      by (apply filter_In; now split).
    now rewrite Hnil in Hf. }
  destruct (filter (col_eq E (u "id") id) (api_keys db)) as [|r rs];
    [congruence|].
  set (revoked := fun row : obj =>
         spread_with row
           [(u "is_active", VBool false); (u "revoked_at", sql_now E);
            (u "revoke_reason", reason); (u "updated_at", sql_now E)]).
  assert (Hrows : api_keys db'
                  = map (fun row => if col_eq E (u "id") id row
                                    then revoked row else row)
                      (api_keys db))
    by (unfold db'; rewrite Hrun; reflexivity).
  split; [|split].
  - do 2 eexists. split; [exact Hrun|]. split; reflexivity.
  - rewrite Hrows. apply Forall2_map_same. intros row _.
    destruct (col_eq E (u "id") id row); [|reflexivity].
    unfold revoked.
    split; [|split; [|split]].
    + unfold spread_with. cbn [fold_left fst snd].
      rewrite !get_set_other by lit_neq. apply get_set_same.
    + unfold spread_with. cbn [fold_left fst snd].
      rewrite !get_set_other by lit_neq. apply get_set_same.
    + unfold spread_with. cbn [fold_left fst snd].
      rewrite !get_set_other by lit_neq. apply get_set_same.
    + intros c Hc. apply get_spread_with_other.
      intros kv Hkv Heq. apply Hc. subst c. cbn [In] in Hkv |- *.
      repeat (destruct Hkv as [<-|Hkv]; [cbn [fst]; tauto|]).
      contradiction.
  - intros list.
    unfold run, get_api_key_list, try_catch, bind, getConnection, conn_query,
      db_call, release, fresh, current.
    cbn [calls committed pending held]. rewrite !quiet.
    cbn [calls committed pending held].
    rewrite Hrows. rewrite filter_hidden.
    2:{ intros row _. unfold is_active_row, revoked, spread_with.
        cbn [fold_left fst snd].
        rewrite !get_set_other by lit_neq. rewrite get_set_same.
        exact false_is_not_true. }
    change (api_keys (Spec.without_api_key E id db))
      with (filter (fun row => negb (col_eq E (u "id") id row)) (api_keys db)).
    match goal with
    | |- context [map_m mask_key_row ?rows] =>
        destruct (map_m_pure mask_key_row rows mask_key_row_pure) as [o Ho]
    end.
    rewrite !Ho. destruct o; reflexivity.
Qed.

(** A body that renames the key [ci] to [deploy]. *)
Lemma api_key_update_touches_supplied_fields_witness :
  In live_key (api_keys shop)
  /\ exists resp w,
       run (put_api_key calm)
         (request [(u "id", VStr (u "1"))] []
            [(u "key_name", VStr (u "deploy"))]) shop = (Ok resp, w)
       /\ status resp = 200.
Proof.
  split; [left; reflexivity|].
  destruct (proj2 (@api_key_update_touches_supplied_fields calm
                     (request [(u "id", VStr (u "1"))] []
                        [(u "key_name", VStr (u "deploy"))])
                     shop live_key (fun _ => eq_refl)
                     (or_introl eq_refl) eq_refl))
    as (resp & w & Hrun & Hstatus & _).
  { apply Exists_cons_hd. discriminate. }
  exists resp, w. split; assumption.
Defined.

(** Revoking the only key of the shop empties the listing. *)
Lemma revoked_key_leaves_listing_witness :
  In live_key (api_keys shop)
  /\ fst (run (get_api_key_list calm) (request [] [] [])
            (committed
               (snd (run (delete_api_key calm)
                       (request [(u "id", VStr (u "1"))] [] []) shop))))
     = Ok (mkResponse 200
             (obj_lit [(u "success", VBool true); (u "data", VArr []);
                       (u "count", VInt 0)])).
Proof.
  split; [left; reflexivity|].
  rewrite (proj2 (proj2
             (@revoked_key_leaves_listing calm
                (request [(u "id", VStr (u "1"))] [] []) shop live_key
                (fun _ => eq_refl) eq_refl (or_introl eq_refl) eq_refl))).
  reflexivity.
Defined.

End ApiKeyFacts.

(* ===================================================================== *)
(** * Creating a webhook *)
(* ===================================================================== *)

Module WebhookFacts.
Import Js Encryption Settings Examples JsFacts JsonFacts MonadFacts.
Import UpdateFacts JsonRoundTrip.

Section Webhook.

Variable E : Env.
Hypothesis quiet : forall n, fails E n = None.

Lemma post_webhook_run (req : Request) (db : DB) (e : JsVal)
  (es : list JsVal) :
  let b := req_body req in
  let secret := js_or (get (u "secret") b) (VStr (generateWebhookSecret E)) in
  truthy (get (u "url") b) = true ->
  get (u "events") b = VArr (e :: es) ->
  committed (snd (run (post_webhook E) req db))
  = snd (insert_webhook E (Spec.new_webhook_columns E b) db)
  /\ held (snd (run (post_webhook E) req db)) = 0%nat
  /\ (maskSecret secret = None ->
      fst (run (post_webhook E) req db)
      = Ok (failure_500 (u "Failed to create webhook")
              (u "secret.substring is not a function")))
  /\ (forall masked,
        maskSecret secret = Some masked ->
        exists resp data,
          fst (run (post_webhook E) req db) = Ok resp
          /\ status resp = 201
          /\ get (u "data") (body resp) = VObj data
          /\ get (u "id") data = insert_id E (webhooks db)
          /\ get (u "secret") data = secret
          /\ get (u "masked_secret") data = VStr masked).
Proof.
  intros b secret Hurl Hev.
  unfold run, post_webhook, try_catch. fold b. rewrite Hurl, Hev.
  cbn [negb]. fold secret.
  unfold bind, getConnection, conn_query, db_call, release, fresh, current.
  cbn [calls committed pending held]. rewrite !quiet.
  cbn [calls committed pending held]. rewrite ?quiet.
  unfold lift.
  destruct (maskSecret secret) as [m|] eqn:Hm.
  - split; [unfold Spec.new_webhook_columns; fold b secret; rewrite Hev;
            reflexivity|].
    split; [reflexivity|]. split; [discriminate|].
    intros masked Hmasked. injection Hmasked as <-.
    do 2 eexists. split; [reflexivity|]. split; [reflexivity|].
    split; [reflexivity|]. split; [reflexivity|]. split; reflexivity.
  - split; [unfold Spec.new_webhook_columns; fold b secret; rewrite Hev;
            reflexivity|].
    split; [reflexivity|]. split; [reflexivity|]. discriminate.
Qed.


End Webhook.

(** X18: with no rejected call, [POST /webhook/] with a URL and a
    non-empty list of events appends one row, whose secret is the
    body's or, without one, a generated [whsec_] secret, and whose
    events are stored as JSON text.  When the secret cannot be masked
    (it is not a string) the answer is 500 although the row is
    written.  Otherwise [GET /webhook/:id] of the new id answers 200
    with the events as they were sent (strings, booleans, [null],
    arrays and objects of them), the URL, the masked secret, and the
    secret itself; a generated secret is masked as [whsec_...]. *)
Theorem webhook_create_then_fetch (E : Env) (db : DB)
  (create fetch : Request) (e : JsVal) (es : list JsVal) :
  (forall n, fails E n = None) ->
  let b := req_body create in
  let secret := js_or (get (u "secret") b) (VStr (generateWebhookSecret E)) in
  let i := get (u "id") (params fetch) in
  truthy (get (u "url") b) = true ->
  get (u "events") b = VArr (e :: es) ->
  Spec.json_plain (VArr (e :: es)) = true ->
  sql_eq E (insert_id E (webhooks db)) i = true ->
  sql_eq E (VBool true) (VBool true) = true ->
  (forall row, In row (webhooks db) ->
               col_eq E (u "id") i row && is_active_row E row = false) ->
  let db' := committed (snd (run (post_webhook E) create db)) in
  webhooks db'
  = webhooks db
    ++ [obj_lit ((u "id", insert_id E (webhooks db))
                 :: Spec.new_webhook_columns E b)]
  /\ (maskSecret secret = None ->
      exists resp, fst (run (post_webhook E) create db) = Ok resp
                   /\ status resp = 500)
  /\ (forall masked,
        maskSecret secret = Some masked ->
        exists data,
          run (get_webhook_by_id E) fetch db'
          = (Ok (success_data 200 None (VObj data)), mkWorld db' None 0 2)
          /\ get (u "events") data = VArr (e :: es)
          /\ get (u "url") data = get (u "url") b
          /\ get (u "masked_secret") data = VStr masked
          /\ get (u "display_secret") data
             = (if is_str (u "true") (get (u "show_secret") (query fetch))
                then secret else VStr masked)
          /\ get (u "secret") data = secret
          /\ (truthy (get (u "secret") b) = false ->
              masked = u "whsec_...")).
Proof.
  intros quiet b secret i Hurl Hev Hplain Hid Htrue Hfresh db'.
  destruct (@post_webhook_run E quiet create db e es Hurl Hev) as (Hdb & _ & H500 & _).
  fold b secret db' in Hdb, H500.
  set (row := obj_lit ((u "id", insert_id E (webhooks db))
                       :: Spec.new_webhook_columns E b)).
  assert (Hrows : webhooks db' = webhooks db ++ [row])
    by (rewrite Hdb; reflexivity).
  split; [exact Hrows|]. split.
  { intros Hnone. eexists. split; [apply H500; exact Hnone | reflexivity]. }
  intros masked Hmask.
  assert (Hfilter :
    filter (fun r => col_eq E (u "id") i r && is_active_row E r) (webhooks db')
    = [row]).
  { rewrite Hrows, filter_app.
    assert (Hold : filter (fun r => col_eq E (u "id") i r && is_active_row E r)
                     (webhooks db) = []).
    { clear -Hfresh. induction (webhooks db) as [|r rs IH]; [reflexivity|].
      cbn [filter]. rewrite (Hfresh r (or_introl eq_refl)).
      apply IH. intros r' Hr'. apply Hfresh. now right. }
    rewrite Hold. cbn [filter app].
    assert (Hri : col_eq E (u "id") i row = true) by exact Hid.
    assert (Hra : is_active_row E row = true) by exact Htrue.
    now rewrite Hri, Hra. }
  assert (Hevents : get (u "events") row = JSON_stringify (VArr (e :: es)))
    by (change (get (u "events") row) with (JSON_stringify (get (u "events") b));
        now rewrite Hev).
  assert (Hsecret : get (u "secret") row = secret) by reflexivity.
  assert (Hmaskrow : forall w,
            mask_webhook_row row w
            = (Ok (spread_with row
                     [(u "events", VArr (e :: es));
                      (u "masked_secret", VStr masked);
                      (u "display_secret", VStr masked)]), w)).
  { intros w. unfold mask_webhook_row, bind, lift, ret.
    rewrite Hevents, (stringify_truthy _ Hplain),
      (stringify_reads_back _ Hplain), Hsecret, Hmask. reflexivity. }
  eexists. split; [|split; [|split; [|split; [|split; [|split]]]]].
  - unfold run, get_webhook_by_id, try_catch, bind, getConnection, conn_query,
      db_call, release, fresh, current.
    cbn [calls committed pending held]. rewrite !quiet.
    cbn [calls committed pending held]. fold i. rewrite Hfilter.
    rewrite Hmaskrow. reflexivity.
  - unfold spread_with. cbn [fold_left fst snd].
    destruct (is_str (u "true") (get (u "show_secret") (query fetch)));
      rewrite !get_set_other by lit_neq; apply get_set_same.
  - unfold spread_with. cbn [fold_left fst snd].
    destruct (is_str (u "true") (get (u "show_secret") (query fetch)));
      rewrite !get_set_other by lit_neq; reflexivity.
  - unfold spread_with. cbn [fold_left fst snd].
    destruct (is_str (u "true") (get (u "show_secret") (query fetch)));
      rewrite !get_set_other by lit_neq; apply get_set_same.
  - unfold spread_with. cbn [fold_left fst snd].
    destruct (is_str (u "true") (get (u "show_secret") (query fetch)));
      [rewrite get_set_same; exact Hsecret | apply get_set_same].
  - unfold spread_with. cbn [fold_left fst snd].
    destruct (is_str (u "true") (get (u "show_secret") (query fetch))).
    + rewrite get_set_other by lit_neq. rewrite get_set_same. exact Hsecret.
    + rewrite !get_set_other by lit_neq. exact Hsecret.
  - intros Hnone. unfold secret, js_or in Hmask. rewrite Hnone in Hmask.
    assert (Hgen : maskSecret (VStr (generateWebhookSecret E))
                   = Some (u "whsec_...")) by reflexivity.
    congruence.
Qed.

(** A webhook for [order.created], created without a secret. *)
Lemma webhook_create_then_fetch_witness :
  exists data,
    fst (run (get_webhook_by_id calm)
           (request [(u "id", VStr (u "2"))] [] [])
           (committed
              (snd (run (post_webhook calm)
                      (request [] []
                         [(u "url", VStr (u "https://example.org/new"));
                          (u "events", VArr [VStr (u "order.created")])])
                      shop))))
    = Ok (success_data 200 None (VObj data))
    /\ get (u "events") data = VArr [VStr (u "order.created")]
    /\ get (u "masked_secret") data = VStr (u "whsec_...").
Proof.
  assert (Hfresh : forall row, In row (webhooks shop) ->
            col_eq calm (u "id") (VStr (u "2")) row
            && is_active_row calm row = false).
  { intros row [<-|[]]. reflexivity. }
  destruct (proj2 (proj2
              (@webhook_create_then_fetch calm shop
                 (request [] []
                    [(u "url", VStr (u "https://example.org/new"));
                     (u "events", VArr [VStr (u "order.created")])])
                 (request [(u "id", VStr (u "2"))] [] [])
                 (VStr (u "order.created")) [] (fun _ => eq_refl)
                 eq_refl eq_refl eq_refl eq_refl eq_refl Hfresh))
              (u "whsec_...") eq_refl)
    as (data & Hrun & Hev & _ & Hmask & _).
  exists data. rewrite Hrun. repeat split; assumption.
Defined.

End WebhookFacts.
